(** * spring-mesh: the physics engine of [code/simulation.py]

    A shallow embedding of [_calculate_forces] and [simulate] and the
    properties of the force stencil, the velocity-Verlet loop and the
    frame resampling.

    Scalars are IEEE 754 binary64 numbers, as numpy's [float64]: the
    primitive [float] of the kernel, whose operations round to nearest
    even and never raise (numpy's default error state turns a division
    by zero into [inf] or [nan] and a warning).  Arrays are lists; a
    mesh-shaped array is a list of rows.  Element-wise operations are
    modelled on operands of one shape, the shape of the mesh; numpy's
    broadcasting of other shapes is outside the model.

    The error bounds of the resampling are stated over the reals, with
    the IEEE 754 specification of the primitive operations. *)

From Stdlib Require Import ZArith List Floats Lia Reals Lra.
From stdpp Require Import base option list.


(** ** Generic helpers *)

(** A loop whose body may raise: the body runs on the elements from left
    to right and the first failure aborts the loop. *)
Fixpoint foldM {A B : Type} (f : B → A → option B) (l : list A) (b : B)
  : option B :=
  match l with
  | [] => Some b
  | x :: l' => match f b x with
               | Some b' => foldM f l' b'
               | None => None
               end
  end.

(** ** numpy arrays *)

Module Np.

Abbreviation grid := (list (list float)).

(** [a.shape] of a two-dimensional array. *)
Definition shape {A : Type} (a : list (list A)) : nat * nat :=
  (length a, match a with [] => 0 | r :: _ => length r end).

Definition has_shape {A : Type} (ny nx : nat) (a : list (list A)) : Prop :=
  length a = ny ∧ Forall (λ r, length r = nx) a.

(** [np.zeros((ny, nx))] *)
Definition zeros (ny nx : nat) : grid := replicate ny (replicate nx 0%float).

(** An index into an axis of length [n]: a negative index counts from the
    end, anything outside [-n .. n-1] raises [IndexError]. *)
Definition index (n : nat) (i : Z) : option nat :=
  if decide (0 ≤ i < Z.of_nat n)%Z then Some (Z.to_nat i)
  else if decide (- Z.of_nat n ≤ i < 0)%Z then Some (Z.to_nat (i + Z.of_nat n))
  else None.

(** [a[i]] *)
Definition item {A : Type} (a : list A) (i : Z) : option A :=
  index (length a) i ≫= λ i', a !! i'.

(** [a[i, j]] *)
Definition item2 {A : Type} (a : list (list A)) (i j : Z) : option A :=
  item a i ≫= λ r, item r j.

(** The cell [(i, j)] of a grid, by natural indices. *)
Definition cell {A : Type} (a : list (list A)) (i j : nat) : option A :=
  a !! i ≫= λ r, r !! j.

(** [a[i, j] += v] *)
Definition add_at (a : grid) (i j : Z) (v : float) : option grid :=
  i' ← index (length a) i;
  r ← a !! i';
  j' ← index (length r) j;
  x ← r !! j';
  Some (<[i' := <[j' := (x + v)%float]> r]> a).

(** Element-wise operations on arrays of one shape, and with a scalar. *)
Definition map2 (op : float → float → float) (a b : grid) : grid :=
  zip_with (zip_with op) a b.

Definition maps (op : float → float) (a : grid) : grid :=
  map (map op) a.

End Np.

(** ** The force field: [_calculate_forces] *)

Section Forces.

Local Open Scope float_scope.

(** The arguments [elastic_constant], [natural_length] and
    [particle_separation]. *)
Variables (elastic_constant natural_length particle_separation : float).

Definition displacements : list (Z * Z) :=
  [(0, -1); (-1, 0); (0, 1); (1, 0)]%Z.

(** [x**2]: the power function of the C library at the exponent 2, taken
    as the correctly rounded product [x * x]. *)
Definition square (x : float) : float := x * x.

(** [np.sqrt(particle_separation**2 + (p - q)**2)] *)
Definition spring_length (p q : float) : float :=
  PrimFloat.sqrt (square particle_separation + square (p - q)).

(** The term added to [forces[i, j]] for the neighbour holding [q]. *)
Definition spring_force (p q : float) : float :=
  let length := spring_length p q in
  let elongation := length - natural_length in
  (((- elastic_constant) * elongation) * (p - q)) / length.

(** The body of the innermost loop, for one [(dx, dy)]. *)
Definition visit (pos : Np.grid) (i j : nat) (forces : Np.grid)
    (off : Z * Z) : option Np.grid :=
  let '(dx, dy) := off in
  p ← Np.item2 pos (Z.of_nat i) (Z.of_nat j);
  q ← Np.item2 pos (Z.of_nat i + dx) (Z.of_nat j + dy);
  Np.add_at forces (Z.of_nat i) (Z.of_nat j) (spring_force p q).

(** [range(1, n - 1)] *)
Definition interior (n : nat) : list nat := seq 1 (n - 2).

Definition _calculate_forces (pos : Np.grid) : option Np.grid :=
  let '(ny, nx) := Np.shape pos in
  foldM (λ forces i,
    foldM (λ forces j, foldM (visit pos i j) displacements forces)
          (interior nx) forces)
    (interior ny) (Np.zeros ny nx).

(** The value of [forces[i, j]] once the four neighbours, in the order of
    [displacements], have been added to [x]. *)
Definition neighbour_sum (x p left up right down : float) : float :=
  (((x + spring_force p left) + spring_force p up) + spring_force p right)
  + spring_force p down.

Definition stencil (pos : Np.grid) (i j : nat) (x : float) : option float :=
  p ← Np.cell pos i j;
  left ← Np.cell pos i (j - 1);
  up ← Np.cell pos (i - 1) j;
  right ← Np.cell pos i (j + 1);
  down ← Np.cell pos (i + 1) j;
  Some (neighbour_sum x p left up right down).

End Forces.

(** The cells visited by the two outer loops. *)
Definition is_interior (ny nx i j : nat) : Prop :=
  1 ≤ i ∧ i + 1 < ny ∧ 1 ≤ j ∧ j + 1 < nx.

#[global] Instance is_interior_dec ny nx i j : Decision (is_interior ny nx i j).
Proof. unfold is_interior. apply _. Defined.

(** ** Conversions between floats and integers *)

Module Conv.

(** Truncation toward zero of a finite float; [None] on [nan] and the
    infinities. *)
Definition trunc (x : float) : option Z :=
  match Prim2SF x with
  | S754_zero _ => Some 0%Z
  | S754_finite s m e =>
      let a := match e with
               | Zneg p => Z.shiftr (Zpos m) (Zpos p)
               | _ => Z.shiftl (Zpos m) e
               end in
      Some (if s then (- a)%Z else a)
  | S754_infinity _ | S754_nan => None
  end.

(** Neither [nan] nor an infinity. *)
Definition is_finite (x : float) : bool :=
  match Prim2SF x with
  | S754_zero _ | S754_finite _ _ _ => true
  | S754_infinity _ | S754_nan => false
  end.

(** Python's [int(x)]: truncation; [ValueError] on [nan], [OverflowError]
    on an infinity. *)
Definition py_int (x : float) : option Z := trunc x.

(** [x.astype(np.int64)]: the C cast, which truncates; outside the range
    of [int64] and on [nan] the conversion yields [-2^63]. *)
Definition astype_int64 (x : float) : Z :=
  match trunc x with
  | Some z => if decide (- 2 ^ 63 ≤ z < 2 ^ 63)%Z then z else (- 2 ^ 63)%Z
  | None => (- 2 ^ 63)%Z
  end.

(** The float nearest to an integer count or index (below [2^63]). *)
Definition of_Z (z : Z) : float :=
  match z with
  | Zneg p => (- PrimFloat.of_uint63 (Uint63.of_Z (Zpos p)))%float
  | _ => PrimFloat.of_uint63 (Uint63.of_Z z)
  end.

Definition of_nat (n : nat) : float := of_Z (Z.of_nat n).

End Conv.

(** ** The integrator and the exporter: [simulate] *)

(** The three histories [time], [pos] and [vel], one entry per step. *)
Record history : Type := History {
  time : list float;
  pos : list Np.grid;
  vel : list Np.grid;
}.

Section Simulate.

Local Open Scope float_scope.

(** [CONFIG["FPS"]], and [np.round(-, CONFIG["DATAFRAME_DECIMALS"])] on one
    value: the settings of [configs/global.yml]. *)
Variable FPS : float.
Variable round_dec : float → float.

(** The arguments of [simulate]; a cell of [particle_types] is [0] for
    a static particle. *)
Variable masses : Np.grid.
Variable initial_pos : Np.grid.
Variable particle_types : list (list Z).
Variables (elastic_constant natural_length particle_separation : float).
Variable timestep : float.
Variable n_steps : nat.

Definition forces_of : Np.grid → option Np.grid :=
  _calculate_forces elastic_constant natural_length particle_separation.

(** [a[particle_types == 0] = 0] on one mesh-shaped array. *)
Definition pin_static (a : Np.grid) : Np.grid :=
  zip_with (zip_with (λ (t : Z) x, if decide (t = 0%Z) then 0 else x))
           particle_types a.

(** [h[:, particle_types == 0] = 0]: every step of the history. *)
Definition pin_static_all (h : list Np.grid) : list Np.grid :=
  map pin_static h.

(** Lines 119-123: the histories before the loop.  [pos[0] = initial_pos]
    raises [IndexError] when [n_steps] is 0. *)
Definition initial_history : option history :=
  let '(ny, nx) := Np.shape initial_pos in
  let pos0 := replicate n_steps (Np.zeros ny nx) in
  if decide (n_steps = 0%nat) then None
  else Some {|
    time := replicate n_steps 0;
    pos := pin_static_all (<[0%nat := initial_pos]> pos0);
    vel := replicate n_steps (Np.zeros ny nx) |}.

(** [forces / masses] *)
Definition acceleration (forces : Np.grid) : Np.grid :=
  Np.map2 PrimFloat.div forces masses.

(** [p + v * timestep + 0.5 * acc_then * timestep**2] *)
Definition advance_pos (p v acc_then : Np.grid) : Np.grid :=
  Np.map2 PrimFloat.add
    (Np.map2 PrimFloat.add p (Np.maps (λ x, x * timestep) v))
    (Np.maps (λ x, x * square timestep) (Np.maps (λ x, 0.5 * x) acc_then)).

(** [v + 0.5 * (acc_then + acc_now) * timestep] *)
Definition advance_vel (v acc_then acc_now : Np.grid) : Np.grid :=
  Np.map2 PrimFloat.add v
    (Np.maps (λ x, x * timestep)
       (Np.maps (λ x, 0.5 * x) (Np.map2 PrimFloat.add acc_then acc_now))).

(** Lines 131-157: the body of the integration loop at [step]. *)
Definition integration_step (h : history) (step : nat) : option history :=
  pos_prev ← pos h !! (step - 1)%nat;
  vel_prev ← vel h !! (step - 1)%nat;
  time_prev ← time h !! (step - 1)%nat;
  forces_then ← forces_of pos_prev;
  let acc_then := acceleration forces_then in
  let pos' :=
    pin_static_all (<[step := advance_pos pos_prev vel_prev acc_then]> (pos h)) in
  pos_now ← pos' !! step;
  forces_now ← forces_of pos_now;
  let acc_now := acceleration forces_now in
  let vel' :=
    pin_static_all (<[step := advance_vel vel_prev acc_then acc_now]> (vel h)) in
  Some {| time := <[step := time_prev + timestep]> (time h);
          pos := pos';
          vel := vel' |}.

(** Lines 119-157: the histories after [range(1, n_steps)]. *)
Definition integrate : option history :=
  initial_history ≫= foldM integration_step (seq 1 (n_steps - 1)).

(** [np.linspace(0, 1, n_rows, endpoint=False) * length] cast to [int64]:
    numpy computes [step = 1 / n_rows] and the samples [k * step + 0]. *)
Definition sample_index (n_rows : nat) (length : nat) (k : nat) : Z :=
  Conv.astype_int64
    (((Conv.of_nat k * (1 / Conv.of_nat n_rows)) + 0) * Conv.of_nat length).

Definition sample_indices (n_rows : nat) (length : nat) : list Z :=
  map (sample_index n_rows length) (seq 0 n_rows).

(** [int(CONFIG["FPS"] * time["Time"].to_numpy()[-1])] *)
Definition row_count (times : list float) : option Z :=
  last times ≫= λ t, Conv.py_int (FPS * t).

(** [a[idx]]: the entries of [a] at the indices of [idx]. *)
Definition take_rows {A : Type} (a : list A) (idx : list Z) : option (list A) :=
  mapM (Np.item a) idx.

(** Lines 159-178: rounding, resampling and the two exported artefacts
    ([time.csv] and [data.pkl]), which are also the value returned.
    [np.linspace] raises [ValueError] on a negative count. *)
Definition export (h : history) : option (list float * list Np.grid) :=
  let time := map round_dec (time h) in
  let pos := map (Np.maps round_dec) (pos h) in
  n_rows ← row_count time;
  if decide (n_rows < 0)%Z then None
  else
    let idx := sample_indices (Z.to_nat n_rows) (length time) in
    time' ← take_rows time idx;
    pos' ← take_rows pos idx;
    Some (time', pos').

Definition simulate : option (list float * list Np.grid) :=
  integrate ≫= export.

End Simulate.

(** [np.round(x, decimals)] for [decimals > 0]: numpy multiplies by
    [10**decimals], rounds to the nearest integer (ties to even) and
    divides again. *)
Module Round.
Local Open Scope float_scope.

Definition two52 : float := 0x1p52.

(** [np.rint] *)
Definition rint (x : float) : float :=
  if PrimFloat.abs x <? two52 then
    if x <? 0 then - ((- x + two52) - two52)
    else if 0 <? x then (x + two52) - two52
    else x
  else x.

Fixpoint power_of_ten (decimals : nat) : float :=
  match decimals with
  | O => 1
  | S d => power_of_ten d * 10
  end.

Definition np_round (decimals : nat) (x : float) : float :=
  match decimals with
  | O => rint x
  | _ => rint (x * power_of_ten decimals) / power_of_ten decimals
  end.

End Round.


(** ** What the loop establishes *)

Section HistorySpec.

Variable masses : Np.grid.
Variable initial_pos : Np.grid.
Variable particle_types : list (list Z).
Variables (elastic_constant natural_length particle_separation : float).
Variable timestep : float.
Variable n_steps : nat.
Variables (ny nx : nat).

(** The entries [s - 1] and [s] of the three histories are related as one
    pass of the loop body at [step = s] relates them. *)
Definition step_relation (h : history) (s : nat) : Prop :=
  ∃ p v t forces_then forces_now,
    pos h !! (s - 1) = Some p
    ∧ vel h !! (s - 1) = Some v
    ∧ time h !! (s - 1) = Some t
    ∧ forces_of elastic_constant natural_length particle_separation p
        = Some forces_then
    ∧ let acc_then := acceleration masses forces_then in
      let p' := pin_static particle_types (advance_pos timestep p v acc_then) in
      pos h !! s = Some p'
      ∧ forces_of elastic_constant natural_length particle_separation p'
          = Some forces_now
      ∧ let acc_now := acceleration masses forces_now in
        vel h !! s =
          Some (pin_static particle_types (advance_vel timestep v acc_then acc_now))
        ∧ time h !! s = Some (t + timestep)%float.

(** The state of the histories after the passes [1 .. m] of the loop. *)
Record integrated (m : nat) (h : history) : Prop := Integrated {
  int_time_length : length (time h) = n_steps;
  int_pos_length : length (pos h) = n_steps;
  int_vel_length : length (vel h) = n_steps;
  int_pos_shape : Forall (Np.has_shape ny nx) (pos h);
  int_vel_shape : Forall (Np.has_shape ny nx) (vel h);
  int_pos_pinned : Forall (λ a, pin_static particle_types a = a) (pos h);
  int_vel_pinned : Forall (λ a, pin_static particle_types a = a) (vel h);
  int_time_0 : time h !! 0 = Some 0%float;
  int_pos_0 : pos h !! 0 = Some (pin_static particle_types initial_pos);
  int_vel_0 : vel h !! 0 = Some (Np.zeros ny nx);
  int_steps : ∀ s, 1 ≤ s ≤ m → step_relation h s;
}.

End HistorySpec.

(** The simulated time after [s] passes of the loop: [timestep] added
    [s] times to 0. *)
Fixpoint elapsed (timestep : float) (s : nat) : float :=
  match s with
  | O => 0%float
  | S s' => (elapsed timestep s' + timestep)%float
  end.

(** ** Classes of binary64 numbers *)

Module Class.

(** A positive number or [+inf]. *)
Definition is_positive (x : spec_float) : Prop :=
  match x with
  | S754_finite s _ _ | S754_infinity s => s = false
  | S754_zero _ | S754_nan => False
  end.



End Class.

(** ** Real values of binary64 numbers *)

(** The value of the positive number with mantissa [m] and exponent [e]. *)
Definition F2R (m : positive) (e : Z) : R := (IZR (Zpos m) * powerRZ 2 e)%R.

(** The relative error allowed to one rounding: [2^-51]. *)
Definition eps : R := (/ IZR (2 ^ 51))%R.

(** [x] is a positive normal number with an exponent between [lo] and
    [hi] and a value of at most [v]. *)
Definition bounded_float (x : float) (lo hi : Z) (v : R) : Prop :=
  ∃ m e,
    Prim2SF x = S754_finite false m e
    ∧ (2 ^ 52 ≤ Zpos m < 2 ^ 53)%Z
    ∧ (lo ≤ e ≤ hi)%Z
    ∧ (F2R m e <= v)%R.

(** [x] is the positive normal number whose value is the integer [z]. *)
Definition represents (x : float) (z : Z) : Prop :=
  ∃ m e,
    Prim2SF x = S754_finite false m e
    ∧ (2 ^ 52 ≤ Zpos m < 2 ^ 53)%Z
    ∧ (-52 ≤ e ≤ 0)%Z
    ∧ Zpos m = (z * 2 ^ (- e))%Z.


(** ** The sample index in the words of the specification *)

(** [floor((k / nRows) * historyLength)] in exact arithmetic. *)
Definition spec_sample_index (n_rows length k : nat) : Z :=
  (Z.of_nat k * Z.of_nat length / Z.of_nat n_rows)%Z.

(** The same formula evaluated in binary64, with a division by [nRows]. *)
Definition spec_sample_index_float (n_rows length k : nat) : Z :=
  Conv.astype_int64
    ((Conv.of_nat k / Conv.of_nat n_rows) * Conv.of_nat length)%float.

(** ** A 3 x 3 mesh: a dynamic centre inside a static border *)

Module Mesh3.

Definition masses : Np.grid :=
  [[1; 1; 1]; [1; 1; 1]; [1; 1; 1]]%float.

Definition initial_pos : Np.grid :=
  [[0; 0; 0]; [0; 0.5; 0]; [0; 0; 0]]%float.

Definition particle_types : list (list Z) :=
  [[0; 0; 0]; [0; 1; 0]; [0; 0; 0]]%Z.

(** The same mesh with a massless centre particle. *)
Definition massless_centre : Np.grid :=
  [[1; 1; 1]; [1; 0; 1]; [1; 1; 1]]%float.

End Mesh3.

(** ** The configuration: [read_config_matrices] and [main] *)

Module Config.

(** An image as [imageio.v2.imread] returns it: rows of pixels, a pixel
    being the list of its channels, each a [uint8]. *)
Abbreviation image := (list (list (list Z))).

(** [img[:, :, 0]]; [IndexError] when the pixels have no channel. *)
Definition first_channel (img : image) : option (list (list Z)) :=
  mapM (mapM (λ px : list Z, px !! 0)) img.

(** [img[:, :, 0] // 255] on [uint8] values. *)
Definition floor_255 (img : image) : option (list (list Z)) :=
  map (map (λ v, v / 255)%Z) <$> first_channel img.

(** [img[:, :, 0] / 255]: the true division, in [float64]. *)
Definition unit_scale (img : image) : option Np.grid :=
  map (map (λ v, Conv.of_Z v / 255)%float) <$> first_channel img.

(** The five images of a configuration folder, read in this order. *)
Record images : Type := Images {
  dynamic_png : image;
  mass_png : image;
  amplitude_png : image;
  elastic_constant_png : image;
  natural_length_png : image;
}.

Definition read_config_matrices (imgs : images)
  : option (list (list Z) * Np.grid * Np.grid * Np.grid * Np.grid) :=
  dynamic ← floor_255 (dynamic_png imgs);
  mass ← unit_scale (mass_png imgs);
  amplitude ← unit_scale (amplitude_png imgs);
  elastic_constant ← unit_scale (elastic_constant_png imgs);
  natural_length ← unit_scale (natural_length_png imgs);
  Some (dynamic, mass, amplitude, elastic_constant, natural_length).

(** The keys of [configs/<simulation>/physics.yml]. *)
Record physics : Type := Physics {
  MASS : float;
  AMPLITUDE : float;
  ELASTIC_CONSTANT : float;
  NATURAL_LENGTH : float;
  PART_SEPARATION : float;
  TIMESTEP : float;
  N_STEPS : nat;
}.

(** The arguments [masses] and [initial_pos] that [main] passes on:
    [mass * PHYSICS["MASS"]] and [amplitude * PHYSICS["AMPLITUDE"]]. *)
Definition scaled (a : Np.grid) (factor : float) : Np.grid :=
  Np.maps (λ x, x * factor)%float a.

(** [main], from the images and the physics file to the value of
    [simulate]; the two images of spring properties are read and not
    used. *)
Definition main (FPS : float) (round_dec : float → float)
    (imgs : images) (phys : physics)
  : option (list float * list Np.grid) :=
  '(dynamic, mass, amplitude, _, _) ← read_config_matrices imgs;
  simulate FPS round_dec
    (scaled mass (MASS phys)) (scaled amplitude (AMPLITUDE phys)) dynamic
    (ELASTIC_CONSTANT phys) (NATURAL_LENGTH phys) (PART_SEPARATION phys)
    (TIMESTEP phys) (N_STEPS phys).

(** An image of [ny] rows and [nx] columns with at least one channel. *)
Definition is_image (ny nx : nat) (img : image) : Prop :=
  Np.has_shape ny nx img ∧ Forall (Forall (λ px : list Z, px ≠ [])) img.

(** A three-dimensional array of any height and width. *)
Definition readable (img : image) : Prop := ∃ ny nx, is_image ny nx img.

(** The test passed on every value of a [uint8] in the lemma
    [unit_scale_checked]: the quotient [v / 255] is 0 at 0 only, at most 1,
    and 1 at 255 only. *)
Definition unit_scale_check (v : nat) : bool :=
  let m := (Conv.of_Z (Z.of_nat v) / 255)%float in
  match v with
  | O => PrimFloat.Leibniz.eqb m 0
  | _ => (0 <? m)%float
  end
  && (m <=? 1)%float
  && (if decide (v = 255) then PrimFloat.Leibniz.eqb m 1 else (m <? 1)%float).

End Config.


(** ** Sample configurations *)

(** The 3 x 3 mesh at one level, every particle dynamic. *)
Module Level3.

Definition level : Np.grid := replicate 3 (replicate 3 0.5%float).

Definition dynamic : list (list Z) := replicate 3 (replicate 3 1%Z).

End Level3.

(** Images of 3 x 3 grey pixels: a dynamic centre in a static frame, unit
    masses, and an amplitude of 128/255 at the centre. *)
Module Images3.

Definition grey (v : Z) : list Z := [v; v; v].

Definition dynamic_png : Config.image :=
  [[grey 0; grey 0; grey 0]; [grey 0; grey 255; grey 0];
   [grey 0; grey 0; grey 0]].

Definition mass_png : Config.image :=
  [[grey 255; grey 255; grey 255]; [grey 255; grey 255; grey 255];
   [grey 255; grey 255; grey 255]].

Definition amplitude_png : Config.image :=
  [[grey 0; grey 0; grey 0]; [grey 0; grey 128; grey 0];
   [grey 0; grey 0; grey 0]].

Definition black_png : Config.image :=
  [[grey 0; grey 0; grey 0]; [grey 0; grey 0; grey 0];
   [grey 0; grey 0; grey 0]].

Definition pngs : Config.images :=
  {| Config.dynamic_png := dynamic_png;
     Config.mass_png := mass_png;
     Config.amplitude_png := amplitude_png;
     Config.elastic_constant_png := mass_png;
     Config.natural_length_png := mass_png |}.

Definition constants : Config.physics :=
  {| Config.MASS := 1; Config.AMPLITUDE := 1; Config.ELASTIC_CONSTANT := 1;
     Config.NATURAL_LENGTH := 1; Config.PART_SEPARATION := 1;
     Config.TIMESTEP := 0.5; Config.N_STEPS := 3 |}.

End Images3.

(** * The viewer: [code/animation.py], [code/mesh.py], [code/cell.py], [code/ui]

    The viewer is a pygame program.  Its windows, fonts, clock and pixels
    are pygame's and are outside the model; what is modelled is the state
    the classes of the repository keep and every value they compute from
    the exported trajectory: the widgets' attributes, the order of the
    sprites, the normalisation of the data, the frame counter and the
    exceptions that the code of the repository and the numeric conversions
    raise.  No exception is caught anywhere in the repository, so a raised
    exception ends the program and the state it leaves behind is not
    kept. *)

From stdpp Require Import strings.

Inductive exn : Type :=
  | IndexError
  | ValueError
  | OverflowError
  | AttributeError
  | SystemExit.

#[global] Instance exn_eq_dec : EqDecision exn.
Proof. solve_decision. Defined.

Inductive result (A : Type) : Type :=
  | Ok (a : A)
  | Raise (e : exn).

Arguments Ok {A} a.
Arguments Raise {A} e.

#[global] Instance result_ret : MRet result := @Ok.

#[global] Instance result_bind : MBind result :=
  λ A B f m, match m with Ok a => f a | Raise e => Raise e end.

(** A lookup that raises [e] where the model of the lookup has no value. *)
Definition or_raise {A : Type} (e : exn) (o : option A) : result A :=
  match o with Some a => Ok a | None => Raise e end.

(** A loop whose body may raise, over the elements from left to right. *)
Fixpoint for_each {A B : Type} (f : B → A → result B) (l : list A) (b : B)
  : result B :=
  match l with
  | [] => Ok b
  | x :: l' => b' ← f b x; for_each f l' b'
  end.

Module Py.

(** [int(x)] of a float: [ValueError] on [nan], [OverflowError] on an
    infinity. *)
Definition int (x : float) : result Z :=
  match Conv.trunc x with
  | Some z => Ok z
  | None => if PrimFloat.is_nan x then Raise ValueError else Raise OverflowError
  end.

End Py.

(** ** [pygame.Rect], as far as [IndicatorBar] uses it *)

Module Rect.

Record t : Type := Rect { left : Z; top : Z; width : Z; height : Z }.

Definition set_left (x : Z) (r : t) : t :=
  {| left := x; top := top r; width := width r; height := height r |}.

Definition set_top (y : Z) (r : t) : t :=
  {| left := left r; top := y; width := width r; height := height r |}.

Definition set_width (w : Z) (r : t) : t :=
  {| left := left r; top := top r; width := w; height := height r |}.

Definition set_height (h : Z) (r : t) : t :=
  {| left := left r; top := top r; width := width r; height := h |}.

(** [Rect.normalize()]: a negative width or height is flipped and the
    rectangle stays in place. *)
Definition normalize (r : t) : t :=
  let r :=
    if decide (width r < 0)%Z
    then {| left := left r + width r; top := top r;
            width := - width r; height := height r |}
    else r in
  if decide (height r < 0)%Z
  then {| left := left r; top := top r + height r;
          width := width r; height := - height r |}
  else r.

End Rect.

(** ** [ui/indicator_bar.py] *)

Module IndicatorBar.

Local Open Scope float_scope.

Record t : Type := IndicatorBar {
  __left : Z;
  __top : Z;
  __width : Z;
  __height : Z;
  __color : string;
  __fill_direction : string;
  __value : float;
  __rect : Rect.t;
}.

Definition get_fill_direction (self : t) : string := __fill_direction self.
Definition get_color (self : t) : string := __color self.
Definition get_value (self : t) : float := __value self.
Definition get_rect (self : t) : Rect.t := __rect self.

Definition with_rect (r : Rect.t) (self : t) : t :=
  {| __left := __left self; __top := __top self; __width := __width self;
     __height := __height self; __color := __color self;
     __fill_direction := __fill_direction self; __value := __value self;
     __rect := r |}.

Definition set_fill_direction (new_fill_direction : string) (self : t)
  : result t :=
  if decide (new_fill_direction ∈ ["vertical"; "horizontal"]) then
    Ok {| __left := __left self; __top := __top self;
          __width := __width self; __height := __height self;
          __color := __color self;
          __fill_direction := new_fill_direction;
          __value := __value self; __rect := __rect self |}
  else Raise ValueError.

Definition set_color (new_color : string) (self : t) : t :=
  {| __left := __left self; __top := __top self; __width := __width self;
     __height := __height self; __color := new_color;
     __fill_direction := __fill_direction self; __value := __value self;
     __rect := __rect self |}.

(** Lines 38-56.  The products [value * width] and [value * height] are
    float products: the integer attribute is converted first. *)
Definition set_value (new_value : float) (self : t) : result t :=
  let new_value := if 1 <? new_value then 1 else new_value in
  let new_value := if new_value <? -1 then -1 else new_value in
  let self :=
    {| __left := __left self; __top := __top self; __width := __width self;
       __height := __height self; __color := __color self;
       __fill_direction := __fill_direction self; __value := new_value;
       __rect := __rect self |} in
  self ←
    (if decide (__fill_direction self = "horizontal") then
       w ← Py.int (__value self * Conv.of_Z (__width self));
       let r := Rect.set_width w (__rect self) in
       let r :=
         if decide (Rect.left r ≠ __left self)
         then Rect.set_left (__left self) r else r in
       Ok (with_rect r self)
     else Ok self);
  self ←
    (if decide (__fill_direction self = "vertical") then
       h ← Py.int (__value self * Conv.of_Z (__height self));
       let r := Rect.set_height h (__rect self) in
       let r :=
         if decide (Rect.top r ≠ __top self)
         then Rect.set_top (__top self) r else r in
       Ok (with_rect r self)
     else Ok self);
  Ok (if __value self <? 0 then with_rect (Rect.normalize (__rect self)) self
      else self).

(** The constructor.  The attributes [__fill_direction] and [__value] do
    not exist before their setters have run; both setters write them
    before anything reads them. *)
Definition __init__ (left top width height : Z) (color fill_direction : string)
  : result t :=
  let self :=
    {| __left := left; __top := top; __width := width; __height := height;
       __color := color; __fill_direction := ""; __value := 0;
       __rect := Rect.Rect left top width height |} in
  self ← set_fill_direction fill_direction self;
  set_value 1 self.

End IndicatorBar.

(** ** [ui/text.py] *)

Module Text.

(** What [font.render(value, True, color)] returns: a surface, known by
    the text and the colour it was rendered with. *)
Record surface : Type := Surface { text : string; text_color : string }.

(** [screen.blit(surf, surf.get_rect(anchor=loc))] *)
Record blit : Type := Blit {
  blit_surf : surface;
  blit_anchor : string;
  blit_loc : float * float;
}.

Definition ANCHORS : list string :=
  ["bottomleft"; "midbottom"; "bottomright"; "topleft"; "midtop"; "topright"].

(** [__surf] is [None] as long as the attribute does not exist. *)
Record t : Type := Text {
  __color : string;
  __value : string;
  __active : bool;
  __loc : float * float;
  __anchor : string;
  __surf : option surface;
}.

Definition get_loc (self : t) : float * float := __loc self.
Definition get_anchor (self : t) : string := __anchor self.
Definition get_value (self : t) : string := __value self.
Definition get_active (self : t) : bool := __active self.

Definition set_loc (loc : float * float) (self : t) : t :=
  {| __color := __color self; __value := __value self;
     __active := __active self; __loc := loc; __anchor := __anchor self;
     __surf := __surf self |}.

Definition set_anchor (anchor : string) (self : t) : result t :=
  if decide (anchor ∈ ANCHORS) then
    Ok {| __color := __color self; __value := __value self;
          __active := __active self; __loc := __loc self; __anchor := anchor;
          __surf := __surf self |}
  else Raise ValueError.

Definition set_value (value : string) (self : t) : t :=
  if decide (__value self ≠ value) then
    {| __color := __color self; __value := value;
       __active := __active self; __loc := __loc self;
       __anchor := __anchor self;
       __surf := Some (Surface value (__color self)) |}
  else self.

Definition set_active (active : bool) (self : t) : t :=
  {| __color := __color self; __value := __value self;
     __active := active; __loc := __loc self; __anchor := __anchor self;
     __surf := __surf self |}.

(** The constructor; [__loc] and [__anchor] are written by their setters
    before anything reads them. *)
Definition __init__ (loc : float * float) (value color anchor : string)
  : result t :=
  let self :=
    {| __color := color; __value := ""; __active := true;
       __loc := loc; __anchor := ""; __surf := None |} in
  let self := set_loc loc self in
  self ← set_anchor anchor self;
  Ok (set_value value self).

(** [draw]: the blits made on the screen, one [if] per anchor in the
    order of the source; reading [__surf] before it exists raises
    [AttributeError]. *)
Definition draw (self : t) : result (list blit) :=
  if __active self then
    for_each
      (λ blits anchor,
         if decide (get_anchor self = anchor) then
           surf ← or_raise AttributeError (__surf self);
           Ok (blits ++ [Blit surf anchor (get_loc self)])
         else Ok blits)
      ["bottomleft"; "midbottom"; "bottomright";
       "topleft"; "midtop"; "topright"] []
  else Ok [].

(** The cached surface of a text box: absent while the value is empty and
    was never anything else, and otherwise the rendering of the value. *)
Definition cached (color : string) (self : t) : Prop :=
  __color self = color
  ∧ __anchor self ∈ ANCHORS
  ∧ match __surf self with
    | None => __value self = ""
    | Some surf => surf = Surface (__value self) color
    end.

End Text.

(** ** [cell.py] and [mesh.py] *)

Section Sprites.

Local Open Scope float_scope.

(** [Cell.COLOR_MAP]: matplotlib's colour map [bwr], from a value to the
    four components of a colour. *)
Variable COLOR_MAP : float → list float.

(** A [Cell]: the fill of its image is [None] on a surface that was
    never filled. *)
Record cell : Type := Cell {
  cell_width : float;
  cell_height : float;
  cell_loc : float * float;
  cell_value : float;
  cell_color : option (list Z);
  cell_fill : option (list Z);
}.

(** [Cell.update] *)
Definition cell_update (value : float) (self : cell) : result cell :=
  if negb (cell_value self =? value) then
    color ← mapM (λ i, Py.int (255 * i)) (COLOR_MAP value);
    Ok {| cell_width := cell_width self; cell_height := cell_height self;
          cell_loc := cell_loc self; cell_value := value;
          cell_color := Some color; cell_fill := Some color |}
  else Ok self.

(** [Cell(loc, width, height, value)] *)
Definition cell_init (loc : float * float) (width height value : float)
  : result cell :=
  cell_update value
    {| cell_width := width; cell_height := height; cell_loc := loc;
       cell_value := value; cell_color := None; cell_fill := None |}.

(** [Mesh.update]: the sprites of the group in the order they were
    added. *)
Fixpoint mesh_update_from (i : nat) (values : list float) (sprites : list cell)
  : result (list cell) :=
  match sprites with
  | [] => Ok []
  | sprite :: rest =>
      value ← or_raise IndexError (values !! i);
      sprite' ← cell_update value sprite;
      rest' ← mesh_update_from (S i) values rest;
      Ok (sprite' :: rest')
  end.

Definition mesh_update (values : list float) (sprites : list cell)
  : result (list cell) :=
  mesh_update_from 0 values sprites.

End Sprites.

(** The sprite of column [i] and row [j] as [Animation.__init__] creates
    it: not painted yet, with the default value [1.0]. *)
Definition new_sprite (x0 y0 box_width : float) (i j : nat) : cell :=
  {| cell_width := box_width + 1; cell_height := box_width + 1;
     cell_loc := (x0 + Conv.of_nat i * box_width,
                  y0 + Conv.of_nat j * box_width)%float;
     cell_value := 1; cell_color := None; cell_fill := None |}%float.

(** ** [animation.py] *)

Module Viewer.

Local Open Scope float_scope.

(** [np.maximum] and [np.minimum] on two numbers; a [nan] wins. *)
Definition maximum (a b : float) : float :=
  if (b <=? a) || PrimFloat.is_nan a then a else b.

Definition minimum (a b : float) : float :=
  if (a <=? b) || PrimFloat.is_nan a then a else b.

(** [a.max()] and [a.min()] over the elements of an array; [ValueError]
    on an array without elements.  numpy fixes no order for the
    reduction: the order changes at most the sign of a zero result. *)
Definition amax (a : list float) : result float :=
  match a with
  | [] => Raise ValueError
  | x :: a' => Ok (foldl maximum x a')
  end.

Definition amin (a : list float) : result float :=
  match a with
  | [] => Raise ValueError
  | x :: a' => Ok (foldl minimum x a')
  end.

(** [a.flatten()] of a two- and of a three-dimensional array. *)
Definition flatten (a : Np.grid) : list float := concat a.

Definition flatten3 (a : list Np.grid) : list float := concat (concat a).

(** [a.T] of a two-dimensional array. *)
Definition transpose (a : Np.grid) : Np.grid :=
  let '(_, nx) := Np.shape a in
  map (λ j, omap (λ r : list float, r !! j) a) (seq 0 nx).

(** Lines 39-42: the normalisation of the data. *)
Definition normalization_target (data : list Np.grid) : result float :=
  hi ← amax (flatten3 data);
  lo ← amin (flatten3 data);
  amax [PrimFloat.abs hi; PrimFloat.abs lo].

Definition normalized (target x : float) : float :=
  ((x + target) / (target + target)) * 5 - (5 / 2 - 0.5).

Definition normalize (data : list Np.grid) : result (list Np.grid) :=
  target ← normalization_target data;
  Ok (map (Np.maps (normalized target)) data).

(** The events of [pygame.event.get()]: the type, and the key of a
    [KEYDOWN]. *)
Inductive key : Type := K_ESCAPE | K_p | K_r | K_d | K_other.

Inductive event : Type := QUIT | KEYDOWN (k : key) | OTHER.

Section Animation.

(** The settings of [configs/global.yml] that the viewer reads. *)
Variable ANIMATION_STARTUP_RUN_STATE : bool.
Variable ANIMATION_STARTUP_DEBUG_STATE : bool.
Variables SCREEN_WIDTH SCREEN_HEIGHT TIME_BAR_HEIGHT : Z.
Variables BORDER_SPACE_FRAC TEXT_START_FRAC : float.
Variable INDICATORS_COLOR : string.

(** [Cell.COLOR_MAP]. *)
Variable COLOR_MAP : float → list float.

(** The format specifications [:.2f] and [:.1f] on a float. *)
Variables fmt2 fmt1 : float → string.

Record animation : Type := Animation {
  running : bool;
  debugging : bool;
  data : list Np.grid;
  time : list float;
  max_time : float;
  idx : nat;
  ny : nat;
  nx : nat;
  box_width : float;
  x0 : float;
  y0 : float;
  mesh : list cell;
  time_bar : IndicatorBar.t;
  time_text : Text.t;
  pause_text : Text.t;
}.

Definition with_control (running' debugging' : bool) (idx' : nat)
    (pause_text' : Text.t) (self : animation) : animation :=
  {| running := running'; debugging := debugging'; data := data self;
     time := time self; max_time := max_time self; idx := idx';
     ny := ny self; nx := nx self; box_width := box_width self;
     x0 := x0 self; y0 := y0 self; mesh := mesh self;
     time_bar := time_bar self; time_text := time_text self;
     pause_text := pause_text' |}.

Definition with_widgets (mesh' : list cell) (time_bar' : IndicatorBar.t)
    (time_text' : Text.t) (self : animation) : animation :=
  {| running := running self; debugging := debugging self;
     data := data self; time := time self; max_time := max_time self;
     idx := idx self; ny := ny self; nx := nx self;
     box_width := box_width self; x0 := x0 self; y0 := y0 self;
     mesh := mesh'; time_bar := time_bar'; time_text := time_text';
     pause_text := pause_text self |}.

(** Lines 68-77: the sprites, column by column. *)
Definition create_sprites (nx ny : nat) (x0 y0 box_width : float)
  : result (list cell) :=
  for_each
    (λ mesh i,
       for_each
         (λ mesh j,
            sprite ← cell_init COLOR_MAP
              (x0 + Conv.of_nat i * box_width, y0 + Conv.of_nat j * box_width)
              (box_width + 1) (box_width + 1) 1;
            Ok (mesh ++ [sprite]))
         (seq 0 ny) mesh)
    (seq 0 nx) [].

(** The literal [0.05]: the binary64 number nearest to it. *)
Definition one_twentieth : float := 0x1.999999999999ap-5.

(** [Animation.__init__] *)
Definition __init__ (data : list Np.grid) (time : list float)
  : result animation :=
  max_time ← or_raise IndexError (Np.item time (-1));
  data ← normalize data;
  frame0 ← or_raise IndexError (data !! 0%nat);
  let '(ny, nx) := Np.shape frame0 in
  let box_width :=
    minimum
      (Conv.of_Z SCREEN_WIDTH * (1 - 2 * BORDER_SPACE_FRAC) / Conv.of_nat nx)
      (Conv.of_Z SCREEN_HEIGHT * (1 - 2 * BORDER_SPACE_FRAC) / Conv.of_nat ny)
  in
  let x0 := (Conv.of_Z SCREEN_WIDTH - box_width * Conv.of_nat nx) / 2 in
  let y0 := (Conv.of_Z SCREEN_HEIGHT - box_width * Conv.of_nat ny) / 2 in
  mesh ← create_sprites nx ny x0 y0 box_width;
  mesh ← mesh_update COLOR_MAP (flatten (transpose frame0)) mesh;
  time_bar ← IndicatorBar.__init__
    0 (SCREEN_HEIGHT - TIME_BAR_HEIGHT) SCREEN_WIDTH TIME_BAR_HEIGHT
    INDICATORS_COLOR "horizontal";
  let ind_x0 := TEXT_START_FRAC * Conv.of_Z SCREEN_WIDTH in
  time0 ← or_raise IndexError (time !! 0%nat);
  time_text ← Text.__init__
    (ind_x0, Conv.of_Z SCREEN_HEIGHT - 1 * ind_x0)
    (fmt2 time0) INDICATORS_COLOR "bottomleft";
  pause_text ← Text.__init__
    (Conv.of_Z SCREEN_WIDTH - one_twentieth * Conv.of_Z SCREEN_HEIGHT,
     one_twentieth * Conv.of_Z SCREEN_HEIGHT)
    "Paused" INDICATORS_COLOR "topright";
  Ok {| running := ANIMATION_STARTUP_RUN_STATE;
        debugging := ANIMATION_STARTUP_DEBUG_STATE;
        data := data; time := time; max_time := max_time; idx := 0;
        ny := ny; nx := nx; box_width := box_width; x0 := x0; y0 := y0;
        mesh := mesh; time_bar := time_bar; time_text := time_text;
        pause_text := pause_text |}.

(** [_quit]: [sys.exit()] raises [SystemExit]. *)
Definition _quit : result animation := Raise SystemExit.

Definition _switch_pause (self : animation) : animation :=
  with_control (negb (running self)) (debugging self) (idx self)
    (Text.set_active (negb (Text.get_active (pause_text self)))
       (pause_text self))
    self.

Definition _reset_animation (self : animation) : animation :=
  let self :=
    with_control (running self) (debugging self) 0 (pause_text self) self in
  if running self then _switch_pause self else self.

(** The body of the loop of [_check_events], for one event. *)
Definition handle_event (self : animation) (e : event) : result animation :=
  self ← (match e with QUIT => _quit | _ => Ok self end);
  self ← (match e with KEYDOWN K_ESCAPE => _quit | _ => Ok self end);
  let self :=
    match e with KEYDOWN K_p => _switch_pause self | _ => self end in
  let self :=
    match e with KEYDOWN K_r => _reset_animation self | _ => self end in
  Ok (match e with
      | KEYDOWN K_d =>
          with_control (running self) (negb (debugging self)) (idx self)
            (pause_text self) self
      | _ => self
      end).

Definition _check_events (events : list event) (self : animation)
  : result animation :=
  for_each handle_event events self.

(** One turn of the loop of [run], on the events that
    [pygame.event.get()] returns in it.  The drawing calls that cannot
    raise and change no attribute are left out. *)
Definition frame (self : animation) (events : list event) : result animation :=
  self ← _check_events events self;
  let self :=
    if decide (length (data self) ≤ idx self) then _reset_animation self
    else self in
  snapshot ← or_raise IndexError (data self !! idx self);
  mesh ← mesh_update COLOR_MAP (flatten (transpose snapshot)) (mesh self);
  now ← or_raise IndexError (time self !! idx self);
  time_bar ← IndicatorBar.set_value (now / max_time self) (time_bar self);
  let time_text :=
    Text.set_value ("Time: " +:+ fmt1 now +:+ " s") (time_text self) in
  let self := with_widgets mesh time_bar time_text self in
  _ ← Text.draw (time_text);
  _ ← Text.draw (pause_text self);
  Ok (if running self
      then with_control (running self) (debugging self) (S (idx self))
             (pause_text self) self
      else self).

(** [run], for as many turns of the loop as there are batches of
    events; the loop itself ends with an exception only. *)
Definition run (batches : list (list event)) (self : animation)
  : result animation :=
  for_each frame batches self.

(** [main]: the viewer on a trajectory. *)
Definition main (data : list Np.grid) (time : list float)
    (batches : list (list event)) : result animation :=
  __init__ data time ≫= run batches.

End Animation.

End Viewer.

(** ** What the loop of the viewer keeps *)

(** The events on which the viewer exits. *)
Definition is_quit (e : Viewer.event) : Prop :=
  e = Viewer.QUIT ∨ e = Viewer.KEYDOWN Viewer.K_ESCAPE.

(** The state in which a turn of the loop shows a snapshot: rewound when
    the counter has passed the last one. *)
Definition rewound (self : Viewer.animation) : Viewer.animation :=
  if decide (length (Viewer.data self) ≤ Viewer.idx self)
  then Viewer._reset_animation self
  else self.

(** The end of a turn of the loop: the counter moves on while running. *)
Definition advanced (self : Viewer.animation) : Viewer.animation :=
  if Viewer.running self
  then Viewer.with_control (Viewer.running self) (Viewer.debugging self)
         (S (Viewer.idx self)) (Viewer.pause_text self) self
  else self.

(** What the events and the rewinding leave alone. *)
Definition same_trajectory (self self' : Viewer.animation) : Prop :=
  Viewer.data self' = Viewer.data self
  ∧ Viewer.time self' = Viewer.time self
  ∧ Viewer.max_time self' = Viewer.max_time self
  ∧ Viewer.time_bar self' = Viewer.time_bar self.

(** The label [Paused] is shown in the run state opposite to the one the
    viewer starts in. *)
Definition labelled (startup_run_state : bool) (self : Viewer.animation) : Prop :=
  Text.get_active (Viewer.pause_text self)
  = (if startup_run_state then Viewer.running self
     else negb (Viewer.running self)).

(** What every turn of the loop keeps of a viewer of [n] snapshots of
    [ny] rows and [nx] columns. *)
Record consistent (startup_run_state : bool) (color : string)
    (ny nx n : nat) (self : Viewer.animation) : Prop := Consistent {
  consistent_label :
    Text.__active (Viewer.pause_text self)
    = (if startup_run_state then Viewer.running self
       else negb (Viewer.running self));
  consistent_pause_text : Text.cached color (Viewer.pause_text self);
  consistent_pause_surf : Text.__surf (Viewer.pause_text self) ≠ None;
  consistent_time_text : Text.cached color (Viewer.time_text self);
  consistent_data : length (Viewer.data self) = n;
  consistent_time : length (Viewer.time self) = n;
  consistent_shape : Forall (Np.has_shape ny nx) (Viewer.data self);
  consistent_mesh : length (Viewer.mesh self) = nx * ny;
  consistent_idx : Viewer.idx self ≤ n;
  consistent_frames : 0 < n;
  consistent_rows : 0 < ny;
}.

(** ** Sample settings *)

(** A colour map of two tones: red above one half, blue below. *)
Definition two_tones (value : float) : list float :=
  if (0.5 <? value)%float then [1; 0; 0; 1]%float else [0; 0; 1; 1]%float.

(** A format that prints no digit of the number. *)
Definition no_digits (x : float) : string := "#".

(** A viewer of 800 x 600 pixels that starts running, or paused, on a
    trajectory of two snapshots of 2 x 2 particles. *)
Module Sample.

Definition data : list Np.grid :=
  [[[0; 0.5]; [-0.5; 0]]; [[0; 0.25]; [-0.25; 0]]]%float.

Definition time : list float := [0; 0.5]%float.

Abbreviation main startup_run_state data time batches :=
  (Viewer.main startup_run_state false 800 600 10 0.125 0.03125 "white"
     two_tones no_digits no_digits data time batches).

End Sample.

(** ** Sequences of calls on a widget *)

(** The setters of a [Text]. *)
Inductive text_call : Type :=
  | Set_loc (loc : float * float)
  | Set_anchor (anchor : string)
  | Set_value (value : string)
  | Set_active (active : bool).

Definition text_do (self : Text.t) (c : text_call) : result Text.t :=
  match c with
  | Set_loc loc => Ok (Text.set_loc loc self)
  | Set_anchor anchor => Text.set_anchor anchor self
  | Set_value value => Ok (Text.set_value value self)
  | Set_active active => Ok (Text.set_active active self)
  end.

(** The values that a sequence of calls sets. *)
Definition values_set (calls : list text_call) : list string :=
  omap (λ c, match c with Set_value v => Some v | _ => None end) calls.

(** ** Array lemmas *)

Module NpFacts.
Import Np.

Lemma foldM_app {A B : Type} (f : B → A → option B) (l1 l2 : list A) (b : B) :
  foldM f (l1 ++ l2) b = foldM f l1 b ≫= foldM f l2.
Proof.
  revert b. induction l1 as [|x l1 IH]; intros b; simpl; [done|].
  destruct (f b x); simpl; [apply IH | done].
Qed.

Lemma index_in_range (n : nat) (i : Z) :
  (0 ≤ i < Z.of_nat n)%Z → index n i = Some (Z.to_nat i).
Proof. intros H. unfold index. by rewrite decide_True. Qed.

Lemma index_of_nat (n i : nat) : i < n → index n (Z.of_nat i) = Some i.
Proof.
  intros H. rewrite index_in_range by lia. by rewrite Nat2Z.id.
Qed.

Lemma index_is_Some (n : nat) (i : Z) (k : nat) :
  index n i = Some k → k < n.
Proof.
  unfold index. repeat case_decide; intros [= <-]; lia.
Qed.

Lemma has_shape_row {A : Type} ny nx (a : list (list A)) i r :
  has_shape ny nx a → a !! i = Some r → length r = nx.
Proof.
  intros [_ Hall] Hi. by eapply (Forall_lookup_1 _ _ _ _ Hall Hi).
Qed.

Lemma has_shape_zeros ny nx : has_shape ny nx (zeros ny nx).
Proof.
  split; [apply length_replicate|].
  apply Forall_replicate, length_replicate.
Qed.

Lemma shape_has_shape {A : Type} ny nx (a : list (list A)) :
  has_shape ny nx a → ny ≠ 0 → shape a = (ny, nx).
Proof.
  intros [Hlen Hall] Hny. unfold shape. destruct a as [|r a]; simpl in *.
  - congruence.
  - f_equal; [done|]. by inversion Hall.
Qed.

Lemma cell_is_Some {A : Type} ny nx (a : list (list A)) i j :
  has_shape ny nx a → i < ny → j < nx → is_Some (cell a i j).
Proof.
  intros Ha Hi Hj. unfold cell.
  destruct (lookup_lt_is_Some_2 a i) as [r Hr]; [destruct Ha; lia|].
  rewrite Hr. simpl. apply lookup_lt_is_Some_2.
  by rewrite (has_shape_row _ _ _ _ _ Ha Hr).
Qed.

Lemma cell_Some_lt {A : Type} ny nx (a : list (list A)) i j x :
  has_shape ny nx a → cell a i j = Some x → i < ny ∧ j < nx.
Proof.
  intros Ha Hc. unfold cell in Hc.
  destruct (a !! i) as [r|] eqn:Hr; [|done]. simpl in Hc.
  pose proof (has_shape_row _ _ _ _ _ Ha Hr) as Hlen.
  apply lookup_lt_Some in Hr. apply lookup_lt_Some in Hc.
  destruct Ha as [Hl _]. lia.
Qed.

Lemma cell_None_row {A : Type} ny nx (a : list (list A)) i j :
  has_shape ny nx a → ny ≤ i → cell a i j = None.
Proof.
  intros [Hlen _] Hi. unfold cell. rewrite lookup_ge_None_2; [done|lia].
Qed.

Lemma cell_zeros ny nx i j :
  i < ny → j < nx → cell (zeros ny nx) i j = Some 0%float.
Proof.
  intros Hi Hj. unfold cell, zeros.
  rewrite lookup_replicate_2 by done. simpl. by rewrite lookup_replicate_2.
Qed.

Lemma item2_cell {A : Type} ny nx (a : list (list A)) (i j : Z) :
  has_shape ny nx a →
  (0 ≤ i < Z.of_nat ny)%Z → (0 ≤ j < Z.of_nat nx)%Z →
  item2 a i j = cell a (Z.to_nat i) (Z.to_nat j).
Proof.
  intros Ha Hi Hj. unfold item2, item, cell.
  rewrite index_in_range by (destruct Ha; lia). simpl.
  destruct (a !! Z.to_nat i) as [r|] eqn:Hr; simpl; [|done].
  rewrite index_in_range; [done|].
  by rewrite (has_shape_row _ _ _ _ _ Ha Hr).
Qed.

(** [a[i, j] += v] succeeds inside the array, keeps its shape and changes
    the cell [(i, j)] only. *)
Lemma add_at_spec ny nx (a : grid) (i j : nat) (v : float) :
  has_shape ny nx a → i < ny → j < nx →
  ∃ a', add_at a (Z.of_nat i) (Z.of_nat j) v = Some a'
    ∧ has_shape ny nx a'
    ∧ cell a' i j = (λ x, (x + v)%float) <$> cell a i j
    ∧ ∀ i' j', (i', j') ≠ (i, j) → cell a' i' j' = cell a i' j'.
Proof.
  intros Ha Hi Hj. unfold add_at.
  rewrite index_of_nat by (destruct Ha; lia). simpl.
  destruct (lookup_lt_is_Some_2 a i) as [r Hr]; [destruct Ha; lia|].
  rewrite Hr. simpl.
  pose proof (has_shape_row _ _ _ _ _ Ha Hr) as Hlen.
  rewrite index_of_nat by lia. simpl.
  destruct (lookup_lt_is_Some_2 r j) as [x Hx]; [lia|].
  rewrite Hx. simpl. eexists. split; [done|]. split; [|split].
  - destruct Ha as [Hl Hall]. split; [by rewrite length_insert|].
    apply Forall_insert; [done|]. by rewrite length_insert.
  - unfold cell. rewrite list_lookup_insert_eq by (destruct Ha; lia).
    rewrite Hr. simpl. rewrite list_lookup_insert_eq by lia. by rewrite Hx.
  - intros i' j' Hne. unfold cell.
    destruct (decide (i' = i)) as [->|Hi'].
    + rewrite list_lookup_insert_eq by (destruct Ha; lia). rewrite Hr. simpl.
      rewrite list_lookup_insert_ne; [done|]. congruence.
    + by rewrite list_lookup_insert_ne.
Qed.

End NpFacts.

(** ** The force stencil *)

Section ForcesFacts.
Import Np NpFacts.

Variables (k L0 d : float).

Local Abbreviation sf := (spring_force k L0 d).
Local Abbreviation stencil := (stencil k L0 d).

Lemma visit_spec ny nx (pos forces : grid) (i j : nat) (dx dy : Z) :
  has_shape ny nx pos → has_shape ny nx forces →
  i < ny → j < nx →
  (0 ≤ Z.of_nat i + dx < Z.of_nat ny)%Z →
  (0 ≤ Z.of_nat j + dy < Z.of_nat nx)%Z →
  ∃ p q forces',
    cell pos i j = Some p
    ∧ cell pos (Z.to_nat (Z.of_nat i + dx)) (Z.to_nat (Z.of_nat j + dy)) = Some q
    ∧ visit k L0 d pos i j forces (dx, dy) = Some forces'
    ∧ has_shape ny nx forces'
    ∧ cell forces' i j = (λ x, (x + sf p q)%float) <$> cell forces i j
    ∧ ∀ i' j', (i', j') ≠ (i, j) → cell forces' i' j' = cell forces i' j'.
Proof.
  intros Hpos Hf Hi Hj Hdx Hdy.
  destruct (cell_is_Some ny nx pos i j) as [p Hp]; [done..|].
  destruct (cell_is_Some ny nx pos (Z.to_nat (Z.of_nat i + dx))
              (Z.to_nat (Z.of_nat j + dy))) as [q Hq]; [done|lia|lia|].
  destruct (add_at_spec ny nx forces i j (sf p q)) as (f' & Hadd & Hsh & Hc & Ho);
    [done..|].
  exists p, q, f'. split; [done|]. split; [done|]. split; [|done].
  unfold visit.
  rewrite (item2_cell ny nx pos (Z.of_nat i) (Z.of_nat j)) by (done || lia).
  rewrite !Nat2Z.id, Hp. simpl.
  rewrite (item2_cell ny nx) by (done || lia).
  rewrite Hq. simpl. done.
Qed.

(** The four visits of one interior cell. *)
Lemma visit_all_spec ny nx (pos forces : grid) (i j : nat) :
  has_shape ny nx pos → has_shape ny nx forces →
  is_interior ny nx i j →
  ∃ forces',
    foldM (visit k L0 d pos i j) displacements forces = Some forces'
    ∧ has_shape ny nx forces'
    ∧ cell forces' i j = cell forces i j ≫= stencil pos i j
    ∧ ∀ i' j', (i', j') ≠ (i, j) → cell forces' i' j' = cell forces i' j'.
Proof.
  intros Hpos Hf (Hi1 & Hi2 & Hj1 & Hj2).
  destruct (cell_is_Some ny nx forces i j) as [x Hx]; [done|lia|lia|].
  unfold displacements. cbn [foldM].
  destruct (visit_spec ny nx pos forces i j 0 (-1))
    as (p & q1 & f1 & Hp & Hq1 & -> & Hs1 & Hc1 & Ho1); [done|done|lia..|].
  destruct (visit_spec ny nx pos f1 i j (-1) 0)
    as (p2 & q2 & f2 & Hp2 & Hq2 & -> & Hs2 & Hc2 & Ho2); [done|done|lia..|].
  destruct (visit_spec ny nx pos f2 i j 0 1)
    as (p3 & q3 & f3 & Hp3 & Hq3 & -> & Hs3 & Hc3 & Ho3); [done|done|lia..|].
  destruct (visit_spec ny nx pos f3 i j 1 0)
    as (p4 & q4 & f4 & Hp4 & Hq4 & -> & Hs4 & Hc4 & Ho4); [done|done|lia..|].
  assert (p2 = p) as -> by congruence.
  assert (p3 = p) as -> by congruence.
  assert (p4 = p) as -> by congruence.
  exists f4. split; [done|]. split; [done|]. split.
  - rewrite Hc4, Hc3, Hc2, Hc1, Hx. simpl. unfold stencil.
    rewrite Hp. simpl.
    replace (Z.to_nat (Z.of_nat i + 0)) with i in * by lia.
    replace (Z.to_nat (Z.of_nat j + 0)) with j in * by lia.
    replace (Z.to_nat (Z.of_nat j + -1)) with (j - 1)%nat in * by lia.
    replace (Z.to_nat (Z.of_nat i + -1)) with (i - 1)%nat in * by lia.
    replace (Z.to_nat (Z.of_nat j + 1)) with (j + 1)%nat in * by lia.
    replace (Z.to_nat (Z.of_nat i + 1)) with (i + 1)%nat in * by lia.
    rewrite Hq1, Hq2, Hq3, Hq4. done.
  - intros i' j' Hne. by rewrite Ho4, Ho3, Ho2, Ho1.
Qed.

(** The loop over the columns [j0 .. j0+m-1] of the interior row [i]. *)
Lemma row_loop_spec ny nx (pos : grid) (i : nat) (m j0 : nat) (forces : grid) :
  has_shape ny nx pos → has_shape ny nx forces →
  1 ≤ i → i + 1 < ny → 1 ≤ j0 → j0 + m + 1 ≤ nx →
  ∃ forces',
    foldM (λ forces j, foldM (visit k L0 d pos i j) displacements forces)
          (seq j0 m) forces = Some forces'
    ∧ has_shape ny nx forces'
    ∧ (∀ j, j0 ≤ j < j0 + m →
         cell forces' i j = cell forces i j ≫= stencil pos i j)
    ∧ ∀ i' j', ¬ (i' = i ∧ j0 ≤ j' < j0 + m) →
         cell forces' i' j' = cell forces i' j'.
Proof.
  intros Hpos. revert j0 forces.
  induction m as [|m IH]; intros j0 forces Hf Hi1 Hi2 Hj1 Hj2;
    cbn [seq foldM].
  - exists forces. split; [done|]. split; [done|]. split; [intros; lia|done].
  - destruct (visit_all_spec ny nx pos forces i j0)
      as (f1 & -> & Hs1 & Hc1 & Ho1); [done|done|unfold is_interior; lia|].
    destruct (IH (S j0) f1) as (f2 & -> & Hs2 & Hc2 & Ho2); [done|lia..|].
    exists f2. split; [done|]. split; [done|]. split.
    + intros j Hj. destruct (decide (j = j0)) as [->|Hne].
      * rewrite Ho2 by lia. done.
      * rewrite Hc2 by lia. rewrite Ho1; [done|]. congruence.
    + intros i' j' Hn. rewrite Ho2 by lia. apply Ho1.
      intros [= -> ->]. lia.
Qed.

(** The loop over the interior rows [i0 .. i0+m-1]. *)
Lemma mesh_loop_spec ny nx (pos : grid) (m i0 : nat) (forces : grid) :
  has_shape ny nx pos → has_shape ny nx forces →
  1 ≤ i0 → i0 + m + 1 ≤ ny →
  ∃ forces',
    foldM (λ forces i,
      foldM (λ forces j, foldM (visit k L0 d pos i j) displacements forces)
            (interior nx) forces)
      (seq i0 m) forces = Some forces'
    ∧ has_shape ny nx forces'
    ∧ (∀ i j, i0 ≤ i < i0 + m → 1 ≤ j → j + 1 < nx →
         cell forces' i j = cell forces i j ≫= stencil pos i j)
    ∧ ∀ i j, ¬ (i0 ≤ i < i0 + m ∧ 1 ≤ j ∧ j + 1 < nx) →
         cell forces' i j = cell forces i j.
Proof.
  intros Hpos. revert i0 forces.
  induction m as [|m IH]; intros i0 forces Hf Hi1 Hi2;
    cbn [seq foldM].
  - exists forces. split; [done|]. split; [done|]. split; [intros; lia|done].
  - assert (∃ f1,
      foldM (λ forces j, foldM (visit k L0 d pos i0 j) displacements forces)
            (interior nx) forces = Some f1
      ∧ has_shape ny nx f1
      ∧ (∀ j, 1 ≤ j → j + 1 < nx →
           cell f1 i0 j = cell forces i0 j ≫= stencil pos i0 j)
      ∧ ∀ i' j', ¬ (i' = i0 ∧ 1 ≤ j' ∧ j' + 1 < nx) →
           cell f1 i' j' = cell forces i' j')
      as (f1 & -> & Hs1 & Hc1 & Ho1).
    { unfold interior. destruct (decide (2 ≤ nx)) as [Hnx|Hnx].
      - destruct (row_loop_spec ny nx pos i0 (nx - 2) 1 forces)
          as (f1 & Hrun & Hs1 & Hc1 & Ho1); [done|done|lia..|].
        exists f1. split; [done|]. split; [done|]. split.
        + intros j ? ?. apply Hc1. lia.
        + intros i' j' ?. apply Ho1. lia.
      - replace (nx - 2) with 0 by lia. exists forces.
        split; [done|]. split; [done|]. split; [intros; lia|done]. }
    destruct (IH (S i0) f1) as (f2 & -> & Hs2 & Hc2 & Ho2); [done|lia..|].
    exists f2. split; [done|]. split; [done|]. split.
    + intros i j Hi Hj1 Hj2. destruct (decide (i = i0)) as [->|Hne].
      * rewrite Ho2 by lia. by apply Hc1.
      * rewrite Hc2 by lia. rewrite Ho1; [done|]. lia.
    + intros i j Hn. rewrite Ho2 by lia. apply Ho1. lia.
Qed.

(** [_calculate_forces] returns, on every rectangular grid, a grid of the
    same shape holding the stencil sum at the interior cells and [0] at
    the border. *)
Lemma calculate_forces_spec ny nx (pos : grid) :
  has_shape ny nx pos →
  ∃ forces,
    _calculate_forces k L0 d pos = Some forces
    ∧ has_shape ny nx forces
    ∧ ∀ i j, i < ny → j < nx →
        cell forces i j =
          if decide (is_interior ny nx i j) then stencil pos i j 0%float
          else Some 0%float.
Proof.
  intros Hpos. unfold _calculate_forces.
  destruct (decide (ny = 0)) as [->|Hny].
  - destruct Hpos as [Hlen _]. apply nil_length_inv in Hlen as ->. simpl.
    exists []. split; [done|]. split; [by split|]. intros; lia.
  - rewrite (shape_has_shape ny nx) by done.
    destruct (decide (2 ≤ ny)) as [Hny2|Hny2].
    + destruct (mesh_loop_spec ny nx pos (ny - 2) 1 (zeros ny nx))
        as (f & Hrun & Hs & Hc & Ho); [done|apply has_shape_zeros|lia..|].
      unfold interior at 2. rewrite Hrun.
      exists f. split; [done|]. split; [done|].
      intros i j Hi Hj. case_decide as Hint.
      * destruct Hint as (? & ? & ? & ?).
        rewrite Hc by lia. by rewrite cell_zeros.
      * rewrite Ho by (unfold is_interior in Hint; lia). by apply cell_zeros.
    + unfold interior at 2. replace (ny - 2) with 0 by lia. cbn [seq foldM].
      exists (zeros ny nx). split; [done|]. split; [apply has_shape_zeros|].
      intros i j Hi Hj. rewrite decide_False by (unfold is_interior; lia).
      by apply cell_zeros.
Qed.

End ForcesFacts.


(** ** Element-wise operations and the static mask *)

Module GridFacts.
Import Np NpFacts.

Lemma has_shape_zip_with {A B C : Type} (f : A → B → C) ny nx
    (a : list (list A)) (b : list (list B)) :
  has_shape ny nx a → has_shape ny nx b →
  has_shape ny nx (zip_with (zip_with f) a b).
Proof.
  intros [Hla Ha] [Hlb Hb]. split.
  - rewrite length_zip_with. lia.
  - apply Forall_forall. intros r Hr.
    apply list_elem_of_lookup in Hr as [i Hr].
    rewrite lookup_zip_with in Hr.
    destruct (a !! i) as [ra|] eqn:Hra; [|done].
    destruct (b !! i) as [rb|] eqn:Hrb; [|done].
    simpl in Hr. injection Hr as <-.
    rewrite length_zip_with.
    rewrite (Forall_lookup_1 _ _ _ _ Ha Hra), (Forall_lookup_1 _ _ _ _ Hb Hrb).
    lia.
Qed.

Lemma cell_zip_with {A B C : Type} (f : A → B → C)
    (a : list (list A)) (b : list (list B)) i j :
  cell (zip_with (zip_with f) a b) i j =
    x ← cell a i j; y ← cell b i j; Some (f x y).
Proof.
  unfold cell. rewrite lookup_zip_with.
  destruct (a !! i) as [ra|]; [|done]. simpl.
  destruct (b !! i) as [rb|]; simpl.
  - rewrite lookup_zip_with. done.
  - by destruct (ra !! j).
Qed.

Lemma has_shape_maps (f : float → float) ny nx (a : grid) :
  has_shape ny nx a → has_shape ny nx (maps f a).
Proof.
  intros [Hl Ha]. unfold maps. split; [by rewrite length_map|]. apply Forall_forall. intros r Hr.
  apply list_elem_of_fmap in Hr as (r0 & -> & Hr0).
  rewrite length_map. by eapply (proj1 (Forall_forall _ _) Ha).
Qed.

Lemma cell_maps (f : float → float) (a : grid) i j :
  cell (maps f a) i j = f <$> cell a i j.
Proof.
  unfold cell, maps. rewrite list_lookup_fmap.
  destruct (a !! i) as [r|]; [|done]. simpl. by rewrite list_lookup_fmap.
Qed.

(** Two arrays of one shape with the same cells are equal. *)
Lemma grid_ext {A : Type} ny nx (a b : list (list A)) :
  has_shape ny nx a → has_shape ny nx b →
  (∀ i j, i < ny → j < nx → cell a i j = cell b i j) → a = b.
Proof.
  intros Ha Hb Hcell. apply list_eq. intros i.
  destruct (decide (i < ny)) as [Hi|Hi].
  - destruct (lookup_lt_is_Some_2 a i) as [ra Hra]; [destruct Ha; lia|].
    destruct (lookup_lt_is_Some_2 b i) as [rb Hrb]; [destruct Hb; lia|].
    rewrite Hra, Hrb. f_equal. apply list_eq. intros j.
    pose proof (has_shape_row _ _ _ _ _ Ha Hra) as Hlra.
    pose proof (has_shape_row _ _ _ _ _ Hb Hrb) as Hlrb.
    destruct (decide (j < nx)) as [Hj|Hj].
    + specialize (Hcell i j Hi Hj). unfold cell in Hcell.
      by rewrite Hra, Hrb in Hcell.
    + rewrite !lookup_ge_None_2; [done|lia..].
  - destruct Ha, Hb. rewrite !lookup_ge_None_2; [done|lia..].
Qed.

Lemma zip_with_idem {A B : Type} (f : A → B → B) (ts : list A) (xs : list B) :
  (∀ t x, f t (f t x) = f t x) →
  zip_with f ts (zip_with f ts xs) = zip_with f ts xs.
Proof.
  intros Hf. revert xs. induction ts as [|t ts IH]; intros [|x xs]; simpl;
    [done..|]. by rewrite Hf, IH.
Qed.

Section Mask.

Variable particle_types : list (list Z).

Local Abbreviation pin := (pin_static particle_types).

Lemma pin_static_idem (a : grid) : pin (pin a) = pin a.
Proof.
  unfold pin_static. apply zip_with_idem. intros t r.
  apply zip_with_idem. intros z x. by case_decide.
Qed.

Lemma has_shape_pin_static ny nx (a : grid) :
  has_shape ny nx particle_types → has_shape ny nx a →
  has_shape ny nx (pin a).
Proof. apply has_shape_zip_with. Qed.

Lemma cell_pin_static (a : grid) i j :
  cell (pin a) i j =
    t ← cell particle_types i j; x ← cell a i j;
    Some (if decide (t = 0%Z) then 0%float else x).
Proof. apply cell_zip_with. Qed.

Lemma pin_static_zeros ny nx :
  has_shape ny nx particle_types → pin (zeros ny nx) = zeros ny nx.
Proof.
  intros Ht. apply (grid_ext ny nx).
  - apply has_shape_pin_static; [done|apply has_shape_zeros].
  - apply has_shape_zeros.
  - intros i j Hi Hj. rewrite cell_pin_static, cell_zeros by done.
    destruct (cell_is_Some ny nx particle_types i j) as [t ->]; [done..|].
    simpl. by case_decide.
Qed.

(** On a history whose entries are all pinned, writing one entry and
    pinning the whole history pins the entry written and leaves the
    others as they are. *)
Lemma pin_static_all_insert (h : list grid) (s : nat) (g : grid) :
  Forall (λ a, pin a = a) h →
  pin_static_all particle_types (<[s := g]> h) = <[s := pin g]> h.
Proof.
  intros Hh. unfold pin_static_all.
  change (map pin (<[s:=g]> h)) with (pin <$> <[s:=g]> h).
  rewrite list_fmap_insert. f_equal.
  induction Hh as [|a h Ha _ IH]; [done|]. by rewrite fmap_cons, Ha, IH.
Qed.

(** A pinned array holds 0 at every static cell. *)
Lemma pinned_static_cell ny nx (a : grid) i j :
  has_shape ny nx a → pin a = a →
  i < ny → j < nx →
  cell particle_types i j = Some 0%Z → cell a i j = Some 0%float.
Proof.
  intros Ha Hp Hi Hj Ht. rewrite <- Hp, cell_pin_static, Ht. simpl.
  destruct (cell_is_Some ny nx a i j) as [x ->]; done.
Qed.

End Mask.

End GridFacts.

Module Mesh3Facts.
Import Np Mesh3.

Lemma masses_shape : has_shape 3 3 masses.
Proof. split; [reflexivity | repeat constructor]. Defined.

Lemma initial_pos_shape : has_shape 3 3 initial_pos.
Proof. split; [reflexivity | repeat constructor]. Defined.

Lemma particle_types_shape : has_shape 3 3 particle_types.
Proof. split; [reflexivity | repeat constructor]. Defined.

Lemma massless_centre_shape : has_shape 3 3 massless_centre.
Proof. split; [reflexivity | repeat constructor]. Defined.

End Mesh3Facts.

(** When every particle is static, pinning yields the zero array. *)
Lemma pin_static_all_static (particle_types : list (list Z)) ny nx
    (a : Np.grid) :
  Np.has_shape ny nx particle_types → Np.has_shape ny nx a →
  (∀ i j, i < ny → j < nx → Np.cell particle_types i j = Some 0%Z) →
  pin_static particle_types a = Np.zeros ny nx.
Proof.
  intros Ht Ha Hall. apply (GridFacts.grid_ext ny nx).
  - by apply GridFacts.has_shape_pin_static.
  - apply NpFacts.has_shape_zeros.
  - intros i j Hi Hj.
    rewrite GridFacts.cell_pin_static, Hall, NpFacts.cell_zeros by done.
    simpl. destruct (NpFacts.cell_is_Some ny nx a i j) as [x ->]; done.
Qed.

(** ** The integration loop *)

Section IntegratorFacts.
Import Np NpFacts GridFacts.

Variable masses : grid.
Variable initial_pos : grid.
Variable particle_types : list (list Z).
Variables (k L0 d : float).
Variable timestep : float.
Variable n_steps : nat.
Variables (ny nx : nat).

Hypothesis masses_shape : has_shape ny nx masses.
Hypothesis initial_pos_shape : has_shape ny nx initial_pos.
Hypothesis particle_types_shape : has_shape ny nx particle_types.

Local Abbreviation pin := (pin_static particle_types).
Local Abbreviation inv :=
  (integrated masses initial_pos particle_types k L0 d timestep n_steps ny nx).
Local Abbreviation step :=
  (integration_step masses particle_types k L0 d timestep).

Lemma has_shape_acceleration (forces : grid) :
  has_shape ny nx forces → has_shape ny nx (acceleration masses forces).
Proof. intros Hf. by apply has_shape_zip_with. Qed.

Lemma has_shape_advance_pos (p v a : grid) :
  has_shape ny nx p → has_shape ny nx v → has_shape ny nx a →
  has_shape ny nx (advance_pos timestep p v a).
Proof.
  intros Hp Hv Ha. unfold advance_pos, map2.
  repeat (apply has_shape_zip_with || apply has_shape_maps); done.
Qed.

Lemma has_shape_advance_vel (v a b : grid) :
  has_shape ny nx v → has_shape ny nx a → has_shape ny nx b →
  has_shape ny nx (advance_vel timestep v a b).
Proof.
  intros Hv Ha Hb. unfold advance_vel, map2.
  repeat (apply has_shape_zip_with || apply has_shape_maps); done.
Qed.

Lemma zeros_of_shape (a : grid) :
  has_shape ny nx a → zeros (shape a).1 (shape a).2 = zeros ny nx.
Proof.
  intros Ha. destruct (decide (ny = 0)) as [->|Hny].
  - destruct Ha as [Hl _]. apply nil_length_inv in Hl as ->. done.
  - by rewrite (shape_has_shape ny nx).
Qed.

Lemma initial_history_integrated :
  n_steps ≠ 0 →
  ∃ h, initial_history initial_pos particle_types n_steps = Some h ∧ inv 0 h.
Proof using masses_shape initial_pos_shape particle_types_shape.
  intros Hn. unfold initial_history.
  pose proof (zeros_of_shape initial_pos initial_pos_shape) as Hz.
  destruct (shape initial_pos) as [ny' nx']. simpl in Hz. rewrite Hz.
  rewrite decide_False by done. eexists. split; [done|].
  assert (Hpin : Forall (λ a, pin a = a) (replicate n_steps (zeros ny nx))).
  { apply Forall_replicate. by apply pin_static_zeros. }
  rewrite pin_static_all_insert by done.
  constructor; simpl.
  - apply length_replicate.
  - by rewrite length_insert, length_replicate.
  - apply length_replicate.
  - apply Forall_insert; [apply Forall_replicate, has_shape_zeros|].
    by apply has_shape_pin_static.
  - apply Forall_replicate, has_shape_zeros.
  - apply Forall_insert; [done|]. apply pin_static_idem.
  - done.
  - apply lookup_replicate_2. lia.
  - apply list_lookup_insert_eq. rewrite length_replicate. lia.
  - apply lookup_replicate_2. lia.
  - intros s Hs. lia.
Qed.

Lemma integration_step_integrated (m : nat) (h : history) :
  inv m h → S m < n_steps →
  ∃ h', step h (S m) = Some h' ∧ inv (S m) h'.
Proof using masses_shape initial_pos_shape particle_types_shape.
  intros [Hlt Hlp Hlv Hps Hvs Hpp Hvp Ht0 Hp0 Hv0 Hsteps] Hm.
  unfold integration_step. replace (S m - 1) with m by lia.
  destruct (lookup_lt_is_Some_2 (pos h) m) as [p Hp]; [lia|].
  destruct (lookup_lt_is_Some_2 (vel h) m) as [v Hv]; [lia|].
  destruct (lookup_lt_is_Some_2 (time h) m) as [t Ht]; [lia|].
  rewrite Hp, Hv, Ht. simpl.
  pose proof (Forall_lookup_1 _ _ _ _ Hps Hp) as Hpshape.
  pose proof (Forall_lookup_1 _ _ _ _ Hvs Hv) as Hvshape.
  destruct (calculate_forces_spec k L0 d ny nx p Hpshape)
    as (f1 & Hf1 & Hf1shape & _).
  change (forces_of k L0 d p = Some f1) in Hf1. rewrite Hf1. simpl.
  rewrite pin_static_all_insert by done.
  rewrite list_lookup_insert_eq by lia. simpl.
  set (a1 := acceleration masses f1).
  set (p' := pin (advance_pos timestep p v a1)).
  assert (Hp'shape : has_shape ny nx p').
  { apply has_shape_pin_static; [done|].
    apply has_shape_advance_pos; [done..|]. by apply has_shape_acceleration. }
  destruct (calculate_forces_spec k L0 d ny nx p' Hp'shape)
    as (f2 & Hf2 & Hf2shape & _).
  change (forces_of k L0 d p' = Some f2) in Hf2. rewrite Hf2. simpl.
  rewrite pin_static_all_insert by done.
  set (a2 := acceleration masses f2).
  set (v' := pin (advance_vel timestep v a1 a2)).
  eexists. split; [done|].
  constructor; simpl.
  - by rewrite length_insert.
  - by rewrite length_insert.
  - by rewrite length_insert.
  - by apply Forall_insert.
  - apply Forall_insert; [done|]. apply has_shape_pin_static; [done|].
    apply has_shape_advance_vel; [done|by apply has_shape_acceleration..].
  - apply Forall_insert; [done|]. apply pin_static_idem.
  - apply Forall_insert; [done|]. apply pin_static_idem.
  - by rewrite list_lookup_insert_ne.
  - by rewrite list_lookup_insert_ne.
  - by rewrite list_lookup_insert_ne.
  - intros s Hs. destruct (decide (s = S m)) as [->|Hne].
    + exists p, v, t, f1, f2. replace (S m - 1) with m by lia. simpl.
      rewrite !list_lookup_insert_ne by lia.
      rewrite !list_lookup_insert_eq by lia.
      repeat (split; [done|]). done.
    + destruct (Hsteps s) as (p0 & v0 & t0 & g1 & g2 & H1 & H2 & H3 & H4 & H5);
        [lia|].
      simpl in H5. destruct H5 as (H5 & H6 & H7 & H8).
      exists p0, v0, t0, g1, g2. simpl.
      rewrite !list_lookup_insert_ne by lia.
      repeat (split; [done|]). done.
Qed.

Lemma integration_loop_integrated (m : nat) (h0 : history) :
  inv 0 h0 → m < n_steps →
  ∃ h, foldM step (seq 1 m) h0 = Some h ∧ inv m h.
Proof using masses_shape initial_pos_shape particle_types_shape.
  intros H0. induction m as [|m IH]; intros Hm.
  - exists h0. done.
  - destruct IH as (h & Hrun & Hinv); [lia|].
    destruct (integration_step_integrated m h Hinv Hm) as (h' & Hstep & Hinv').
    exists h'. split; [|done].
    rewrite seq_S, foldM_app, Hrun. simpl. by rewrite Hstep.
Qed.

(** With at least one step and mesh-shaped arguments, the loop runs to its
    end and leaves the histories in the state [integrated]. *)
Lemma integrate_integrated :
  n_steps ≠ 0 →
  ∃ h, integrate masses initial_pos particle_types k L0 d timestep n_steps
         = Some h
       ∧ inv (n_steps - 1) h.
Proof using masses_shape initial_pos_shape particle_types_shape.
  intros Hn. unfold integrate.
  destruct (initial_history_integrated Hn) as (h0 & -> & H0). simpl.
  apply integration_loop_integrated; [done|lia].
Qed.

(** The time history is the running sum of the time step. *)
Lemma integrated_time (h : history) :
  inv (n_steps - 1) h → time h = map (elapsed timestep) (seq 0 n_steps).
Proof.
  intros [Hlt _ _ _ _ _ _ Ht0 _ _ Hsteps].
  assert (Hs : ∀ s, s < n_steps → time h !! s = Some (elapsed timestep s)).
  { induction s as [|s IH]; intros Hs; [done|].
    destruct (Hsteps (S s)) as (p & v & t & f1 & f2 & _ & _ & Ht & _ & Hrest);
      [lia|].
    simpl in Hrest. destruct Hrest as (_ & _ & _ & Ht').
    replace (S s - 1) with s in Ht by lia.
    rewrite IH in Ht by lia. injection Ht as <-. done. }
  apply list_eq. intros s. change (map ?f ?l) with (f <$> l).
  rewrite list_lookup_fmap. destruct (decide (s < n_steps)) as [Hlt'|Hge].
  - rewrite lookup_seq_lt by done. simpl. by apply Hs.
  - rewrite lookup_seq_ge by lia. simpl. apply lookup_ge_None_2. lia.
Qed.

End IntegratorFacts.

(** ** The exporter *)

Section ExportFacts.
Import Np NpFacts.

Variable FPS : float.
Variable round_dec : float → float.

Lemma length_sample_indices (n_rows length : nat) :
  List.length (sample_indices n_rows length) = n_rows.
Proof. unfold sample_indices. by rewrite length_map, length_seq. Qed.

Lemma lookup_sample_indices (n_rows length k : nat) :
  k < n_rows →
  sample_indices n_rows length !! k = Some (sample_index n_rows length k).
Proof.
  intros Hk. unfold sample_indices.
  change (map ?f ?l) with (f <$> l). rewrite list_lookup_fmap.
  by rewrite lookup_seq_lt.
Qed.

Lemma take_rows_Some {A : Type} (a : list A) (idx : list Z) (rows : list A) :
  take_rows a idx = Some rows ↔ Forall2 (λ i x, item a i = Some x) idx rows.
Proof. unfold take_rows. apply mapM_Some. Qed.

(** [export] returns exactly when the row count is defined and not
    negative and every sample index is inside the history; the rows
    returned are the rounded entries at the sample indices. *)
Lemma export_Some (h : history) (ts : list float) (ps : list grid) :
  export FPS round_dec h = Some (ts, ps) ↔
  ∃ n_rows : Z,
    row_count FPS (map round_dec (time h)) = Some n_rows
    ∧ (0 ≤ n_rows)%Z
    ∧ Forall2 (λ i t, item (map round_dec (time h)) i = Some t)
        (sample_indices (Z.to_nat n_rows) (length (time h))) ts
    ∧ Forall2 (λ i p, item (map (maps round_dec) (pos h)) i = Some p)
        (sample_indices (Z.to_nat n_rows) (length (time h))) ps.
Proof.
  unfold export. rewrite length_map.
  destruct (row_count FPS (map round_dec (time h))) as [n|]; simpl.
  - case_decide as Hn.
    + split; [done|]. intros (n' & [= <-] & Hpos & _). lia.
    + destruct (take_rows (map round_dec (time h)) _) as [ts'|] eqn:Hts; simpl.
      * destruct (take_rows (map (maps round_dec) (pos h)) _) as [ps'|] eqn:Hps;
          simpl.
        -- apply take_rows_Some in Hts. apply take_rows_Some in Hps. split.
           ++ intros [= <- <-]. exists n. split; [done|]. split; [lia|done].
           ++ intros (n' & [= <-] & _ & Hts' & Hps'). f_equal.
              apply take_rows_Some in Hts, Hps, Hts', Hps'. congruence.
        -- split; [done|]. intros (n' & [= <-] & _ & _ & Hps').
           apply take_rows_Some in Hps'. congruence.
      * split; [done|]. intros (n' & [= <-] & _ & Hts' & _).
        apply take_rows_Some in Hts'. congruence.
  - split; [done|]. by intros (n' & [=] & _).
Qed.

(** No rows: both artefacts are empty. *)
Lemma export_no_rows (h : history) :
  row_count FPS (map round_dec (time h)) = Some 0%Z →
  export FPS round_dec h = Some ([], []).
Proof.
  intros Hrows. apply export_Some. exists 0%Z.
  split; [done|]. split; [lia|]. simpl. split; constructor.
Qed.

Lemma item_is_Some {A : Type} (a : list A) (i : Z) :
  is_Some (item a i) ↔ is_Some (index (length a) i).
Proof.
  unfold item. destruct (index (length a) i) as [k|] eqn:Hk; simpl.
  - split; [by eauto|]. intros _. apply lookup_lt_is_Some_2.
    by eapply index_is_Some.
  - done.
Qed.

(** Whether [a[idx]] raises depends on the length of [a] only. *)
Lemma take_rows_is_Some {A B : Type} (a : list A) (b : list B) (idx : list Z) :
  length a = length b → is_Some (take_rows a idx) → is_Some (take_rows b idx).
Proof.
  intros Hlen. unfold take_rows. rewrite !mapM_is_Some.
  intros Hall. eapply Forall_impl; [exact Hall|].
  intros i. simpl. rewrite !item_is_Some. by rewrite Hlen.
Qed.

(** The exported time series, and whether [export] fails, are those of
    the time history. *)
Lemma export_times (h h' : history) :
  time h = time h' →
  length (pos h) = length (time h) → length (pos h') = length (time h') →
  fst <$> export FPS round_dec h = fst <$> export FPS round_dec h'.
Proof.
  intros Ht Hl Hl'. unfold export. rewrite <- Ht.
  destruct (row_count FPS (map round_dec (time h))) as [n|]; simpl; [|done].
  case_decide; [done|].
  destruct (take_rows (map round_dec (time h)) _) as [ts|] eqn:Hts; simpl;
    [|done].
  assert (Hsome : ∀ g : history, length (pos g) = length (time h) →
    is_Some (take_rows (map (maps round_dec) (pos g))
               (sample_indices (Z.to_nat n) (length (map round_dec (time h)))))).
  { intros g Hg.
    apply (take_rows_is_Some (map round_dec (time h))); [|by rewrite Hts].
    by rewrite !length_map. }
  destruct (Hsome h Hl) as [ps ->].
  destruct (Hsome h') as [ps' ->]; [congruence|]. done.
Qed.

Lemma item_fmap_in_range {A B : Type} (f : A → B) (a : list A) (i : Z) :
  (0 ≤ i < Z.of_nat (length a))%Z →
  item (map f a) i = f <$> a !! Z.to_nat i.
Proof.
  intros Hi. unfold item. rewrite length_map, index_in_range by done. simpl.
  change (map f a) with (f <$> a). by rewrite list_lookup_fmap.
Qed.

Lemma take_rows_in_range {A B : Type} (f : A → B) (a : list A) (idx : list Z) :
  Forall (λ i, 0 ≤ i < Z.of_nat (length a))%Z idx →
  ∃ rows,
    take_rows (map f a) idx = Some rows
    ∧ length rows = length idx
    ∧ ∀ r i, idx !! r = Some i → rows !! r = f <$> a !! Z.to_nat i.
Proof.
  intros Hidx.
  assert (Hsome : is_Some (take_rows (map f a) idx)).
  { unfold take_rows. apply mapM_is_Some.
    eapply Forall_impl; [exact Hidx|]. intros i Hi. simpl in Hi |- *.
    rewrite item_fmap_in_range by done.
    destruct (lookup_lt_is_Some_2 a (Z.to_nat i)) as [x ->]; [lia|]. done. }
  destruct Hsome as [rows Hrows]. exists rows. split; [done|].
  apply take_rows_Some in Hrows.
  split; [symmetry; by eapply Forall2_length|].
  intros r i Hri.
  destruct (Forall2_lookup_l _ _ _ _ _ Hrows Hri) as (x & -> & Hx).
  rewrite item_fmap_in_range in Hx; [done|].
  by eapply (Forall_lookup_1 _ _ _ _ Hidx Hri).
Qed.

(** When every sample index is inside the history, [export] returns one
    row per sample: the rounded entries at the sample indices. *)
Lemma export_in_range (h : history) (n_rows : nat) :
  length (pos h) = length (time h) →
  row_count FPS (map round_dec (time h)) = Some (Z.of_nat n_rows) →
  (∀ r, r < n_rows →
     (0 ≤ sample_index n_rows (length (time h)) r < Z.of_nat (length (time h)))%Z) →
  ∃ ts ps,
    export FPS round_dec h = Some (ts, ps)
    ∧ length ts = n_rows
    ∧ length ps = n_rows
    ∧ ∀ r, r < n_rows →
        let s := Z.to_nat (sample_index n_rows (length (time h)) r) in
        ts !! r = round_dec <$> time h !! s
        ∧ ps !! r = maps round_dec <$> pos h !! s.
Proof.
  intros Hlen Hrows Hidx. unfold export. rewrite Hrows. simpl.
  rewrite decide_False by lia. rewrite Nat2Z.id, length_map.
  set (idx := sample_indices n_rows (length (time h))).
  assert (Hall : Forall (λ i, 0 ≤ i < Z.of_nat (length (time h)))%Z idx).
  { apply Forall_lookup. intros r i Hri. unfold idx in Hri.
    assert (Hr : r < n_rows).
    { apply lookup_lt_Some in Hri. by rewrite length_sample_indices in Hri. }
    rewrite lookup_sample_indices in Hri by done. injection Hri as <-.
    by apply Hidx. }
  destruct (take_rows_in_range round_dec (time h) idx Hall)
    as (ts & -> & Hlts & Hts).
  destruct (take_rows_in_range (maps round_dec) (pos h) idx)
    as (ps & -> & Hlps & Hps); [by rewrite Hlen|].
  simpl. exists ts, ps. split; [done|].
  subst idx. rewrite length_sample_indices in Hlts, Hlps.
  split; [done|]. split; [done|].
  intros r Hr. cbv zeta.
  pose proof (lookup_sample_indices n_rows (length (time h)) r Hr) as Hri.
  split; [by apply Hts | by apply Hps].
Qed.

End ExportFacts.

(** ** Special values of binary64 *)

Module FloatFacts.

Lemma Prim2SF_zero : Prim2SF 0 = S754_zero false.
Proof. reflexivity. Qed.

(** A finite number times [0] is a zero. *)
Lemma mul_zero_r (x : float) :
  Conv.is_finite x = true → ∃ s, Prim2SF (x * 0) = S754_zero s.
Proof.
  unfold Conv.is_finite. intros Hx.
  rewrite mul_spec, Prim2SF_zero. unfold SF64mul, SFmul.
  destruct (Prim2SF x) as [s|s| |s m e]; try discriminate; eauto.
Qed.

Lemma trunc_zero (x : float) (s : bool) :
  Prim2SF x = S754_zero s → Conv.trunc x = Some 0%Z.
Proof. intros Hx. unfold Conv.trunc. by rewrite Hx. Qed.

End FloatFacts.

(** ** Rounding in binary64 *)

Module Binary64.

Local Open Scope Z_scope.

Abbreviation emin := (-1074)%Z.

Lemma fexp_eq (x : Z) : SpecFloat.fexp prec emax x = Z.max (x - 53) emin.
Proof. reflexivity. Qed.

Lemma digits2_size (p : positive) : digits2_pos p = Pos.size p.
Proof. induction p as [p IH|p IH|]; simpl; by rewrite ?IH. Qed.

Lemma digits_bounds (m : positive) :
  2 ^ (Zpos (digits2_pos m) - 1) ≤ Zpos m < 2 ^ Zpos (digits2_pos m).
Proof.
  rewrite digits2_size. split.
  - pose proof (Pos.size_le m) as H.
    apply Pos2Z.pos_le_pos in H. rewrite Pos2Z.inj_pow in H.
    replace (Zpos (Pos.size m)) with (Z.succ (Zpos (Pos.size m) - 1)) in H by lia.
    rewrite Z.pow_succ_r in H by lia. change (Zpos m~0) with (2 * Zpos m) in H. lia.
  - pose proof (Pos.size_gt m) as H.
    apply Pos2Z.pos_lt_pos in H. by rewrite Pos2Z.inj_pow in H.
Qed.

Lemma digits_le (m : positive) (d : Z) :
  0 ≤ d → Zpos m < 2 ^ d → Zpos (digits2_pos m) ≤ d.
Proof.
  intros Hd Hm. destruct (digits_bounds m) as [Hlo _].
  destruct (Z_le_gt_dec (Zpos (digits2_pos m)) d) as [|Hgt]; [done|].
  assert (2 ^ d ≤ 2 ^ (Zpos (digits2_pos m) - 1)) by (apply Z.pow_le_mono_r; lia).
  lia.
Qed.

Lemma digits_gt (m : positive) (d : Z) :
  0 ≤ d → 2 ^ d ≤ Zpos m → d < Zpos (digits2_pos m).
Proof.
  intros Hd Hm. destruct (digits_bounds m) as [_ Hhi].
  destruct (Z_lt_le_dec d (Zpos (digits2_pos m))) as [|Hle]; [done|].
  assert (2 ^ Zpos (digits2_pos m) ≤ 2 ^ d) by (apply Z.pow_le_mono_r; lia).
  lia.
Qed.

Lemma iter_pos_nat {A : Type} (f : A → A) (p : positive) (x : A) :
  SpecFloat.iter_pos f p x = Nat.iter (Pos.to_nat p) f x.
Proof.
  revert x. induction p as [p IH|p IH|]; intros x; cbn [SpecFloat.iter_pos].
  - rewrite !IH. rewrite Pos2Nat.inj_xI.
    replace (S (2 * Pos.to_nat p))%nat with (Pos.to_nat p + (Pos.to_nat p + 1))%nat by lia.
    rewrite !Nat.iter_add. done.
  - rewrite !IH. rewrite Pos2Nat.inj_xO.
    replace (2 * Pos.to_nat p)%nat with (Pos.to_nat p + Pos.to_nat p)%nat by lia.
    by rewrite Nat.iter_add.
  - by rewrite Pos2Nat.inj_1.
Qed.

Lemma shr_1_m (r : shr_record) :
  0 ≤ shr_m r → shr_m (shr_1 r) = shr_m r / 2.
Proof.
  destruct r as [m r s]. simpl. intros Hm.
  rewrite <- Z.div2_div. by destruct m as [|[p|p|]|p].
Qed.

Lemma shr_iter_m (n : nat) (r : shr_record) :
  0 ≤ shr_m r → shr_m (Nat.iter n shr_1 r) = shr_m r / 2 ^ Z.of_nat n.
Proof.
  intros Hm. induction n as [|n IH].
  - simpl. by rewrite Z.div_1_r.
  - rewrite Nat.iter_succ, shr_1_m.
    + rewrite IH, Nat2Z.inj_succ, Z.pow_succ_r by lia.
      rewrite Z.div_div by lia. f_equal. lia.
    + rewrite IH. apply Z.div_pos; lia.
Qed.

Lemma shr_record_of_loc_m (m : Z) (l : location) :
  shr_m (shr_record_of_loc m l) = m.
Proof. by destruct l as [|[]]. Qed.

(** The first step of rounding: a mantissa of more than 53 digits is
    truncated to 53 digits, a shorter one is kept. *)
Lemma shr_fexp_spec (m : positive) (e : Z) (l : location) :
  emin ≤ e →
  let p := Z.max (Zpos (digits2_pos m) - 53) 0 in
  ∃ mrs,
    shr_fexp prec emax (Zpos m) e l = (mrs, e + p)
    ∧ shr_m mrs = Zpos m / 2 ^ p
    ∧ (p = 0 → mrs = shr_record_of_loc (Zpos m) l).
Proof.
  intros He p. unfold shr_fexp. rewrite fexp_eq. cbn [Zdigits2].
  unfold shr.
  destruct (Z.max (Zpos (digits2_pos m) + e - 53) emin - e) as [|q|q] eqn:Hq.
  - exists (shr_record_of_loc (Zpos m) l).
    replace p with 0 by lia. rewrite Z.add_0_r, Z.div_1_r.
    by rewrite shr_record_of_loc_m.
  - exists (SpecFloat.iter_pos shr_1 q (shr_record_of_loc (Zpos m) l)).
    assert (p = Zpos q) as -> by lia. split; [done|]. split; [|done].
    rewrite iter_pos_nat, shr_iter_m by (by rewrite shr_record_of_loc_m).
    by rewrite shr_record_of_loc_m, positive_nat_Z.
  - exists (shr_record_of_loc (Zpos m) l).
    replace p with 0 by lia. rewrite Z.add_0_r, Z.div_1_r.
    by rewrite shr_record_of_loc_m.
Qed.

Lemma round_nearest_even_bounds (m : Z) (l : location) :
  m ≤ round_nearest_even m l ≤ m + 1.
Proof. destruct l as [|[]]; simpl; try lia. destruct (Z.even m); lia. Qed.

(** Rounding a positive mantissa at an exponent that is not below [emin]:
    the result is a finite number, or an infinity on overflow; it has at
    most 53 digits; one unit less than its mantissa is below the exact
    value; a mantissa of at most 53 digits is not decreased; and a
    normal mantissa stays normal. *)
Lemma binary_round_aux_spec (s : bool) (mx : positive) (ex : Z) (lx : location) :
  emin ≤ ex →
  ∃ m e,
    binary_round_aux prec emax s (Zpos mx) ex lx
      = (if e <=? 971 then S754_finite s m e else S754_infinity s)
    ∧ ex ≤ e
    ∧ (Zpos m - 1) * 2 ^ (e - ex) ≤ Zpos mx
    ∧ (Zpos (digits2_pos mx) ≤ 53 → Zpos mx ≤ Zpos m * 2 ^ (e - ex))
    ∧ (2 ^ 52 ≤ Zpos mx → 2 ^ 52 ≤ Zpos m)
    ∧ Zpos m < 2 ^ 53
    ∧ (Zpos (digits2_pos mx) ≤ 53 → lx = loc_Exact → m = mx ∧ e = ex).
Proof.
  intros He. unfold binary_round_aux.
  destruct (shr_fexp_spec mx ex lx He) as (mrs1 & -> & Hm1 & Hrec1).
  set (d := Zpos (digits2_pos mx)) in *.
  set (p1 := Z.max (d - 53) 0) in *.
  destruct (digits_bounds mx) as [Hlo Hhi]. fold d in Hlo, Hhi.
  assert (Hp1 : 0 ≤ p1) by lia.
  assert (HP1 : 0 < 2 ^ p1) by (apply Z.pow_pos_nonneg; lia).
  assert (Hdiv1 : shr_m mrs1 * 2 ^ p1 ≤ Zpos mx < (shr_m mrs1 + 1) * 2 ^ p1).
  { rewrite Hm1. pose proof (Z.mul_div_le (Zpos mx) (2 ^ p1) HP1).
    pose proof (Z.mul_succ_div_gt (Zpos mx) (2 ^ p1) HP1). lia. }
  assert (Hm1lo : 0 < shr_m mrs1 ∧ (53 ≤ d → 2 ^ 52 ≤ shr_m mrs1)).
  { destruct (Z_le_gt_dec d 53) as [Hd|Hd].
    - replace p1 with 0 in * by lia. rewrite Z.pow_0_r in Hdiv1.
      split; [lia|]. intros Hd'. replace d with 53 in Hlo by lia.
      change (2 ^ (53 - 1)) with (2 ^ 52) in Hlo. lia.
    - replace p1 with (d - 53) in * by lia.
      assert (2 ^ (d - 1) = 2 ^ 52 * 2 ^ (d - 53)) as Hpow.
      { rewrite <- Z.pow_add_r by lia. f_equal. lia. }
      assert (2 ^ 52 ≤ shr_m mrs1) by nia. lia. }
  assert (Hm1hi : shr_m mrs1 < 2 ^ 53).
  { destruct (Z_le_gt_dec d 53) as [Hd|Hd].
    - replace p1 with 0 in * by lia. rewrite Z.pow_0_r in Hdiv1.
      assert (2 ^ d ≤ 2 ^ 53) by (apply Z.pow_le_mono_r; lia). lia.
    - replace p1 with (d - 53) in * by lia.
      assert (2 ^ d = 2 ^ 53 * 2 ^ (d - 53)) as Hpow.
      { rewrite <- Z.pow_add_r by lia. f_equal. lia. }
      nia. }
  pose proof (round_nearest_even_bounds (shr_m mrs1) (loc_of_shr_record mrs1))
    as Hr.
  destruct (round_nearest_even (shr_m mrs1) (loc_of_shr_record mrs1))
    as [|q2|q2] eqn:Hq2; [lia| |lia].
  destruct (shr_fexp_spec q2 (ex + p1) loc_Exact ltac:(lia))
    as (mrs2 & -> & Hm2 & _).
  set (d2 := Zpos (digits2_pos q2)) in *.
  set (p2 := Z.max (d2 - 53) 0) in *.
  destruct (digits_bounds q2) as [Hlo2 Hhi2]. fold d2 in Hlo2, Hhi2.
  destruct (Z_le_gt_dec d2 53) as [Hd2|Hd2].
  - (* no renormalisation *)
    replace p2 with 0 in * by lia. rewrite Z.pow_0_r, Z.div_1_r in Hm2.
    rewrite Hm2. exists q2, (ex + p1 + 0).
    split; [done|]. split; [lia|].
    replace (ex + p1 + 0 - ex) with p1 by lia.
    assert (2 ^ d2 ≤ 2 ^ 53) by (apply Z.pow_le_mono_r; lia).
    split; [nia|]. split; [|split; [|split; [lia|]]].
    + intros Hd. replace p1 with 0 in * by lia. rewrite Z.pow_0_r in *. lia.
    + intros Hn. assert (53 ≤ d).
      { pose proof (digits_gt mx 52 ltac:(lia) Hn). fold d in H0. lia. }
      lia.
    + intros Hd ->. assert (p1 = 0) as Hp10 by lia.
      rewrite (Hrec1 Hp10) in Hq2. simpl in Hq2. split; [congruence|lia].
  - (* the rounded mantissa is 2^53 *)
    assert (d2 = 54) as Hd2'.
    { pose proof (digits_le q2 54 ltac:(lia)). fold d2 in H.
      assert (Zpos q2 < 2 ^ 54) by (change (2 ^ 54) with (2 * 2 ^ 53); lia).
      lia. }
    rewrite Hd2' in *. change (2 ^ (54 - 1)) with (2 ^ 53) in Hlo2.
    assert (Zpos q2 = 2 ^ 53) as Hq by lia.
    replace p2 with 1 in * by lia.
    rewrite Hq in Hm2. change (2 ^ 53 / 2 ^ 1) with (Zpos (2 ^ 52)%positive) in Hm2.
    rewrite Hm2. exists (2 ^ 52)%positive, (ex + p1 + 1).
    split; [done|]. split; [lia|].
    replace (ex + p1 + 1 - ex) with (p1 + 1) by lia.
    rewrite Z.pow_add_r, Z.pow_1_r by lia.
    change (Zpos (2 ^ 52)%positive) with (2 ^ 52).
    assert (2 ^ 53 - 1 ≤ shr_m mrs1) by lia.
    split; [|split; [|split; [lia|split]]].
    + change (2 ^ 53) with (2 * 2 ^ 52) in *. nia.
    + intros Hd. change (2 ^ 53) with (2 * 2 ^ 52) in *. nia.
    + change (2 ^ 53) with (2 * 2 ^ 52). lia.
    + intros Hd ->. assert (p1 = 0) as Hp10 by lia.
      rewrite (Hrec1 Hp10) in Hq2. simpl in Hq2.
      assert (2 ^ d ≤ 2 ^ 53) by (apply Z.pow_le_mono_r; lia). lia.
Qed.

(** *** Classes of numbers *)



Lemma shl_align_spec (m : positive) (e e' : Z) :
  ∃ mz ez,
    shl_align m e e' = (mz, ez)
    ∧ ez = Z.min e e'
    ∧ Zpos mz = Zpos m * 2 ^ (e - ez).
Proof.
  unfold shl_align. destruct (e' - e) as [|d|d] eqn:Hd.
  - exists m, e. replace (Z.min e e') with e by lia.
    rewrite Z.sub_diag. simpl. split; [done|]. split; lia.
  - exists m, e. replace (Z.min e e') with e by lia.
    rewrite Z.sub_diag. simpl. split; [done|]. split; lia.
  - exists (Pos.iter xO m d), e'. replace (Z.min e e') with e' by lia.
    split; [done|]. split; [done|].
    replace (e - e') with (Zpos d) by lia.
    rewrite <- (Z.shiftl_mul_pow2 (Zpos m) (Zpos d)) by lia.
    unfold Z.shiftl. by apply Pos.iter_swap_gen.
Qed.


End Binary64.

(** ** Error bounds of binary64 arithmetic *)

Module Real64.
Import Binary64.
Local Open Scope Z_scope.

Lemma bpow_pos (e : Z) : (0 < powerRZ 2 e)%R.
Proof. apply powerRZ_lt. lra. Qed.

Lemma bpow_add (a b : Z) : (powerRZ 2 (a + b) = powerRZ 2 a * powerRZ 2 b)%R.
Proof. apply powerRZ_add. lra. Qed.

Lemma bpow_IZR (e : Z) : 0 ≤ e → powerRZ 2 e = IZR (2 ^ e).
Proof.
  intros He. rewrite <- (Z2Nat.id e He) at 2.
  rewrite <- pow_IZR. rewrite <- (Z2Nat.id e He) at 1.
  by rewrite <- pow_powerRZ.
Qed.

Lemma F2R_pos m e : (0 < F2R m e)%R.
Proof.
  unfold F2R. apply Rmult_lt_0_compat; [|apply bpow_pos].
  apply IZR_lt. lia.
Qed.

(** Moving a power of two from the exponent to the mantissa. *)
Lemma F2R_shift (m : positive) (e e' : Z) :
  e' ≤ e → F2R m e = (IZR (Zpos m * 2 ^ (e - e')) * powerRZ 2 e')%R.
Proof.
  intros He. unfold F2R. rewrite mult_IZR, <- bpow_IZR by lia.
  rewrite Rmult_assoc, <- bpow_add. do 2 f_equal. lia.
Qed.

Lemma eps_pos : (0 < eps)%R.
Proof. unfold eps. apply Rinv_0_lt_compat, IZR_lt. lia. Qed.

Lemma digits_eq (m : positive) :
  2 ^ 52 ≤ Zpos m < 2 ^ 53 → Zpos (digits2_pos m) = 53.
Proof.
  intros [Hlo Hhi].
  pose proof (digits_le m 53 ltac:(lia) Hhi).
  pose proof (digits_gt m 52 ltac:(lia) Hlo). lia.
Qed.

(** Rounding a normal mantissa: the result is normal, its exponent is
    not below that of the argument and exceeds it by the surplus of
    digits at most, and it exceeds the exact value by the factor
    [1 + eps] at most. *)
Lemma round_upper (s : bool) (mx : positive) (ex : Z) (lx : location) (D : Z) :
  emin ≤ ex → 2 ^ 52 ≤ Zpos mx < 2 ^ D →
  ∃ m e,
    binary_round_aux prec emax s (Zpos mx) ex lx
      = (if e <=? 971 then S754_finite s m e else S754_infinity s)
    ∧ ex ≤ e ≤ ex + (D - 52)
    ∧ 2 ^ 52 ≤ Zpos m < 2 ^ 53
    ∧ (F2R m e <= F2R mx ex * (1 + eps))%R.
Proof.
  intros He [Hlo Hhi].
  destruct (binary_round_aux_spec s mx ex lx He)
    as (m & e & Hr & Hee & Hup & _ & Hnorm & Hcan & _).
  specialize (Hnorm Hlo).
  exists m, e. split; [done|].
  assert (HD : 53 ≤ D).
  { destruct (Z_lt_le_dec D 53) as [HD|]; [|done].
    assert (2 ^ D ≤ 2 ^ 52).
    { destruct (Z_lt_le_dec D 0) as [Hneg|Hnn].
      - rewrite Z.pow_neg_r by done. lia.
      - apply Z.pow_le_mono_r; lia. }
    lia. }
  set (P := 2 ^ (e - ex)) in *.
  assert (HP : 0 < P) by (apply Z.pow_pos_nonneg; lia).
  assert (He2 : e - ex ≤ D - 52).
  { destruct (Z_le_gt_dec (e - ex) (D - 52)) as [|Hgt]; [done|].
    assert (2 ^ (D - 51) ≤ P) by (apply Z.pow_le_mono_r; lia).
    assert (2 ^ D = 2 ^ 51 * 2 ^ (D - 51)) as HDp.
    { rewrite <- Z.pow_add_r by lia. f_equal. lia. }
    assert (2 ^ 51 * P ≤ (Zpos m - 1) * P) by (apply Z.mul_le_mono_nonneg_r; lia).
    nia. }
  split; [lia|]. split; [done|].
  rewrite (F2R_shift m e ex) by lia. fold P. unfold F2R.
  rewrite (Rmult_comm _ (1 + eps)), <- Rmult_assoc.
  apply Rmult_le_compat_r; [apply Rlt_le, bpow_pos|].
  assert (Hint : 2 ^ 51 * (Zpos m * P) ≤ (2 ^ 51 + 1) * Zpos mx).
  { assert (2 ^ 51 * P ≤ (Zpos m - 1) * P)
      by (apply Z.mul_le_mono_nonneg_r; lia). nia. }
  apply IZR_le in Hint. rewrite !mult_IZR, plus_IZR in Hint.
  unfold eps. set (c := IZR (2 ^ 51)) in *.
  assert (Hc : (0 < c)%R) by (apply IZR_lt; lia).
  apply (Rmult_le_reg_l c); [done|].
  replace (c * ((1 + / c) * IZR (Zpos mx)))%R with ((c + 1) * IZR (Zpos mx))%R
    by (field; lra).
  rewrite mult_IZR. lra.
Qed.

End Real64.

Module Arith64.
Import Binary64 Real64.
Local Open Scope Z_scope.

Lemma F2R_mul (m1 m2 : positive) (e1 e2 : Z) :
  F2R (m1 * m2) (e1 + e2) = (F2R m1 e1 * F2R m2 e2)%R.
Proof.
  unfold F2R. rewrite Pos2Z.inj_mul, mult_IZR, bpow_add. ring.
Qed.

Lemma bounded_float_mul (x y : float) (lo1 hi1 lo2 hi2 : Z) (v1 v2 : R) :
  bounded_float x lo1 hi1 v1 → bounded_float y lo2 hi2 v2 →
  emin ≤ lo1 + lo2 → hi1 + hi2 + 54 ≤ 971 →
  bounded_float (x * y) (lo1 + lo2) (hi1 + hi2 + 54) (v1 * v2 * (1 + eps)).
Proof.
  intros (mx & ex & Hx & Hmx & Hex & Hvx) (my & ey & Hy & Hmy & Hey & Hvy) Hlo Hhi.
  unfold bounded_float. rewrite FloatAxioms.mul_spec, Hx, Hy.
  unfold SF64mul, SFmul. cbn [xorb].
  destruct (round_upper false (mx * my) (ex + ey) loc_Exact 106)
    as (m & e & -> & He & Hm & Hv).
  { lia. }
  { rewrite Pos2Z.inj_mul. change (2 ^ 106) with (2 ^ 53 * 2 ^ 53).
    change (2 ^ 52) with (2 ^ 52 * 1). split.
    - apply Z.mul_le_mono_nonneg; lia.
    - apply Z.mul_lt_mono_nonneg; lia. }
  assert ((e <=? 971) = true) as -> by (apply Z.leb_le; lia).
  exists m, e. split; [done|]. split; [done|]. split; [lia|].
  rewrite F2R_mul in Hv.
  pose proof (F2R_pos mx ex). pose proof (F2R_pos my ey). pose proof eps_pos.
  eapply Rle_trans; [exact Hv|].
  apply Rmult_le_compat_r; [lra|].
  apply Rmult_le_compat; lra.
Qed.

Lemma represents_bounded (x : float) (z : Z) :
  represents x z → bounded_float x (-52) 0 (IZR z).
Proof.
  intros (m & e & Hx & Hm & He & Hz). exists m, e.
  split; [done|]. split; [done|]. split; [done|].
  unfold F2R. rewrite Hz, mult_IZR, <- bpow_IZR by lia.
  rewrite Rmult_assoc, <- bpow_add. replace (- e + e) with 0 by lia.
  simpl. lra.
Qed.

(** The reciprocal of a represented positive integer. *)
Lemma bounded_float_inv (y : float) (n : Z) :
  represents y n → bounded_float (1 / y) (-105) (-51) ((1 + eps) / IZR n).
Proof.
  intros (m2 & e2 & Hy & Hm2 & He2 & Hn).
  assert (Hnpos : 0 < n).
  { destruct (Z_lt_le_dec 0 n) as [|Hle]; [done|].
    assert (n * 2 ^ (- e2) ≤ 0); [|lia].
    apply Z.mul_nonpos_nonneg; [done|]. apply Z.pow_nonneg. lia. }
  unfold bounded_float. rewrite FloatAxioms.div_spec, Hy.
  change (Prim2SF 1) with (S754_finite false (2 ^ 52)%positive (-52)).
  unfold SF64div, SFdiv, SFdiv_core_binary. cbn [xorb].
  cbn [Zdigits2]. rewrite (digits_eq m2 Hm2), fexp_eq.
  change (Zpos (digits2_pos (2 ^ 52))) with 53.
  replace (Z.min (Z.max (53 + -52 - (53 + e2) - 53) emin) (-52 - e2))
    with (-105 - e2) by lia.
  replace (-52 - e2 - (-105 - e2)) with 53 by lia.
  change (Z.shiftl (Zpos (2 ^ 52)) 53) with (2 ^ 105).
  pose proof (Z_div_mod (2 ^ 105) (Zpos m2) ltac:(lia)) as Hdm.
  destruct (Z.div_eucl (2 ^ 105) (Zpos m2)) as [q r].
  destruct Hdm as [Hq Hr].
  assert (Hqb : 2 ^ 52 ≤ q < 2 ^ 54).
  { change (2 ^ 105) with (2 ^ 52 * 2 ^ 53) in Hq.
    change (2 ^ 54) with (2 * 2 ^ 53). change (2 ^ 53) with (2 * 2 ^ 52) in *.
    nia. }
  destruct q as [|q|q]; [lia| |lia].
  destruct (round_upper false q (-105 - e2) (new_location (Zpos m2) r) 54)
    as (m & e & -> & He & Hm & Hv); [lia|lia|].
  assert ((e <=? 971) = true) as -> by (apply Z.leb_le; lia).
  exists m, e. split; [done|]. split; [done|]. split; [lia|].
  eapply Rle_trans; [exact Hv|].
  pose proof eps_pos.
  assert (HnR : (0 < IZR n)%R) by (by apply IZR_lt).
  unfold Rdiv. rewrite (Rmult_comm (1 + eps)).
  apply Rmult_le_compat_r; [lra|].
  apply (Rmult_le_reg_r (IZR n)); [done|].
  rewrite Rinv_l by lra.
  (* q * 2^(-105 - e2) * n = q * m2 * 2^-105 <= 1 *)
  unfold F2R.
  replace (-105 - e2) with (-105 + - e2) by lia. rewrite bpow_add.
  rewrite (bpow_IZR (- e2)) by lia.
  replace (IZR (Zpos q) * (powerRZ 2 (-105) * IZR (2 ^ (- e2))) * IZR n)%R
    with (IZR (Zpos q) * IZR (n * 2 ^ (- e2)) * powerRZ 2 (-105))%R
    by (rewrite mult_IZR; ring).
  rewrite <- Hn, <- mult_IZR.
  assert (Hle : Zpos q * Zpos m2 ≤ 2 ^ 105) by lia.
  apply IZR_le in Hle. rewrite <- bpow_IZR in Hle by lia.
  apply (Rmult_le_compat_r (powerRZ 2 (-105))) in Hle;
    [|apply Rlt_le, bpow_pos].
  rewrite <- bpow_add in Hle. by simpl in Hle.
Qed.

(** The float of a positive integer below [2^53] is that integer. *)
Lemma represents_of_Z (z : Z) : 0 < z < 2 ^ 53 → represents (Conv.of_Z z) z.
Proof.
  intros Hz. destruct z as [|p|p]; [lia| |lia].
  unfold Conv.of_Z, represents. rewrite of_uint63_spec, Uint63.of_Z_spec.
  rewrite Z.mod_small
    by (change Uint63.wB with (2 ^ 63); change (2 ^ 63) with (2 ^ 10 * 2 ^ 53); lia).
  cbn [binary_normalize]. unfold binary_round.
  destruct (shl_align_spec p 0 (SpecFloat.fexp prec emax (Zpos (digits2_pos p) + 0)))
    as (mz & ez & -> & Hez & Hmz).
  rewrite fexp_eq in Hez.
  destruct (digits_bounds p) as [Hlo Hhi].
  set (d := Zpos (digits2_pos p)) in *.
  assert (Hd : 1 ≤ d ≤ 53).
  { split; [subst d; lia|]. apply digits_le; lia. }
  assert (ez = d - 53) as -> by lia.
  replace (0 - (d - 53)) with (53 - d) in Hmz by lia.
  assert (Hmzb : 2 ^ 52 ≤ Zpos mz < 2 ^ 53).
  { rewrite Hmz.
    assert (2 ^ 52 = 2 ^ (d - 1) * 2 ^ (53 - d)) as ->
      by (rewrite <- Z.pow_add_r by lia; f_equal; lia).
    assert (2 ^ 53 = 2 ^ d * 2 ^ (53 - d)) as ->
      by (rewrite <- Z.pow_add_r by lia; f_equal; lia).
    assert (0 < 2 ^ (53 - d)) by (apply Z.pow_pos_nonneg; lia).
    split; [apply Z.mul_le_mono_nonneg_r; lia|apply Z.mul_lt_mono_pos_r; lia]. }
  destruct (binary_round_aux_spec false mz (d - 53) loc_Exact ltac:(lia))
    as (m & e & -> & _ & _ & _ & _ & _ & Hexact).
  destruct Hexact as [-> ->]; [by rewrite (digits_eq mz Hmzb)|done|].
  assert ((d - 53 <=? 971) = true) as -> by (apply Z.leb_le; lia).
  exists mz, (d - 53). split; [done|]. split; [done|]. split; [lia|].
  rewrite Hmz. do 2 f_equal. lia.
Qed.

(** Adding [0] to a positive finite number changes nothing. *)
Lemma bounded_float_add_zero (x : float) (lo hi : Z) (v : R) :
  bounded_float x lo hi v → (x + 0)%float = x.
Proof.
  intros (m & e & Hx & _). apply Prim2SF_inj.
  rewrite FloatAxioms.add_spec, Hx. done.
Qed.

(** Truncating a positive number below the integer [L]. *)
Lemma bounded_float_trunc (y : float) (lo hi : Z) (v : R) (L : Z) :
  bounded_float y lo hi v → (v < IZR L)%R →
  ∃ z, Conv.trunc y = Some z ∧ 0 ≤ z < L.
Proof.
  intros (m & e & Hy & _ & _ & Hv) HL. unfold Conv.trunc. rewrite Hy.
  eexists. split; [done|].
  assert (Ha : ∀ a : Z, 0 ≤ a → (IZR a <= F2R m e)%R → 0 ≤ a < L).
  { intros a Ha0 HaR. split; [done|]. apply lt_IZR. lra. }
  destruct e as [|p|p].
  - rewrite Z.shiftl_0_r. apply Ha; [lia|]. unfold F2R. simpl. lra.
  - rewrite Z.shiftl_mul_pow2 by lia. apply Ha.
    + apply Z.mul_nonneg_nonneg; [lia|]. apply Z.pow_nonneg. lia.
    + unfold F2R. rewrite mult_IZR, <- bpow_IZR by lia. lra.
  - rewrite Z.shiftr_div_pow2 by lia.
    assert (HP : 0 < 2 ^ Zpos p) by (apply Z.pow_pos_nonneg; lia).
    apply Ha; [apply Z.div_pos; lia|].
    pose proof (Z.mul_div_le (Zpos m) (2 ^ Zpos p) HP) as Hle.
    apply IZR_le in Hle. rewrite mult_IZR, <- bpow_IZR in Hle by lia.
    unfold F2R.
    apply (Rmult_le_reg_l (powerRZ 2 (Zpos p))); [apply bpow_pos|].
    eapply Rle_trans; [exact Hle|].
    rewrite (Rmult_comm (IZR (Zpos m))), <- Rmult_assoc, <- bpow_add.
    replace (Zpos p + Zneg p) with 0 by lia. simpl. lra.
Qed.

End Arith64.

Module IndexBound.
Import Binary64 Real64 Arith64.
Local Open Scope Z_scope.

Lemma cube_eps : ((1 + eps) * (1 + eps) * (1 + eps) <= 1 + 4 * eps)%R.
Proof.
  pose proof eps_pos as Hpos.
  assert (Hsmall : (eps <= / 4)%R).
  { unfold eps. apply Rinv_le_contravar; [lra|]. apply IZR_le. lia. }
  nra.
Qed.

Lemma error_budget (k n : R) :
  (0 <= k <= n - 1)%R → (n <= IZR (2 ^ 48))%R →
  (k * ((1 + eps) / n) * (1 + eps) * (1 + eps) < 1)%R.
Proof.
  intros [Hk0 Hk] Hn.
  assert (Hnpos : (0 < n)%R) by lra.
  pose proof eps_pos as Hpos. pose proof cube_eps as Hcube.
  assert (Heps : (eps * IZR (2 ^ 51) = 1)%R).
  { unfold eps. apply Rinv_l. apply not_0_IZR. lia. }
  change (2 ^ 51) with (8 * 2 ^ 48) in Heps. rewrite mult_IZR in Heps.
  set (N := IZR (2 ^ 48)) in *.
  assert (H4 : (4 * eps * (n - 1) < 1)%R).
  { assert (4 * eps * (n - 1) <= 4 * eps * N)%R.
    { apply Rmult_le_compat_l; lra. }
    lra. }
  replace (k * ((1 + eps) / n) * (1 + eps) * (1 + eps))%R
    with (k * ((1 + eps) * (1 + eps) * (1 + eps)) / n)%R by (field; lra).
  apply (Rmult_lt_reg_r n); [done|].
  unfold Rdiv. rewrite Rmult_assoc, Rinv_l, Rmult_1_r, Rmult_1_l by lra.
  assert (k * ((1 + eps) * (1 + eps) * (1 + eps)) <= (n - 1) * (1 + 4 * eps))%R.
  { apply Rmult_le_compat; [lra| |lra|lra].
    repeat apply Rmult_le_pos; lra. }
  lra.
Qed.

Lemma of_nat_zero : Conv.of_nat 0 = 0%float.
Proof. reflexivity. Qed.

Lemma mul_zero_l (x : float) (lo hi : Z) (v : R) :
  bounded_float x lo hi v → (0 * x)%float = 0%float.
Proof.
  intros (m & e & Hx & _). apply Prim2SF_inj.
  rewrite FloatAxioms.mul_spec, Hx. done.
Qed.

Lemma astype_int64_trunc (x : float) (z L : Z) :
  Conv.trunc x = Some z → 0 ≤ z < L → L < 2 ^ 53 →
  Conv.astype_int64 x = z.
Proof.
  intros Hx Hz HL. unfold Conv.astype_int64. rewrite Hx.
  rewrite decide_True; [done|].
  change (2 ^ 63) with (2 ^ 10 * 2 ^ 53). lia.
Qed.

(** Every sample index computed in binary64 is inside the history. *)
Lemma sample_index_bounds (n_rows length k : nat) :
  Z.of_nat n_rows ≤ 2 ^ 48 → (k < n_rows)%nat →
  0 < Z.of_nat length < 2 ^ 53 →
  0 ≤ sample_index n_rows length k < Z.of_nat length.
Proof.
  intros Hn Hk HL. unfold sample_index, Conv.of_nat.
  pose proof (represents_of_Z (Z.of_nat n_rows)
                ltac:(change (2 ^ 53) with (2 ^ 5 * 2 ^ 48); lia)) as Hnr.
  pose proof (bounded_float_inv _ _ Hnr) as Hr.
  pose proof (represents_bounded _ _ (represents_of_Z (Z.of_nat length) HL))
    as HLb.
  destruct k as [|k].
  - change (Conv.of_Z (Z.of_nat 0)) with 0%float.
    rewrite (mul_zero_l _ _ _ _ Hr).
    change (0 + 0)%float with 0%float.
    rewrite (mul_zero_l _ _ _ _ HLb).
    change (Conv.astype_int64 0) with 0. lia.
  - pose proof (represents_bounded _ _
        (represents_of_Z (Z.of_nat (S k))
           ltac:(change (2 ^ 53) with (2 ^ 5 * 2 ^ 48); lia))) as Hkb.
    pose proof (bounded_float_mul _ _ _ _ _ _ _ _ Hkb Hr
                  ltac:(lia) ltac:(lia)) as Hx.
    rewrite (bounded_float_add_zero _ _ _ _ Hx).
    pose proof (bounded_float_mul _ _ _ _ _ _ _ _ Hx HLb
                  ltac:(lia) ltac:(lia)) as Hy.
    destruct (bounded_float_trunc _ _ _ _ (Z.of_nat length) Hy) as (z & Hz & Hzb).
    + pose proof (error_budget (IZR (Z.of_nat (S k))) (IZR (Z.of_nat n_rows)))
        as Hb.
      assert (HLR : (0 < IZR (Z.of_nat length))%R) by (apply IZR_lt; lia).
      pose proof eps_pos.
      set (K := IZR (Z.of_nat (S k))) in *.
      set (N := IZR (Z.of_nat n_rows)) in *.
      set (LL := IZR (Z.of_nat length)) in *.
      replace (K * ((1 + eps) / N) * (1 + eps) * LL * (1 + eps))%R
        with ((K * ((1 + eps) / N) * (1 + eps) * (1 + eps)) * LL)%R by ring.
      rewrite <- (Rmult_1_l LL) at 2.
      apply Rmult_lt_compat_r; [done|]. apply Hb.
      * subst K N. split; [apply IZR_le; lia|].
        rewrite <- minus_IZR. apply IZR_le. lia.
      * subst N. by apply IZR_le.
    + rewrite (astype_int64_trunc _ z (Z.of_nat length) Hz); lia.
Qed.

End IndexBound.

(** ** C3: the postcondition of the force field *)

(** C3. On every [ny] x [nx] displacement grid [_calculate_forces] returns
    a force grid of that shape; at each interior cell [(i, j)]
    ([1 <= i <= ny-2], [1 <= j <= nx-2]) it holds the sum, over the
    neighbours [(i, j-1)], [(i-1, j)], [(i, j+1)], [(i+1, j)] holding [q], of
    [-k * (length - L0) * (pos[i,j] - q) / length] with
    [length = sqrt(d^2 + (pos[i,j] - q)^2)], accumulated from 0 in that
    order; at every border cell it holds exactly 0. *)
Theorem force_field_postcondition (k L0 d : float) (ny nx : nat)
    (pos : Np.grid) :
  Np.has_shape ny nx pos →
  ∃ forces,
    _calculate_forces k L0 d pos = Some forces
    ∧ Np.has_shape ny nx forces
    ∧ (∀ i j, 1 ≤ i ≤ ny - 2 → 1 ≤ j ≤ nx - 2 →
        ∃ p left up right down,
          Np.cell pos i j = Some p
          ∧ Np.cell pos i (j - 1) = Some left
          ∧ Np.cell pos (i - 1) j = Some up
          ∧ Np.cell pos i (j + 1) = Some right
          ∧ Np.cell pos (i + 1) j = Some down
          ∧ let term q :=
              let length := PrimFloat.sqrt (d * d + (p - q) * (p - q)) in
              ((- k) * (length - L0) * (p - q) / length)%float in
            Np.cell forces i j =
              Some (0 + term left + term up + term right + term down)%float)
    ∧ (∀ i j, i < ny → j < nx →
        i = 0 ∨ i = ny - 1 ∨ j = 0 ∨ j = nx - 1 →
        Np.cell forces i j = Some 0%float).
Proof.
  intros Hpos.
  destruct (calculate_forces_spec k L0 d ny nx pos Hpos) as (f & Hrun & Hs & Hc).
  exists f. split; [done|]. split; [done|]. split.
  - intros i j Hi Hj.
    destruct (NpFacts.cell_is_Some ny nx pos i j) as [p Hp]; [done|lia..|].
    destruct (NpFacts.cell_is_Some ny nx pos i (j - 1)) as [q1 Hq1];
      [done|lia..|].
    destruct (NpFacts.cell_is_Some ny nx pos (i - 1) j) as [q2 Hq2];
      [done|lia..|].
    destruct (NpFacts.cell_is_Some ny nx pos i (j + 1)) as [q3 Hq3];
      [done|lia..|].
    destruct (NpFacts.cell_is_Some ny nx pos (i + 1) j) as [q4 Hq4];
      [done|lia..|].
    exists p, q1, q2, q3, q4. repeat (split; [done|]).
    rewrite Hc by lia. rewrite decide_True by (unfold is_interior; lia).
    unfold stencil. rewrite Hp, Hq1, Hq2, Hq3, Hq4. done.
  - intros i j Hi Hj Hb. rewrite Hc by lia.
    rewrite decide_False; [done|]. unfold is_interior. lia.
Qed.

Lemma force_field_postcondition_witness :
  let pos := [[0; 0; 0]; [0; 0.5; 0]; [0; 0; 0]]%float in
  Np.has_shape 3 3 pos
  ∧ ∃ forces,
      _calculate_forces 1 1 1 pos = Some forces
      ∧ Np.has_shape 3 3 forces
      ∧ Np.cell forces 0 1 = Some 0%float.
Proof.
  intros pos.
  assert (Hs : Np.has_shape 3 3 pos)
    by (split; [reflexivity | repeat constructor]).
  split; [exact Hs|].
  destruct (force_field_postcondition 1 1 1 3 3 pos Hs)
    as (f & Hrun & Hshape & _ & Hborder).
  exists f. split; [exact Hrun|]. split; [exact Hshape|].
  apply Hborder; [lia | lia | left; reflexivity].
Defined.

(** ** C1, C2: the velocity-Verlet loop *)

Section CellwiseUpdates.
Import Np NpFacts GridFacts.

Variables (timestep : float) (masses : grid).

Lemma cell_acceleration (forces : grid) i j (f m : float) :
  cell forces i j = Some f → cell masses i j = Some m →
  cell (acceleration masses forces) i j = Some (f / m)%float.
Proof.
  intros Hf Hm. unfold acceleration, map2. by rewrite cell_zip_with, Hf, Hm.
Qed.

Lemma cell_advance_pos (p v a : grid) i j (x y z : float) :
  cell p i j = Some x → cell v i j = Some y → cell a i j = Some z →
  cell (advance_pos timestep p v a) i j
    = Some ((x + y * timestep) + (0.5 * z) * (timestep * timestep))%float.
Proof.
  intros Hp Hv Ha. unfold advance_pos, map2.
  rewrite !cell_zip_with, !cell_maps, Hp, Hv, Ha. done.
Qed.

Lemma cell_advance_vel (v a b : grid) i j (y z w : float) :
  cell v i j = Some y → cell a i j = Some z → cell b i j = Some w →
  cell (advance_vel timestep v a b) i j
    = Some (y + (0.5 * (z + w)) * timestep)%float.
Proof.
  intros Hv Ha Hb. unfold advance_vel, map2.
  rewrite !cell_zip_with, !cell_maps, !cell_zip_with, Hv, Ha, Hb. done.
Qed.

End CellwiseUpdates.

(** C1. Static-particle invariant: with mesh-shaped arguments and at
    least one step the integration completes, and at every step [s] of
    the histories and every cell [(i, j)] with [particle_types[i, j] == 0]
    both [pos[s][i, j]] and [vel[s][i, j]] are 0. *)
Theorem static_particle_invariant
    (masses initial_pos : Np.grid) (particle_types : list (list Z))
    (k L0 d timestep : float) (n_steps ny nx : nat) :
  Np.has_shape ny nx masses →
  Np.has_shape ny nx initial_pos →
  Np.has_shape ny nx particle_types →
  n_steps ≠ 0 →
  ∃ h,
    integrate masses initial_pos particle_types k L0 d timestep n_steps = Some h
    ∧ length (pos h) = n_steps
    ∧ length (vel h) = n_steps
    ∧ ∀ s i j, s < n_steps →
        Np.cell particle_types i j = Some 0%Z →
        ∃ p v,
          pos h !! s = Some p ∧ vel h !! s = Some v
          ∧ Np.cell p i j = Some 0%float
          ∧ Np.cell v i j = Some 0%float.
Proof.
  intros Hm Hi Ht Hn.
  destruct (integrate_integrated masses initial_pos particle_types k L0 d
              timestep n_steps ny nx Hm Hi Ht Hn) as (h & Hrun & Hinv).
  destruct Hinv as [_ Hlp Hlv Hps Hvs Hpp Hvp _ _ _ _].
  exists h. split; [done|]. split; [done|]. split; [done|].
  intros s i j Hs Hcell.
  destruct (lookup_lt_is_Some_2 (pos h) s) as [p Hp]; [lia|].
  destruct (lookup_lt_is_Some_2 (vel h) s) as [v Hv]; [lia|].
  exists p, v. split; [done|]. split; [done|].
  destruct (NpFacts.cell_Some_lt ny nx particle_types i j _ Ht Hcell)
    as [Hi' Hj'].
  split.
  - eapply GridFacts.pinned_static_cell; try done.
    + exact (Forall_lookup_1 _ _ _ _ Hps Hp).
    + exact (Forall_lookup_1 _ _ _ _ Hpp Hp).
  - eapply GridFacts.pinned_static_cell; try done.
    + exact (Forall_lookup_1 _ _ _ _ Hvs Hv).
    + exact (Forall_lookup_1 _ _ _ _ Hvp Hv).
Qed.

Lemma static_particle_invariant_witness :
  ∃ h,
    integrate Mesh3.masses Mesh3.initial_pos Mesh3.particle_types
      1 1 1 0.5 3 = Some h
    ∧ length (pos h) = 3
    ∧ length (vel h) = 3
    ∧ ∀ s i j, s < 3 →
        Np.cell Mesh3.particle_types i j = Some 0%Z →
        ∃ p v,
          pos h !! s = Some p ∧ vel h !! s = Some v
          ∧ Np.cell p i j = Some 0%float
          ∧ Np.cell v i j = Some 0%float.
Proof.
  apply (static_particle_invariant Mesh3.masses Mesh3.initial_pos
           Mesh3.particle_types 1 1 1 0.5 3 3 3).
  - exact Mesh3Facts.masses_shape.
  - exact Mesh3Facts.initial_pos_shape.
  - exact Mesh3Facts.particle_types_shape.
  - lia.
Defined.

(** C2. Velocity-Verlet step semantics.  With mesh-shaped arguments and at
    least one step the integration completes with histories of length
    [n_steps] such that [time[0] = 0], [pos[0]] is [initial_pos] with the
    static cells zeroed, [vel[0] = 0], and for every step [s = 1 .. n_steps-1]:
    with [acc_then = forces(pos[s-1]) / masses] and
    [acc_now = forces(pos[s]) / masses],
    [pos[s] = pos[s-1] + vel[s-1]*dt + 0.5*acc_then*dt^2] and
    [vel[s] = vel[s-1] + 0.5*(acc_then + acc_now)*dt] at the dynamic cells,
    both are 0 at the static cells, and [time[s] = time[s-1] + dt]. *)
Theorem velocity_verlet_step_semantics
    (masses initial_pos : Np.grid) (particle_types : list (list Z))
    (k L0 d dt : float) (n_steps ny nx : nat) :
  Np.has_shape ny nx masses →
  Np.has_shape ny nx initial_pos →
  Np.has_shape ny nx particle_types →
  n_steps ≠ 0 →
  ∃ h,
    integrate masses initial_pos particle_types k L0 d dt n_steps = Some h
    ∧ length (time h) = n_steps
    ∧ length (pos h) = n_steps
    ∧ length (vel h) = n_steps
    ∧ time h !! 0 = Some 0%float
    ∧ pos h !! 0 = Some (pin_static particle_types initial_pos)
    ∧ vel h !! 0 = Some (Np.zeros ny nx)
    ∧ ∀ s, 1 ≤ s < n_steps →
        ∃ p v t forces_then p' v' forces_now,
          pos h !! (s - 1) = Some p
          ∧ vel h !! (s - 1) = Some v
          ∧ time h !! (s - 1) = Some t
          ∧ pos h !! s = Some p'
          ∧ vel h !! s = Some v'
          ∧ time h !! s = Some (t + dt)%float
          ∧ _calculate_forces k L0 d p = Some forces_then
          ∧ _calculate_forces k L0 d p' = Some forces_now
          ∧ ∀ i j, i < ny → j < nx →
              ∃ x y m f_then f_now ty,
                Np.cell p i j = Some x
                ∧ Np.cell v i j = Some y
                ∧ Np.cell masses i j = Some m
                ∧ Np.cell forces_then i j = Some f_then
                ∧ Np.cell forces_now i j = Some f_now
                ∧ Np.cell particle_types i j = Some ty
                ∧ Np.cell p' i j =
                    Some (if decide (ty = 0%Z) then 0
                          else (x + y * dt) + (0.5 * (f_then / m)) * (dt * dt))%float
                ∧ Np.cell v' i j =
                    Some (if decide (ty = 0%Z) then 0
                          else y + (0.5 * (f_then / m + f_now / m)) * dt)%float.
Proof.
  intros Hm Hi Ht Hn.
  destruct (integrate_integrated masses initial_pos particle_types k L0 d
              dt n_steps ny nx Hm Hi Ht Hn) as (h & Hrun & Hinv).
  destruct Hinv as [Hlt Hlp Hlv Hps Hvs _ _ Ht0 Hp0 Hv0 Hsteps].
  exists h. repeat (split; [done|]).
  intros s Hs.
  destruct (Hsteps s) as (p & v & t & f1 & f2 & Hp & Hv & Htm & Hf1 & Hrest);
    [lia|].
  simpl in Hrest. destruct Hrest as (Hp' & Hf2 & Hv' & Htm').
  eexists p, v, t, f1, _, _, f2.
  repeat (split; [done|]).
  intros i j Hi' Hj'.
  pose proof (Forall_lookup_1 _ _ _ _ Hps Hp) as Hpshape.
  pose proof (Forall_lookup_1 _ _ _ _ Hvs Hv) as Hvshape.
  pose proof (Forall_lookup_1 _ _ _ _ Hps Hp') as Hp'shape.
  destruct (calculate_forces_spec k L0 d ny nx p Hpshape)
    as (f1' & Hf1' & Hf1shape & _).
  destruct (calculate_forces_spec k L0 d ny nx _ Hp'shape)
    as (f2' & Hf2' & Hf2shape & _).
  unfold forces_of in Hf1, Hf2.
  assert (f1' = f1) as -> by congruence.
  assert (f2' = f2) as -> by congruence.
  destruct (NpFacts.cell_is_Some ny nx p i j) as [x Hx]; [done..|].
  destruct (NpFacts.cell_is_Some ny nx v i j) as [y Hy]; [done..|].
  destruct (NpFacts.cell_is_Some ny nx masses i j) as [m Hmc]; [done..|].
  destruct (NpFacts.cell_is_Some ny nx f1 i j) as [a Ha]; [done..|].
  destruct (NpFacts.cell_is_Some ny nx f2 i j) as [b Hb]; [done..|].
  destruct (NpFacts.cell_is_Some ny nx particle_types i j) as [ty Hty];
    [done..|].
  exists x, y, m, a, b, ty. repeat (split; [done|]).
  pose proof (cell_acceleration masses f1 i j a m Ha Hmc) as Hacc1.
  pose proof (cell_acceleration masses f2 i j b m Hb Hmc) as Hacc2.
  split.
  - rewrite GridFacts.cell_pin_static, Hty. simpl.
    rewrite (cell_advance_pos dt p v _ i j x y _ Hx Hy Hacc1). simpl.
    by case_decide.
  - rewrite GridFacts.cell_pin_static, Hty. simpl.
    rewrite (cell_advance_vel dt v _ _ i j y _ _ Hy Hacc1 Hacc2). simpl.
    by case_decide.
Qed.

Lemma velocity_verlet_step_semantics_witness :
  ∃ h,
    integrate Mesh3.masses Mesh3.initial_pos Mesh3.particle_types
      1 1 1 0.5 3 = Some h
    ∧ length (time h) = 3
    ∧ pos h !! 0 = Some (pin_static Mesh3.particle_types Mesh3.initial_pos).
Proof.
  destruct (velocity_verlet_step_semantics Mesh3.masses Mesh3.initial_pos
              Mesh3.particle_types 1 1 1 0.5 3 3 3
              Mesh3Facts.masses_shape Mesh3Facts.initial_pos_shape
              Mesh3Facts.particle_types_shape ltac:(lia))
    as (h & Hrun & Hlen & _ & _ & _ & Hpos0 & _).
  exists h. split; [exact Hrun|]. split; [exact Hlen | exact Hpos0].
Defined.

(** ** C4: the sample indices *)

(** C4, as stated, fails: the indices are computed in binary64 as
    [k * (1 / nRows) * historyLength], which can fall below the integer
    that [floor((k / nRows) * historyLength)] names.  With 7 rows over a
    history of 7 steps the index of row 5 is 4, not 5: the run below
    exports the time 2 of step 4 twice and never the time 2.5 of step 5. *)
Lemma resampling_formula_counterexample :
  sample_index 7 7 5 = 4%Z
  ∧ spec_sample_index 7 7 5 = 5%Z
  ∧ spec_sample_index_float 7 7 5 = 5%Z
  ∧ time <$> integrate Mesh3.masses Mesh3.initial_pos Mesh3.particle_types
               1 1 1 0.5 7
    = Some [0; 0.5; 1; 1.5; 2; 2.5; 3]%float
  ∧ fst <$> simulate 2.5 (Round.np_round 3)
              Mesh3.masses Mesh3.initial_pos Mesh3.particle_types
              1 1 1 0.5 7
    = Some [0; 0.5; 1; 1.5; 2; 2; 3]%float.
Proof. repeat split; vm_compute; reflexivity. Qed.

(** C4, amended.  The exporter computes [nRows = int(FPS * time[last])] on
    the rounded times and, for [k = 0 .. nRows-1], the index
    [idx[k] = int64((k * (1 / nRows) + 0) * historyLength)] in binary64.  For
    mesh-shaped arguments, a history of fewer than [2^53] steps and a row
    count of at most [2^48], every index satisfies
    [0 <= idx[k] < historyLength], also when [nRows] exceeds the history
    length; the export succeeds, and it has [nRows] frames: row [k] holds
    the rounded time and displacement grid of step [idx[k]]. *)
Theorem resampling_bounds (FPS : float) (round_dec : float → float)
    (masses initial_pos : Np.grid) (particle_types : list (list Z))
    (k L0 d dt : float) (n_steps ny nx : nat) :
  Np.has_shape ny nx masses →
  Np.has_shape ny nx initial_pos →
  Np.has_shape ny nx particle_types →
  n_steps ≠ 0 →
  (Z.of_nat n_steps < 2 ^ 53)%Z →
  ∃ h,
    integrate masses initial_pos particle_types k L0 d dt n_steps = Some h
    ∧ length (time h) = n_steps
    ∧ length (pos h) = n_steps
    ∧ ∀ n_rows : nat,
        row_count FPS (map round_dec (time h)) = Some (Z.of_nat n_rows) →
        (Z.of_nat n_rows ≤ 2 ^ 48)%Z →
        (∀ r, r < n_rows →
           (0 ≤ sample_index n_rows n_steps r < Z.of_nat n_steps)%Z)
        ∧ ∃ ts ps,
            simulate FPS round_dec masses initial_pos particle_types
              k L0 d dt n_steps = Some (ts, ps)
            ∧ length ts = n_rows
            ∧ length ps = n_rows
            ∧ ∀ r, r < n_rows →
                let s := Z.to_nat (sample_index n_rows n_steps r) in
                ts !! r = round_dec <$> time h !! s
                ∧ ps !! r = Np.maps round_dec <$> pos h !! s.
Proof.
  intros Hm Hi Ht Hn Hsmall.
  destruct (integrate_integrated masses initial_pos particle_types k L0 d
              dt n_steps ny nx Hm Hi Ht Hn) as (h & Hrun & Hinv).
  destruct Hinv as [Hlt Hlp _ _ _ _ _ _ _ _ _].
  exists h. split; [done|]. split; [done|]. split; [done|].
  intros n_rows Hrows Hbig.
  assert (Hidx : ∀ r, r < n_rows →
    (0 ≤ sample_index n_rows n_steps r < Z.of_nat n_steps)%Z).
  { intros r Hr. apply IndexBound.sample_index_bounds; [done|done|lia]. }
  split; [done|].
  unfold simulate. rewrite Hrun. simpl.
  rewrite <- Hlt in Hidx |- *.
  apply export_in_range; [congruence|done|done].
Qed.

Lemma resampling_bounds_witness :
  ∃ ts ps,
    simulate 2.5 (Round.np_round 3)
      Mesh3.masses Mesh3.initial_pos Mesh3.particle_types 1 1 1 0.5 7
    = Some (ts, ps)
    ∧ length ts = 7
    ∧ length ps = 7.
Proof.
  destruct (resampling_bounds 2.5 (Round.np_round 3)
              Mesh3.masses Mesh3.initial_pos Mesh3.particle_types
              1 1 1 0.5 7 3 3
              Mesh3Facts.masses_shape Mesh3Facts.initial_pos_shape
              Mesh3Facts.particle_types_shape ltac:(lia) ltac:(lia))
    as (h & Hrun & _ & _ & Hrows).
  vm_compute in Hrun. injection Hrun as <-.
  destruct (Hrows 7 ltac:(vm_compute; reflexivity) ltac:(lia))
    as (_ & ts & ps & Hsim & Hlts & Hlps & _).
  exists ts, ps. split; [exact Hsim|]. split; [exact Hlts | exact Hlps].
Defined.

(** ** C5: no rows to export *)

(** C5. Degenerate resampling.  Whenever the row count is 0 the exporter
    returns an empty time series and an empty displacement array instead
    of failing.  In particular a single-step run ([n_steps = 1]), for a
    finite [FPS] and a rounding that keeps 0, has a history of length 1
    with [time[0] = 0], a row count of 0 and the empty export. *)
Theorem degenerate_resampling_is_empty (FPS : float) (round_dec : float → float) :
  (∀ h, row_count FPS (map round_dec (time h)) = Some 0%Z →
        export FPS round_dec h = Some ([], []))
  ∧ (Conv.is_finite FPS = true → round_dec 0%float = 0%float →
     ∀ masses initial_pos particle_types k L0 d dt,
       ∃ h,
         integrate masses initial_pos particle_types k L0 d dt 1 = Some h
         ∧ time h = [0%float]
         ∧ length (pos h) = 1
         ∧ row_count FPS (map round_dec (time h)) = Some 0%Z
         ∧ simulate FPS round_dec masses initial_pos particle_types
             k L0 d dt 1 = Some ([], [])).
Proof.
  split; [apply export_no_rows|].
  intros Hfps Hround masses initial_pos particle_types k L0 d dt.
  unfold simulate, integrate, initial_history.
  destruct (Np.shape initial_pos) as [ny nx]. simpl.
  eexists. split; [done|]. simpl. split; [done|]. split; [done|].
  assert (Hrows : row_count FPS [round_dec 0%float] = Some 0%Z).
  { unfold row_count. simpl. rewrite Hround. unfold Conv.py_int.
    destruct (FloatFacts.mul_zero_r FPS Hfps) as [s Hs].
    by apply (FloatFacts.trunc_zero _ s). }
  split; [done|]. by apply export_no_rows.
Qed.

Lemma degenerate_resampling_is_empty_witness :
  Conv.is_finite 60 = true
  ∧ Round.np_round 3 0 = 0%float
  ∧ simulate 60 (Round.np_round 3)
      Mesh3.masses Mesh3.initial_pos Mesh3.particle_types 1 1 1 0.5 1
    = Some ([], []).
Proof.
  split; [reflexivity|]. split; [reflexivity|].
  destruct (proj2 (degenerate_resampling_is_empty 60 (Round.np_round 3))
              eq_refl eq_refl
              Mesh3.masses Mesh3.initial_pos Mesh3.particle_types 1 1 1 0.5)%float
    as (h & _ & _ & _ & _ & Hsim).
  exact Hsim.
Defined.

(** ** C6: a zero mass *)

(** C6, as stated, fails: with a massless dynamic centre particle and two
    steps the run does not abort; it exports both frames, the second with
    an infinite displacement at the massless cell. *)
Lemma zero_mass_counterexample :
  Np.cell Mesh3.massless_centre 1 1 = Some 0%float
  ∧ Np.cell Mesh3.particle_types 1 1 = Some 1%Z
  ∧ simulate 4 (Round.np_round 3)
      Mesh3.massless_centre Mesh3.initial_pos Mesh3.particle_types
      1 1 1 0.5 2
    = Some ([0; 0.5],
            [[[0; 0; 0]; [0; 0.5; 0]; [0; 0; 0]];
             [[0; 0; 0]; [0; neg_infinity; 0]; [0; 0; 0]]])%float.
Proof. repeat split; vm_compute; reflexivity. Qed.

(** *** Numbers that are not finite *)

Module NonFinite.

Lemma eqb_zero (x : float) :
  (x =? 0)%float = true → ∃ s, Prim2SF x = S754_zero s.
Proof.
  rewrite FloatAxioms.eqb_spec. change (Prim2SF 0) with (S754_zero false).
  destruct (Prim2SF x) as [s | s | | s m e]; unfold SFeqb; simpl.
  - by eauto.
  - by destruct s.
  - done.
  - by destruct s.
Qed.

(** A division by a zero yields an infinity or [nan]. *)
Lemma div_zero (f m : float) :
  (m =? 0)%float = true → Conv.is_finite (f / m) = false.
Proof.
  intros Hm. apply eqb_zero in Hm as [s Hm]. unfold Conv.is_finite.
  rewrite FloatAxioms.div_spec, Hm. unfold SF64div, SFdiv.
  by destruct (Prim2SF f) as [s' | s' | | s' m' e'].
Qed.

Lemma mul_l (x a : float) :
  Conv.is_finite x = false → Conv.is_finite (x * a) = false.
Proof.
  unfold Conv.is_finite. rewrite FloatAxioms.mul_spec.
  unfold SF64mul, SFmul.
  destruct (Prim2SF x) as [s | s | | s m e]; try done;
    by destruct (Prim2SF a) as [s' | s' | | s' m' e'].
Qed.

Lemma mul_r (a x : float) :
  Conv.is_finite x = false → Conv.is_finite (a * x) = false.
Proof.
  unfold Conv.is_finite. rewrite FloatAxioms.mul_spec.
  unfold SF64mul, SFmul.
  destruct (Prim2SF x) as [s | s | | s m e]; try done;
    by destruct (Prim2SF a) as [s' | s' | | s' m' e'].
Qed.

Lemma add_r (a x : float) :
  Conv.is_finite x = false → Conv.is_finite (a + x) = false.
Proof.
  unfold Conv.is_finite. rewrite FloatAxioms.add_spec.
  unfold SF64add, SFadd.
  destruct (Prim2SF x) as [s | s | | s m e]; try done;
    destruct (Prim2SF a) as [s' | s' | | s' m' e']; try done;
    by destruct s, s'.
Qed.

(** The displacement that the loop writes for a massless particle. *)
Lemma massless_displacement (x y f m dt : float) :
  (m =? 0)%float = true →
  Conv.is_finite ((x + y * dt) + (0.5 * (f / m)) * (dt * dt)) = false.
Proof.
  intros Hm. apply add_r, mul_l, mul_r. by apply div_zero.
Qed.

End NonFinite.

(** C6, amended.  A zero mass is not fatal: a division by it yields an
    infinity or [nan] and raises nothing, so for every mesh-shaped mass
    grid the integration loop completes with full histories; at every step
    [s >= 1] the displacement of a dynamic cell of mass 0 is an infinity or
    [nan] (step 0 holds its initial displacement); every exported frame is
    the rounding of one step of that history; and whether the export
    fails, and the exported time series, are the same for any two mass
    grids. *)
Theorem zero_mass_is_not_fatal (FPS : float) (round_dec : float → float)
    (masses masses' initial_pos : Np.grid) (particle_types : list (list Z))
    (k L0 d dt : float) (n_steps ny nx : nat) :
  Np.has_shape ny nx masses →
  Np.has_shape ny nx masses' →
  Np.has_shape ny nx initial_pos →
  Np.has_shape ny nx particle_types →
  n_steps ≠ 0 →
  (∃ h,
     integrate masses initial_pos particle_types k L0 d dt n_steps = Some h
     ∧ length (time h) = n_steps
     ∧ length (pos h) = n_steps
     ∧ length (vel h) = n_steps
     ∧ (∀ s i j m ty,
          1 ≤ s < n_steps →
          Np.cell masses i j = Some m → (m =? 0)%float = true →
          Np.cell particle_types i j = Some ty → ty ≠ 0%Z →
          ∃ p x,
            pos h !! s = Some p
            ∧ Np.cell p i j = Some x
            ∧ Conv.is_finite x = false)
     ∧ (∀ ts ps,
          simulate FPS round_dec masses initial_pos particle_types
            k L0 d dt n_steps = Some (ts, ps) →
          ∀ r frame, ps !! r = Some frame →
            ∃ s p,
              s < n_steps
              ∧ pos h !! s = Some p
              ∧ frame = Np.maps round_dec p))
  ∧ fst <$> simulate FPS round_dec masses initial_pos particle_types
              k L0 d dt n_steps
    = fst <$> simulate FPS round_dec masses' initial_pos particle_types
                k L0 d dt n_steps.
Proof.
  intros Hm Hm' Hi Ht Hn.
  destruct (integrate_integrated masses initial_pos particle_types k L0 d
              dt n_steps ny nx Hm Hi Ht Hn) as (h & Hrun & Hinv).
  destruct (integrate_integrated masses' initial_pos particle_types k L0 d
              dt n_steps ny nx Hm' Hi Ht Hn) as (h' & Hrun' & Hinv').
  pose proof (integrated_time _ _ _ _ _ _ _ _ _ _ h Hinv) as Htime.
  pose proof (integrated_time _ _ _ _ _ _ _ _ _ _ h' Hinv') as Htime'.
  destruct Hinv as [Hlt Hlp Hlv Hps Hvs _ _ _ _ _ Hsteps].
  destruct Hinv' as [Hlt' Hlp' Hlv' _ _ _ _ _ _ _ _].
  split.
  - exists h. repeat (split; [done|]). split.
    + intros s i j m ty Hs Hmass Hzero Hty Hdyn.
      destruct (Hsteps s) as (p & v & t & f1 & f2 & Hp & Hv & _ & Hf1 & Hrest);
        [lia|].
      simpl in Hrest. destruct Hrest as (Hp' & _).
      destruct (NpFacts.cell_Some_lt ny nx masses i j _ Hm Hmass) as [Hi' Hj'].
      pose proof (Forall_lookup_1 _ _ _ _ Hps Hp) as Hpshape.
      pose proof (Forall_lookup_1 _ _ _ _ Hvs Hv) as Hvshape.
      destruct (calculate_forces_spec k L0 d ny nx p Hpshape)
        as (f1' & Hf1' & Hf1shape & _).
      unfold forces_of in Hf1. assert (f1' = f1) as -> by congruence.
      destruct (NpFacts.cell_is_Some ny nx p i j) as [x Hx]; [done..|].
      destruct (NpFacts.cell_is_Some ny nx v i j) as [y Hy]; [done..|].
      destruct (NpFacts.cell_is_Some ny nx f1 i j) as [a Ha]; [done..|].
      pose proof (cell_acceleration masses f1 i j a m Ha Hmass) as Hacc.
      eexists _, _. split; [exact Hp'|]. split.
      * rewrite GridFacts.cell_pin_static, Hty. simpl.
        rewrite (cell_advance_pos dt p v _ i j x y _ Hx Hy Hacc). simpl.
        by rewrite decide_False.
      * by apply NonFinite.massless_displacement.
    + intros ts ps. unfold simulate. rewrite Hrun. simpl.
      rewrite export_Some. intros (n & _ & _ & _ & Hrows) r frame Hr.
      destruct (Forall2_lookup_r _ _ _ _ _ Hrows Hr) as (idx & _ & Hitem).
      unfold Np.item in Hitem.
      destruct (Np.index _ idx) as [s|]; [|done]. simpl in Hitem.
      change (map ?f ?l) with (f <$> l) in Hitem.
      rewrite list_lookup_fmap in Hitem.
      destruct (pos h !! s) as [p|] eqn:Hp; [|done]. injection Hitem as <-.
      exists s, p. split; [|done].
      apply lookup_lt_Some in Hp. lia.
  - unfold simulate. rewrite Hrun, Hrun'. simpl.
    apply export_times; congruence.
Qed.

Lemma zero_mass_is_not_fatal_witness :
  ∃ h p x,
    integrate Mesh3.massless_centre Mesh3.initial_pos Mesh3.particle_types
      1 1 1 0.5 2 = Some h
    ∧ pos h !! 1 = Some p
    ∧ Np.cell p 1 1 = Some x
    ∧ Conv.is_finite x = false.
Proof.
  destruct (zero_mass_is_not_fatal 4 (Round.np_round 3)
              Mesh3.massless_centre Mesh3.masses Mesh3.initial_pos
              Mesh3.particle_types 1 1 1 0.5 2 3 3
              Mesh3Facts.massless_centre_shape Mesh3Facts.masses_shape
              Mesh3Facts.initial_pos_shape Mesh3Facts.particle_types_shape
              ltac:(lia))
    as ((h & Hrun & _ & _ & _ & Hcells & _) & _).
  destruct (Hcells 1 1 1 0%float 1%Z ltac:(lia) eq_refl eq_refl eq_refl
              ltac:(lia)) as (p & x & Hp & Hx & Hinf).
  exists h, p, x. split; [exact Hrun|]. split; [exact Hp|].
  split; [exact Hx | exact Hinf].
Defined.

(** ** C8: what [simulate] returns *)

(** C8, as stated, fails: the velocity history is no part of the result.
    Two runs that differ in the elastic constant return the same value,
    although their velocity histories differ. *)
Lemma velocity_history_counterexample :
  simulate 4 (Round.np_round 3)
    Mesh3.masses Mesh3.initial_pos Mesh3.particle_types 0x1p-20 1 1 0.5 2
  = simulate 4 (Round.np_round 3)
      Mesh3.masses Mesh3.initial_pos Mesh3.particle_types 0x1p-21 1 1 0.5 2
  ∧ vel <$> integrate
              Mesh3.masses Mesh3.initial_pos Mesh3.particle_types
              0x1p-20 1 1 0.5 2
    ≠ vel <$> integrate
                Mesh3.masses Mesh3.initial_pos Mesh3.particle_types
                0x1p-21 1 1 0.5 2.
Proof.
  split; [vm_compute; reflexivity|].
  intros H.
  apply (f_equal (λ o, match o with
                       | Some [_; [_; [_; x; _]; _]] => Prim2SF x
                       | _ => S754_nan
                       end)) in H.
  vm_compute in H. discriminate.
Qed.

(** C8, amended.  For mesh-shaped arguments and at least one step the
    integration completes, and [simulate] returns a pair: the time series
    and the displacement history, rounded and resampled, and nothing
    else.  It returns [(ts, ps)] exactly when the row count [n_rows] is
    defined and not negative, every sample index is inside the history,
    both [ts] and [ps] have [n_rows] entries, and their entries [k] are the
    rounded time and the rounded displacement grid of the step at the
    [k]-th sample index. *)
Theorem simulate_returns_times_and_positions
    (FPS : float) (round_dec : float → float)
    (masses initial_pos : Np.grid) (particle_types : list (list Z))
    (k L0 d dt : float) (n_steps ny nx : nat) :
  Np.has_shape ny nx masses →
  Np.has_shape ny nx initial_pos →
  Np.has_shape ny nx particle_types →
  n_steps ≠ 0 →
  ∃ h,
    integrate masses initial_pos particle_types k L0 d dt n_steps = Some h
    ∧ length (time h) = n_steps
    ∧ length (pos h) = n_steps
    ∧ ∀ ts ps,
        simulate FPS round_dec masses initial_pos particle_types
          k L0 d dt n_steps = Some (ts, ps)
        ↔ ∃ n_rows : nat,
            row_count FPS (map round_dec (time h)) = Some (Z.of_nat n_rows)
            ∧ length ts = n_rows
            ∧ length ps = n_rows
            ∧ ∀ r, r < n_rows →
                ∃ s,
                  Np.index n_steps (sample_index n_rows n_steps r) = Some s
                  ∧ ts !! r = round_dec <$> time h !! s
                  ∧ ps !! r = Np.maps round_dec <$> pos h !! s.
Proof.
  intros Hm Hi Ht Hn.
  destruct (integrate_integrated masses initial_pos particle_types k L0 d
              dt n_steps ny nx Hm Hi Ht Hn) as (h & Hrun & Hinv).
  destruct Hinv as [Hlt Hlp _ _ _ _ _ _ _ _ _].
  exists h. split; [done|]. split; [done|]. split; [done|].
  intros ts ps. unfold simulate. rewrite Hrun. simpl.
  rewrite export_Some, Hlt.
  assert (Hitem : ∀ (A B : Type) (f : A → B) (a : list A) (i : Z) (y : B),
    length a = n_steps →
    Np.item (map f a) i = Some y
    ↔ ∃ s, Np.index n_steps i = Some s ∧ Some y = f <$> a !! s).
  { intros A B f a i y Hla. unfold Np.item. rewrite length_map, Hla.
    destruct (Np.index n_steps i) as [s|]; simpl.
    - change (map f a) with (f <$> a). rewrite list_lookup_fmap. split.
      + intros Hy. by exists s.
      + by intros (s' & [= <-] & ->).
    - split; [done|]. by intros (s' & [=] & _). }
  split.
  - intros (n & Hrows & Hpos & Hts & Hps).
    exists (Z.to_nat n). rewrite Z2Nat.id by done.
    pose proof (Forall2_length _ _ _ Hts) as Hlts.
    pose proof (Forall2_length _ _ _ Hps) as Hlps.
    rewrite length_sample_indices in Hlts, Hlps.
    split; [done|]. split; [done|]. split; [done|].
    intros r Hr.
    destruct (lookup_lt_is_Some_2 ts r) as [t Htr]; [lia|].
    destruct (lookup_lt_is_Some_2 ps r) as [p Hpr]; [lia|].
    pose proof (lookup_sample_indices (Z.to_nat n) n_steps r Hr) as Hidx.
    pose proof (Forall2_lookup_lr _ _ _ _ _ _ Hts Hidx Htr) as Ht1.
    pose proof (Forall2_lookup_lr _ _ _ _ _ _ Hps Hidx Hpr) as Hp1.
    apply Hitem in Ht1 as (s & Hs & Hts1); [|done].
    apply Hitem in Hp1 as (s' & Hs' & Hps1); [|done].
    exists s. split; [done|]. rewrite Htr, Hpr. split; [done|]. congruence.
  - intros (n & Hrows & Hlts & Hlps & Hrowsat).
    exists (Z.of_nat n). rewrite Nat2Z.id.
    split; [done|]. split; [lia|].
    split; apply Forall2_same_length_lookup;
      (split; [by rewrite length_sample_indices|]);
      intros r i y Hri Hry;
      assert (Hr : r < n)
        by (apply lookup_lt_Some in Hri;
            by rewrite length_sample_indices in Hri);
      rewrite lookup_sample_indices in Hri by done; injection Hri as <-;
      destruct (Hrowsat r Hr) as (s & Hs & Hts & Hps);
      apply Hitem; [done| |done|]; exists s; (split; [done|]); congruence.
Qed.

Lemma simulate_returns_times_and_positions_witness :
  ∃ h,
    integrate Mesh3.masses Mesh3.initial_pos Mesh3.particle_types
      1 1 1 0.5 2 = Some h
    ∧ length (time h) = 2.
Proof.
  destruct (simulate_returns_times_and_positions 4 (Round.np_round 3)
              Mesh3.masses Mesh3.initial_pos Mesh3.particle_types
              1 1 1 0.5 2 3 3
              Mesh3Facts.masses_shape Mesh3Facts.initial_pos_shape
              Mesh3Facts.particle_types_shape ltac:(lia))
    as (h & Hrun & Hlen & _).
  exists h. split; [exact Hrun | exact Hlen].
Defined.

(** ** C9: a mesh of static particles *)


(** The same on every mesh of static particles: whatever the initial
    displacement, the displacement grid of every step is the zero grid,
    which is the grid of step 0, and after rounding every cell of every
    step is the rounding of 0. *)
Theorem all_static_history_is_zero (round_dec : float → float)
    (masses initial_pos : Np.grid) (particle_types : list (list Z))
    (k L0 d dt : float) (n_steps ny nx : nat) :
  Np.has_shape ny nx masses →
  Np.has_shape ny nx initial_pos →
  Np.has_shape ny nx particle_types →
  n_steps ≠ 0 →
  (∀ i j, i < ny → j < nx → Np.cell particle_types i j = Some 0%Z) →
  ∃ h,
    integrate masses initial_pos particle_types k L0 d dt n_steps = Some h
    ∧ pin_static particle_types initial_pos = Np.zeros ny nx
    ∧ ∀ s, s < n_steps →
        pos h !! s = Some (Np.zeros ny nx)
        ∧ pos h !! s = pos h !! 0
        ∧ map (Np.maps round_dec) (pos h) !! s
          = Some (replicate ny (replicate nx (round_dec 0%float))).
Proof.
  intros Hm Hi Ht Hn Hall.
  destruct (integrate_integrated masses initial_pos particle_types k L0 d
              dt n_steps ny nx Hm Hi Ht Hn) as (h & Hrun & Hinv).
  destruct Hinv as [_ Hlp _ Hps _ Hpp _ _ Hp0 _ _].
  exists h. split; [done|].
  assert (Hzero : ∀ s, s < n_steps → pos h !! s = Some (Np.zeros ny nx)).
  { intros s Hs.
    destruct (lookup_lt_is_Some_2 (pos h) s) as [p Hp]; [lia|].
    rewrite Hp. f_equal.
    rewrite <- (Forall_lookup_1 _ _ _ _ Hpp Hp).
    apply pin_static_all_static; [done| |done].
    exact (Forall_lookup_1 _ _ _ _ Hps Hp). }
  split; [by apply pin_static_all_static|].
  intros s Hs. split; [by apply Hzero|]. split.
  - rewrite !Hzero by lia. done.
  - change (map ?f ?l) with (f <$> l). rewrite list_lookup_fmap, Hzero by done.
    simpl. f_equal. unfold Np.maps, Np.zeros.
    change (map ?f ?l) with (f <$> l). by rewrite !fmap_replicate.
Qed.

Lemma all_static_history_is_zero_witness :
  ∃ h,
    integrate [[1%float]] [[1%float]] [[0%Z]] 1 1 1 0.5 2 = Some h
    ∧ pos h !! 1 = Some (Np.zeros 1 1).
Proof.
  assert (Hs : Np.has_shape 1 1 [[1%float]])
    by (split; [reflexivity | repeat constructor]).
  assert (Ht : Np.has_shape 1 1 [[0%Z]])
    by (split; [reflexivity | repeat constructor]).
  assert (Hall : ∀ i j, i < 1 → j < 1 → Np.cell [[0%Z]] i j = Some 0%Z).
  { intros i j Hi Hj. destruct i; [|lia]. destruct j; [reflexivity|lia]. }
  destruct (all_static_history_is_zero (Round.np_round 3)
              [[1%float]] [[1%float]] [[0%Z]] 1 1 1 0.5 2 1 1
              Hs Hs Ht ltac:(lia) Hall)
    as (h & Hrun & _ & Hsteps).
  exists h. split; [exact Hrun|]. apply (Hsteps 1). lia.
Defined.

(** ** C7: the divisor of the force stencil *)

Module LengthFacts.
Import Binary64 Class.
Local Open Scope Z_scope.

Lemma ltb_zero_positive (x : float) :
  (0 <? x)%float = true → is_positive (Prim2SF x).
Proof.
  rewrite FloatAxioms.ltb_spec. change (Prim2SF 0) with (S754_zero false).
  unfold SFltb, SFcompare. destruct (Prim2SF x) as [s | [ | ] | | [ | ] m e]; done.
Qed.






End LengthFacts.




(** ** C10: a level mesh *)

Module LevelFacts.
Import Binary64 Class.

(** The difference of a finite number and itself is [+0]. *)
Lemma sub_diag (c : float) : Conv.is_finite c = true → (c - c)%float = 0%float.
Proof.
  unfold Conv.is_finite. intros Hc. apply Prim2SF_inj.
  rewrite FloatAxioms.sub_spec. change (Prim2SF 0) with (S754_zero false).
  unfold SF64sub, SFsub.
  destruct (Prim2SF c) as [s|s| |s m e]; try done.
  - by destruct s.
  - by rewrite Z.sub_diag.
Qed.

(** A zero divided by a positive number is a zero. *)
Lemma div_zero_l (z x : float) (s : bool) :
  Prim2SF z = S754_zero s → is_positive (Prim2SF x) →
  Prim2SF (z / x) = S754_zero s.
Proof.
  intros Hz Hx. rewrite FloatAxioms.div_spec, Hz. unfold SF64div, SFdiv.
  destruct (Prim2SF x) as [sx|sx| |sx mx ex]; simpl in Hx; try done; subst sx;
    by destruct s.
Qed.

(** Adding a zero to [+0] leaves [+0]. *)
Lemma add_zero (x z : float) (s : bool) :
  x = 0%float → Prim2SF z = S754_zero s → (x + z)%float = 0%float.
Proof.
  intros -> Hz. apply Prim2SF_inj. rewrite FloatAxioms.add_spec, Hz.
  change (Prim2SF 0) with (S754_zero false). by destruct s.
Qed.

Section Level.

Variables (k L0 d : float).

(** The length of a spring between two particles at the same height. *)
Local Abbreviation level_length := (spring_length d 0 0).

Hypothesis level_length_positive : (0 <? level_length)%float = true.
Hypothesis tension_finite :
  Conv.is_finite (- k * (level_length - L0))%float = true.

(** The force of a spring between two particles at the same finite
    height is a zero. *)
Lemma spring_force_level (c : float) :
  Conv.is_finite c = true →
  ∃ s, Prim2SF (spring_force k L0 d c c) = S754_zero s.
Proof using level_length_positive tension_finite.
  intros Hc. unfold spring_force, spring_length.
  rewrite (sub_diag c Hc).
  change (0 - 0)%float with 0%float in *.
  fold (spring_length d 0 0).
  destruct (FloatFacts.mul_zero_r _ tension_finite) as [s Hs].
  exists s. apply div_zero_l; [done|].
  by apply LengthFacts.ltb_zero_positive.
Qed.

Lemma neighbour_sum_level (c : float) :
  Conv.is_finite c = true → neighbour_sum k L0 d 0 c c c c c = 0%float.
Proof using level_length_positive tension_finite.
  intros Hc. destruct (spring_force_level c Hc) as [s Hs].
  assert (H0 : (0 + spring_force k L0 d c c)%float = 0%float)
    by (by apply (add_zero _ _ s)).
  unfold neighbour_sum. by rewrite !H0.
Qed.

End Level.

Lemma has_shape_constant {A : Type} ny nx (c : A) :
  Np.has_shape ny nx (replicate ny (replicate nx c)).
Proof.
  split; [apply length_replicate|].
  apply Forall_replicate, length_replicate.
Qed.

Lemma cell_constant {A : Type} ny nx (c : A) i j :
  i < ny → j < nx → Np.cell (replicate ny (replicate nx c)) i j = Some c.
Proof.
  intros Hi Hj. unfold Np.cell.
  rewrite lookup_replicate_2 by done. simpl. by rewrite lookup_replicate_2.
Qed.

End LevelFacts.

(** C10, as stated, fails: for [d = 0] and the level grid of height 0 the
    spring length is 0, each term is [0 / 0], and the force at the
    interior cell is [nan]. *)
Lemma uniform_equilibrium_counterexample :
  _calculate_forces 1 1 0 (replicate 3 (replicate 3 0%float))
  = Some [[0; 0; 0]; [0; nan; 0]; [0; 0; 0]]%float.
Proof. vm_compute. reflexivity. Qed.

(** C10, amended.  For every grid whose cells hold one finite value, and
    every [k], [L0] and [d] such that the length [l = sqrt(d^2 + 0^2)] of a
    level spring is positive and [-k * (l - L0)] is finite,
    [_calculate_forces] returns the all-zero force grid. *)
Theorem uniform_equilibrium (k L0 d c : float) (ny nx : nat) :
  Conv.is_finite c = true →
  (0 <? spring_length d 0 0)%float = true →
  Conv.is_finite (- k * (spring_length d 0 0 - L0))%float = true →
  _calculate_forces k L0 d (replicate ny (replicate nx c))
  = Some (Np.zeros ny nx).
Proof.
  intros Hc Hlen Hk.
  destruct (calculate_forces_spec k L0 d ny nx
              (replicate ny (replicate nx c))
              (LevelFacts.has_shape_constant ny nx c))
    as (f & -> & Hshape & Hcells).
  f_equal. apply (GridFacts.grid_ext ny nx); [done|apply NpFacts.has_shape_zeros|].
  intros i j Hi Hj. rewrite Hcells, NpFacts.cell_zeros by done.
  case_decide as Hint; [|done].
  destruct Hint as (? & ? & ? & ?).
  unfold stencil. rewrite !LevelFacts.cell_constant by lia. simpl.
  f_equal. by apply LevelFacts.neighbour_sum_level.
Qed.

Lemma uniform_equilibrium_witness :
  _calculate_forces 1 1 1 (replicate 3 (replicate 3 0.5%float))
  = Some (Np.zeros 3 3).
Proof.
  apply (uniform_equilibrium 1 1 1 0.5 3 3); reflexivity.
Defined.

(** * More of [simulate]: rest, shapes and the first row *)

(** ** At rest *)

Module RestFacts.
Import Binary64 Class.

(** Adding a zero to a number that is not [-0] changes nothing. *)
Lemma add_zero_r (p z : float) (s : bool) :
  Prim2SF p ≠ S754_zero true → Prim2SF z = S754_zero s → (p + z)%float = p.
Proof.
  intros Hp Hz. apply Prim2SF_inj. rewrite FloatAxioms.add_spec, Hz.
  unfold SF64add, SFadd.
  destruct (Prim2SF p) as [sp|sp| |sp mp ep]; try done.
  destruct sp; [done|]. by destruct s.
Qed.

(** A zero times a finite number is a zero. *)
Lemma zero_mul_finite (z x : float) (s : bool) :
  Prim2SF z = S754_zero s → Conv.is_finite x = true →
  ∃ s', Prim2SF (z * x) = S754_zero s'.
Proof.
  unfold Conv.is_finite. intros Hz Hx.
  rewrite FloatAxioms.mul_spec, Hz. unfold SF64mul, SFmul.
  destruct (Prim2SF x) as [sx|sx| |sx mx ex]; try discriminate; eauto.
Qed.

(** A half of a zero is a zero. *)
Lemma half_zero (z : float) (s : bool) :
  Prim2SF z = S754_zero s → Prim2SF (0.5 * z) = S754_zero s.
Proof.
  intros Hz. rewrite FloatAxioms.mul_spec, Hz.
  change (Prim2SF 0.5) with (S754_finite false 4503599627370496 (-53)). done.
Qed.

Lemma add_zeros (a b : float) (sa sb : bool) :
  Prim2SF a = S754_zero sa → Prim2SF b = S754_zero sb →
  ∃ s, Prim2SF (a + b) = S754_zero s.
Proof.
  intros Ha Hb. rewrite FloatAxioms.add_spec, Ha, Hb.
  destruct sa, sb; simpl; eauto.
Qed.

Section Rest.

Variables (timestep m : float).
Hypothesis timestep_finite : Conv.is_finite timestep = true.
Hypothesis timestep_square_finite : Conv.is_finite (square timestep) = true.
Hypothesis mass_positive : (0 <? m)%float = true.

(** The position update of a particle at rest on which no force acts. *)
Lemma position_at_rest (p f : float) (s : bool) :
  Prim2SF p ≠ S754_zero true → Prim2SF f = S754_zero s →
  ((p + 0 * timestep) + (0.5 * (f / m)) * (timestep * timestep))%float = p.
Proof using timestep_finite timestep_square_finite mass_positive.
  intros Hp Hf.
  destruct (zero_mul_finite 0 timestep false eq_refl timestep_finite) as [s1 H1].
  rewrite (add_zero_r p _ s1 Hp H1).
  pose proof (LevelFacts.div_zero_l f m s Hf
                (LengthFacts.ltb_zero_positive m mass_positive)) as Ha.
  pose proof (half_zero _ _ Ha) as Hh.
  destruct (zero_mul_finite _ (timestep * timestep) s Hh timestep_square_finite)
    as [s2 H2].
  by rewrite (add_zero_r p _ s2 Hp H2).
Qed.

(** The velocity update of a particle at rest on which no force acts. *)
Lemma velocity_at_rest (f1 f2 : float) (s1 s2 : bool) :
  Prim2SF f1 = S754_zero s1 → Prim2SF f2 = S754_zero s2 →
  (0 + (0.5 * (f1 / m + f2 / m)) * timestep)%float = 0%float.
Proof using timestep_finite mass_positive.
  intros Hf1 Hf2.
  pose proof (LengthFacts.ltb_zero_positive m mass_positive) as Hm.
  pose proof (LevelFacts.div_zero_l f1 m s1 Hf1 Hm) as Ha1.
  pose proof (LevelFacts.div_zero_l f2 m s2 Hf2 Hm) as Ha2.
  destruct (add_zeros _ _ _ _ Ha1 Ha2) as [s Hs].
  pose proof (half_zero _ _ Hs) as Hh.
  destruct (zero_mul_finite _ timestep s Hh timestep_finite) as [s' Hs'].
  by apply (LevelFacts.add_zero _ _ s').
Qed.

End Rest.

End RestFacts.

Section RestSteps.
Import Np NpFacts GridFacts.

Variable masses : grid.
Variable initial_pos : grid.
Variable particle_types : list (list Z).
Variables (k L0 d : float).
Variable timestep : float.
Variables (ny nx : nat).

Hypothesis masses_shape : has_shape ny nx masses.
Hypothesis particle_types_shape : has_shape ny nx particle_types.
Hypothesis timestep_finite : Conv.is_finite timestep = true.
Hypothesis timestep_square_finite : Conv.is_finite (square timestep) = true.

Local Abbreviation pin := (pin_static particle_types).

(** One pass of the loop at a cell that is at rest and feels no force
    before the pass: the displacement is kept. *)
Lemma cell_position_kept (p v forces_then : grid) i j (p0 m f : float) (s : bool) :
  i < ny → j < nx →
  cell masses i j = Some m → (0 <? m)%float = true →
  cell (pin initial_pos) i j = Some p0 → Prim2SF p0 ≠ S754_zero true →
  cell p i j = Some p0 → cell v i j = Some 0%float →
  cell forces_then i j = Some f → Prim2SF f = S754_zero s →
  cell (pin (advance_pos timestep p v (acceleration masses forces_then))) i j
  = Some p0.
Proof using masses_shape particle_types_shape timestep_finite
  timestep_square_finite.
  intros Hi Hj Hm Hmpos Hp0 Hnz Hpc Hvc Hfc Hfz.
  destruct (cell_is_Some ny nx particle_types i j) as [ty Hty]; [done..|].
  rewrite cell_pin_static, Hty. simpl.
  rewrite (cell_advance_pos timestep p v _ i j p0 0 (f / m) Hpc Hvc
             (cell_acceleration masses forces_then i j f m Hfc Hm)).
  simpl. case_decide as Hstatic.
  - rewrite cell_pin_static, Hty in Hp0. simpl in Hp0.
    destruct (cell initial_pos i j); [|done]. simpl in Hp0.
    by rewrite decide_True in Hp0.
  - f_equal.
    by apply (RestFacts.position_at_rest timestep m timestep_finite
                timestep_square_finite Hmpos p0 f s).
Qed.

(** ... and, when no force acts after the pass either, it stays at rest. *)
Lemma cell_velocity_kept (v forces_then forces_now : grid) i j (m f1 f2 : float)
    (s1 s2 : bool) :
  i < ny → j < nx →
  cell masses i j = Some m → (0 <? m)%float = true →
  cell v i j = Some 0%float →
  cell forces_then i j = Some f1 → Prim2SF f1 = S754_zero s1 →
  cell forces_now i j = Some f2 → Prim2SF f2 = S754_zero s2 →
  cell (pin (advance_vel timestep v (acceleration masses forces_then)
               (acceleration masses forces_now))) i j
  = Some 0%float.
Proof using masses_shape particle_types_shape timestep_finite.
  intros Hi Hj Hm Hmpos Hvc Hf1 Hz1 Hf2 Hz2.
  destruct (cell_is_Some ny nx particle_types i j) as [ty Hty]; [done..|].
  rewrite cell_pin_static, Hty. simpl.
  rewrite (cell_advance_vel timestep v _ _ i j 0 (f1 / m) (f2 / m) Hvc
             (cell_acceleration masses forces_then i j f1 m Hf1 Hm)
             (cell_acceleration masses forces_now i j f2 m Hf2 Hm)).
  simpl. case_decide; [done|]. f_equal.
  by apply (RestFacts.velocity_at_rest timestep m timestep_finite Hmpos
              f1 f2 s1 s2).
Qed.

End RestSteps.

(** X1. The border of the mesh does not move.  With mesh-shaped arguments,
    a finite [timestep] whose square is finite too and at least one step,
    the integration completes, and a particle on the border of the mesh
    (first or last row or column) with a positive mass keeps at every step
    the displacement it has at step 0 (its initial displacement, or 0 when
    it is static) and the velocity 0: [_calculate_forces] never visits the
    border.  The displacement [-0.0] is left out: the sum [-0.0 + 0.0] of
    the update is [+0.0]. *)
Theorem border_particles_never_move
    (masses initial_pos : Np.grid) (particle_types : list (list Z))
    (k L0 d dt : float) (n_steps ny nx : nat) :
  Np.has_shape ny nx masses →
  Np.has_shape ny nx initial_pos →
  Np.has_shape ny nx particle_types →
  n_steps ≠ 0 →
  Conv.is_finite dt = true →
  Conv.is_finite (square dt) = true →
  ∃ h,
    integrate masses initial_pos particle_types k L0 d dt n_steps = Some h
    ∧ ∀ s i j m p0,
        s < n_steps → i < ny → j < nx →
        i = 0 ∨ i = ny - 1 ∨ j = 0 ∨ j = nx - 1 →
        Np.cell masses i j = Some m → (0 <? m)%float = true →
        Np.cell (pin_static particle_types initial_pos) i j = Some p0 →
        Prim2SF p0 ≠ S754_zero true →
        ∃ p v,
          pos h !! s = Some p ∧ vel h !! s = Some v
          ∧ Np.cell p i j = Some p0
          ∧ Np.cell v i j = Some 0%float.
Proof.
  intros Hm Hi Ht Hn Hdt Hdt2.
  destruct (integrate_integrated masses initial_pos particle_types k L0 d
              dt n_steps ny nx Hm Hi Ht Hn) as (h & Hrun & Hinv).
  destruct Hinv as [_ Hlp Hlv Hps Hvs _ _ _ Hp0 Hv0 Hsteps].
  exists h. split; [done|].
  intros s i j m p0 Hs Hi' Hj' Hborder Hmc Hmpos Hpc Hnz.
  assert (Hnotint : ¬ is_interior ny nx i j) by (unfold is_interior; lia).
  induction s as [|s IH].
  - exists (pin_static particle_types initial_pos), (Np.zeros ny nx).
    split; [done|]. split; [done|]. split; [done|].
    by apply NpFacts.cell_zeros.
  - destruct IH as (p & v & Hp & Hv & Hpcell & Hvcell); [lia|].
    destruct (Hsteps (S s)) as (p' & v' & t & f1 & f2 & Hp' & Hv' & _ & Hf1 & Hrest);
      [lia|].
    replace (S s - 1) with s in Hp', Hv' by lia.
    assert (p' = p) as -> by congruence.
    assert (v' = v) as -> by congruence.
    simpl in Hrest. destruct Hrest as (Hpn & Hf2 & Hvn & _).
    pose proof (Forall_lookup_1 _ _ _ _ Hps Hp) as Hpshape.
    pose proof (Forall_lookup_1 _ _ _ _ Hps Hpn) as Hpnshape.
    destruct (calculate_forces_spec k L0 d ny nx p Hpshape)
      as (g1 & Hg1 & _ & Hc1).
    destruct (calculate_forces_spec k L0 d ny nx _ Hpnshape)
      as (g2 & Hg2 & _ & Hc2).
    unfold forces_of in Hf1, Hf2.
    assert (g1 = f1) as -> by congruence.
    assert (g2 = f2) as -> by congruence.
    specialize (Hc1 i j Hi' Hj'). specialize (Hc2 i j Hi' Hj').
    rewrite decide_False in Hc1, Hc2 by done.
    eexists _, _. split; [exact Hpn|]. split; [exact Hvn|]. split.
    + by eapply (cell_position_kept masses initial_pos particle_types dt ny nx
                   Hm Ht Hdt Hdt2 p v f1 i j p0 m 0 false).
    + by eapply (cell_velocity_kept masses particle_types dt ny nx
                   Hm Ht Hdt v f1 f2 i j m 0 0 false false).
Qed.

Lemma border_particles_never_move_witness :
  ∃ h,
    integrate Mesh3.masses Mesh3.initial_pos Mesh3.particle_types
      1 1 1 0.5 3 = Some h
    ∧ ∃ p v,
        pos h !! 2 = Some p ∧ vel h !! 2 = Some v
        ∧ Np.cell p 0 1 = Some 0%float
        ∧ Np.cell v 0 1 = Some 0%float.
Proof.
  destruct (border_particles_never_move
              Mesh3.masses Mesh3.initial_pos Mesh3.particle_types
              1 1 1 0.5 3 3 3
              Mesh3Facts.masses_shape Mesh3Facts.initial_pos_shape
              Mesh3Facts.particle_types_shape ltac:(lia) eq_refl eq_refl)
    as (h & Hrun & Hcells).
  exists h. split; [exact Hrun|].
  exact (Hcells 2 0 1 1%float 0%float ltac:(lia) ltac:(lia) ltac:(lia)
           (or_introl eq_refl) eq_refl eq_refl eq_refl ltac:(discriminate)).
Defined.

(** X2. An equilibrium is kept.  With mesh-shaped arguments, positive
    masses, a finite [timestep] whose square is finite too and at least
    one step: when [_calculate_forces] returns the zero grid at the
    displacement grid of step 0 (and no cell of that grid is [-0.0]), the
    displacement grid of every step is the grid of step 0 and every
    velocity grid is the zero grid. *)
Theorem equilibrium_is_preserved
    (masses initial_pos : Np.grid) (particle_types : list (list Z))
    (k L0 d dt : float) (n_steps ny nx : nat) :
  Np.has_shape ny nx masses →
  Np.has_shape ny nx initial_pos →
  Np.has_shape ny nx particle_types →
  n_steps ≠ 0 →
  Conv.is_finite dt = true →
  Conv.is_finite (square dt) = true →
  (∀ i j m, Np.cell masses i j = Some m → (0 <? m)%float = true) →
  (∀ i j p, Np.cell (pin_static particle_types initial_pos) i j = Some p →
            Prim2SF p ≠ S754_zero true) →
  _calculate_forces k L0 d (pin_static particle_types initial_pos)
    = Some (Np.zeros ny nx) →
  ∃ h,
    integrate masses initial_pos particle_types k L0 d dt n_steps = Some h
    ∧ ∀ s, s < n_steps →
        pos h !! s = Some (pin_static particle_types initial_pos)
        ∧ vel h !! s = Some (Np.zeros ny nx).
Proof.
  intros Hm Hi Ht Hn Hdt Hdt2 Hmass Hnz Heq.
  destruct (integrate_integrated masses initial_pos particle_types k L0 d
              dt n_steps ny nx Hm Hi Ht Hn) as (h & Hrun & Hinv).
  destruct Hinv as [_ Hlp Hlv Hps Hvs _ _ _ Hp0 Hv0 Hsteps].
  exists h. split; [done|].
  set (P0 := pin_static particle_types initial_pos) in *.
  assert (HP0 : Np.has_shape ny nx P0) by (by apply GridFacts.has_shape_pin_static).
  induction s as [|s IH]; intros Hs; [done|].
  destruct IH as [Hp Hv]; [lia|].
  destruct (Hsteps (S s)) as (p' & v' & t & f1 & f2 & Hp' & Hv' & _ & Hf1 & Hrest);
    [lia|].
  replace (S s - 1) with s in Hp', Hv' by lia.
  assert (p' = P0) as -> by congruence.
  assert (v' = Np.zeros ny nx) as -> by congruence.
  unfold forces_of in Hf1. assert (f1 = Np.zeros ny nx) as -> by congruence.
  simpl in Hrest. destruct Hrest as (Hpn & Hf2 & Hvn & _).
  assert (Hkeep : pin_static particle_types
            (advance_pos dt P0 (Np.zeros ny nx)
               (acceleration masses (Np.zeros ny nx))) = P0).
  { apply (GridFacts.grid_ext ny nx);
      [exact (Forall_lookup_1 _ _ _ _ Hps Hpn)|done|].
    intros i j Hi' Hj'.
    destruct (NpFacts.cell_is_Some ny nx P0 i j) as [p0 Hp0c]; [done..|].
    destruct (NpFacts.cell_is_Some ny nx masses i j) as [m Hmc]; [done..|].
    rewrite Hp0c.
    eapply (cell_position_kept masses initial_pos particle_types dt ny nx
              Hm Ht Hdt Hdt2 P0 _ _ i j p0 m 0 false); try done.
    - by eapply Hmass.
    - by eapply Hnz.
    - by apply NpFacts.cell_zeros.
    - by apply NpFacts.cell_zeros. }
  rewrite Hkeep in Hpn, Hf2.
  unfold forces_of in Hf2. assert (f2 = Np.zeros ny nx) as -> by congruence.
  split; [done|]. rewrite Hvn. f_equal.
  apply (GridFacts.grid_ext ny nx);
    [exact (Forall_lookup_1 _ _ _ _ Hvs Hvn)|apply NpFacts.has_shape_zeros|].
  intros i j Hi' Hj'.
  destruct (NpFacts.cell_is_Some ny nx masses i j) as [m Hmc]; [done..|].
  rewrite NpFacts.cell_zeros by done.
  eapply (cell_velocity_kept masses particle_types dt ny nx
            Hm Ht Hdt _ _ _ i j m 0 0 false false); try done.
  - by eapply Hmass.
  - by apply NpFacts.cell_zeros.
  - by apply NpFacts.cell_zeros.
  - by apply NpFacts.cell_zeros.
Qed.

Lemma equilibrium_is_preserved_witness :
  ∃ h,
    integrate Mesh3.masses Level3.level Level3.dynamic 1 1 1 0.5 3 = Some h
    ∧ pos h !! 2 = Some Level3.level
    ∧ vel h !! 2 = Some (Np.zeros 3 3).
Proof.
  assert (Hl : Np.has_shape 3 3 Level3.level)
    by (split; [reflexivity | repeat constructor]).
  assert (Hd : Np.has_shape 3 3 Level3.dynamic)
    by (split; [reflexivity | repeat constructor]).
  assert (Hmass : ∀ i j m, Np.cell Mesh3.masses i j = Some m →
                           (0 <? m)%float = true).
  { intros i j m H.
    do 3 (destruct i as [|i]; [do 3 (destruct j as [|j];
      [injection H as <-; reflexivity|]); discriminate|]).
    discriminate. }
  assert (Hnz : ∀ i j p,
            Np.cell (pin_static Level3.dynamic Level3.level) i j = Some p →
            Prim2SF p ≠ S754_zero true).
  { intros i j p H.
    do 3 (destruct i as [|i]; [do 3 (destruct j as [|j];
      [injection H as <-; discriminate|]); discriminate|]).
    discriminate. }
  destruct (equilibrium_is_preserved Mesh3.masses Level3.level Level3.dynamic
              1 1 1 0.5 3 3 3
              Mesh3Facts.masses_shape Hl Hd ltac:(lia) eq_refl eq_refl
              Hmass Hnz eq_refl) as (h & Hrun & Hrest).
  exists h. split; [exact Hrun|]. exact (Hrest 2 ltac:(lia)).
Defined.

(** X3. The shape of the mesh is kept.  With mesh-shaped arguments and at
    least one step the three histories have [n_steps] entries, every
    displacement and velocity grid in them has the shape of the mesh, and
    whatever [simulate] returns has as many times as displacement grids,
    each grid of the shape of the mesh. *)
Theorem histories_keep_the_mesh_shape
    (FPS : float) (round_dec : float → float)
    (masses initial_pos : Np.grid) (particle_types : list (list Z))
    (k L0 d dt : float) (n_steps ny nx : nat) :
  Np.has_shape ny nx masses →
  Np.has_shape ny nx initial_pos →
  Np.has_shape ny nx particle_types →
  n_steps ≠ 0 →
  ∃ h,
    integrate masses initial_pos particle_types k L0 d dt n_steps = Some h
    ∧ length (time h) = n_steps
    ∧ length (pos h) = n_steps
    ∧ length (vel h) = n_steps
    ∧ Forall (Np.has_shape ny nx) (pos h)
    ∧ Forall (Np.has_shape ny nx) (vel h)
    ∧ ∀ ts ps,
        simulate FPS round_dec masses initial_pos particle_types
          k L0 d dt n_steps = Some (ts, ps) →
        length ts = length ps ∧ Forall (Np.has_shape ny nx) ps.
Proof.
  intros Hm Hi Ht Hn.
  destruct (integrate_integrated masses initial_pos particle_types k L0 d
              dt n_steps ny nx Hm Hi Ht Hn) as (h & Hrun & Hinv).
  destruct Hinv as [Hlt Hlp Hlv Hps Hvs _ _ _ _ _ _].
  exists h. repeat (split; [done|]).
  intros ts ps. unfold simulate. rewrite Hrun. simpl.
  rewrite export_Some. intros (n & _ & _ & Hts & Hps').
  split.
  - rewrite <- (Forall2_length _ _ _ Hts). by apply Forall2_length in Hps'.
  - apply Forall_forall. intros p Hp.
    apply list_elem_of_lookup in Hp as [r Hr].
    destruct (Forall2_lookup_r _ _ _ _ _ Hps' Hr) as (i & _ & Hitem).
    unfold Np.item in Hitem.
    destruct (Np.index _ i) as [s|]; [|done]. simpl in Hitem.
    change (map ?f ?l) with (f <$> l) in Hitem.
    rewrite list_lookup_fmap in Hitem.
    destruct (pos h !! s) as [g|] eqn:Hg; [|done]. injection Hitem as <-.
    apply GridFacts.has_shape_maps. exact (Forall_lookup_1 _ _ _ _ Hps Hg).
Qed.

Lemma histories_keep_the_mesh_shape_witness :
  ∃ h,
    integrate Mesh3.masses Mesh3.initial_pos Mesh3.particle_types
      1 1 1 0.5 3 = Some h
    ∧ Forall (Np.has_shape 3 3) (pos h).
Proof.
  destruct (histories_keep_the_mesh_shape 4 (Round.np_round 3)
              Mesh3.masses Mesh3.initial_pos Mesh3.particle_types
              1 1 1 0.5 3 3 3
              Mesh3Facts.masses_shape Mesh3Facts.initial_pos_shape
              Mesh3Facts.particle_types_shape ltac:(lia))
    as (h & Hrun & _ & _ & _ & Hshape & _).
  exists h. split; [exact Hrun | exact Hshape].
Defined.

(** The first sample index is 0. *)
Lemma sample_index_first (n_rows length : nat) :
  (0 < Z.of_nat n_rows < 2 ^ 53)%Z → (0 < Z.of_nat length < 2 ^ 53)%Z →
  sample_index n_rows length 0 = 0%Z.
Proof.
  intros Hn HL. unfold sample_index, Conv.of_nat.
  pose proof (Arith64.bounded_float_inv _ _
                (Arith64.represents_of_Z (Z.of_nat n_rows) Hn)) as Hr.
  pose proof (Arith64.represents_bounded _ _
                (Arith64.represents_of_Z (Z.of_nat length) HL)) as HLb.
  change (Conv.of_Z (Z.of_nat 0)) with 0%float.
  rewrite (IndexBound.mul_zero_l _ _ _ _ Hr).
  change (0 + 0)%float with 0%float.
  rewrite (IndexBound.mul_zero_l _ _ _ _ HLb). reflexivity.
Qed.

(** X4. The first exported row is the initial state.  With mesh-shaped
    arguments and a history of fewer than [2^53] steps, whenever the row
    count is between 1 and [2^48] the export succeeds and its first row
    holds the rounded time 0 and the rounded displacement grid of step 0:
    the first sample index [0 * (1 / n_rows) * n_steps] is 0 in
    binary64. *)
Theorem first_exported_row_is_the_initial_state
    (FPS : float) (round_dec : float → float)
    (masses initial_pos : Np.grid) (particle_types : list (list Z))
    (k L0 d dt : float) (n_steps ny nx : nat) :
  Np.has_shape ny nx masses →
  Np.has_shape ny nx initial_pos →
  Np.has_shape ny nx particle_types →
  n_steps ≠ 0 →
  (Z.of_nat n_steps < 2 ^ 53)%Z →
  ∃ h,
    integrate masses initial_pos particle_types k L0 d dt n_steps = Some h
    ∧ ∀ n_rows : nat,
        row_count FPS (map round_dec (time h)) = Some (Z.of_nat n_rows) →
        (1 ≤ Z.of_nat n_rows ≤ 2 ^ 48)%Z →
        ∃ ts ps,
          simulate FPS round_dec masses initial_pos particle_types
            k L0 d dt n_steps = Some (ts, ps)
          ∧ ts !! 0 = Some (round_dec 0%float)
          ∧ ps !! 0
            = Some (Np.maps round_dec (pin_static particle_types initial_pos)).
Proof.
  intros Hm Hi Ht Hn Hsmall.
  destruct (integrate_integrated masses initial_pos particle_types k L0 d
              dt n_steps ny nx Hm Hi Ht Hn) as (h & Hrun & Hinv).
  exists h. split; [done|]. intros n_rows Hcount Hrows.
  destruct Hinv as [Hlt Hlp _ _ _ _ _ Ht0 Hp0 _ _].
  destruct (export_in_range FPS round_dec h n_rows)
    as (ts & ps & Hexp & _ & _ & Hrowsat); [congruence|done| |].
  { intros r Hr. rewrite Hlt.
    apply IndexBound.sample_index_bounds; [lia|done|lia]. }
  exists ts, ps. unfold simulate. rewrite Hrun. simpl. split; [done|].
  destruct (Hrowsat 0 ltac:(lia)) as [Hts Hps]. simpl in Hts, Hps.
  rewrite Hlt, sample_index_first in Hts, Hps
    by (change (2 ^ 53)%Z with (2 ^ 5 * 2 ^ 48)%Z; lia).
  change (Z.to_nat 0) with 0 in Hts, Hps.
  rewrite Ht0 in Hts. rewrite Hp0 in Hps. done.
Qed.

Lemma first_exported_row_is_the_initial_state_witness :
  ∃ ts ps,
    simulate 2.5 (Round.np_round 3)
      Mesh3.masses Mesh3.initial_pos Mesh3.particle_types 1 1 1 0.5 7
    = Some (ts, ps)
    ∧ ts !! 0 = Some (Round.np_round 3 0)
    ∧ ps !! 0
      = Some (Np.maps (Round.np_round 3)
                (pin_static Mesh3.particle_types Mesh3.initial_pos)).
Proof.
  destruct (first_exported_row_is_the_initial_state 2.5 (Round.np_round 3)
              Mesh3.masses Mesh3.initial_pos Mesh3.particle_types
              1 1 1 0.5 7 3 3
              Mesh3Facts.masses_shape Mesh3Facts.initial_pos_shape
              Mesh3Facts.particle_types_shape ltac:(lia) ltac:(lia))
    as (h & Hrun & Hrows).
  vm_compute in Hrun. injection Hrun as <-.
  exact (Hrows 7 ltac:(vm_compute; reflexivity) ltac:(lia)).
Defined.

(** ** Sign symmetry of binary64 arithmetic *)

Module SignFacts.
Import Binary64.
Local Open Scope Z_scope.

Lemma binary_round_aux_opp (s : bool) (mx ex : Z) (lx : location) :
  binary_round_aux prec emax (negb s) mx ex lx
  = SFopp (binary_round_aux prec emax s mx ex lx).
Proof.
  unfold binary_round_aux.
  destruct (shr_fexp prec emax mx ex lx) as [mrs1 e1].
  destruct (shr_fexp prec emax _ e1 loc_Exact) as [mrs2 e2].
  destruct (shr_m mrs2); [done| |done]. by destruct (_ <=? _).
Qed.

Lemma binary_round_opp (s : bool) (m : positive) (e : Z) :
  binary_round prec emax (negb s) m e = SFopp (binary_round prec emax s m e).
Proof.
  unfold binary_round. destruct (shl_align m e _) as [mz ez].
  apply binary_round_aux_opp.
Qed.

Lemma SFopp_involutive (x : spec_float) : SFopp (SFopp x) = x.
Proof. destruct x as [s|s| |s m e]; simpl; by rewrite ?negb_involutive. Qed.

Lemma opp_inj_spec (x y : float) :
  Prim2SF y = SFopp (Prim2SF x) → y = (- x)%float.
Proof. intros H. apply Prim2SF_inj. by rewrite opp_spec. Qed.

(** [q - p = -(p - q)], unless the difference is a zero. *)
Lemma sub_swap (p q : float) :
  ((p - q) =? 0)%float = false → (q - p)%float = (- (p - q))%float.
Proof.
  rewrite FloatAxioms.eqb_spec. change (Prim2SF 0) with (S754_zero false).
  intros Hnz. apply opp_inj_spec. revert Hnz.
  rewrite !FloatAxioms.sub_spec. unfold SF64sub, SFsub.
  destruct (Prim2SF p) as [sp|sp| |sp mp ep], (Prim2SF q) as [sq|sq| |sq mq eq];
    try done; try (by destruct sp, sq); try (by destruct sp); try (by destruct sq).
  all: try (by destruct sp, sq).
  - rewrite (Z.min_comm eq ep).
    set (a := cond_Zopp sp (Zpos (fst (shl_align mp ep (Z.min ep eq))))).
    set (b := cond_Zopp sq (Zpos (fst (shl_align mq eq (Z.min ep eq))))).
    replace (b - a) with (- (a - b)) by lia.
    destruct (a - b) as [|m|m]; [done| |]; intros _.
    + change (binary_round prec emax (negb false) m (Z.min ep eq)
              = SFopp (binary_round prec emax false m (Z.min ep eq))).
      apply binary_round_opp.
    + change (binary_round prec emax false m (Z.min ep eq)
              = SFopp (binary_round prec emax (negb false) m (Z.min ep eq))).
      by rewrite binary_round_opp, SFopp_involutive.
Qed.

(** [(-x) * (-x) = x * x] *)
Lemma square_opp (x : float) : square (- x) = square x.
Proof.
  unfold square. apply Prim2SF_inj.
  rewrite !FloatAxioms.mul_spec, opp_spec. unfold SF64mul, SFmul.
  destruct (Prim2SF x) as [s|s| |s m e]; simpl; try done;
    by destruct s.
Qed.

(** [a * (-x) = -(a * x)] *)
Lemma mul_opp_r (a x : float) : (a * (- x))%float = (- (a * x))%float.
Proof.
  apply opp_inj_spec.
  rewrite !FloatAxioms.mul_spec, opp_spec. unfold SF64mul, SFmul.
  destruct (Prim2SF a) as [sa|sa| |sa ma ea],
           (Prim2SF x) as [s|s| |s m e]; simpl; try done;
    try (by destruct sa, s).
  rewrite <- binary_round_aux_opp. by destruct sa, s.
Qed.

(** [(-x) / y = -(x / y)] *)
Lemma div_opp_l (x y : float) : ((- x) / y)%float = (- (x / y))%float.
Proof.
  apply opp_inj_spec.
  rewrite !FloatAxioms.div_spec, opp_spec. unfold SF64div, SFdiv.
  destruct (Prim2SF x) as [s|s| |s m e],
           (Prim2SF y) as [sy|sy| |sy my ey]; simpl; try done;
    try (by destruct s, sy).
  destruct (SFdiv_core_binary prec emax (Zpos m) e (Zpos my) ey) as [[mz ez] lz].
  rewrite <- binary_round_aux_opp. by destruct s, sy.
Qed.

End SignFacts.

(** X5. Action and reaction.  For two neighbours whose displacement
    difference [p - q] is not a zero, the spring between
    them has the same length seen from either end, and the term that
    [_calculate_forces] adds for [q] at the cell of [p] is the exact
    opposite of the term it adds for [p] at the cell of [q]: binary64
    negation commutes with every operation of the formula. *)
Theorem spring_force_action_reaction (k L0 d p q : float) :
  ((p - q) =? 0)%float = false →
  spring_length d q p = spring_length d p q
  ∧ spring_force k L0 d q p = (- spring_force k L0 d p q)%float.
Proof.
  intros Hnz. pose proof (SignFacts.sub_swap p q Hnz) as Hswap.
  assert (Hlen : spring_length d q p = spring_length d p q).
  { unfold spring_length. by rewrite Hswap, SignFacts.square_opp. }
  split; [done|].
  unfold spring_force. rewrite Hlen, Hswap.
  by rewrite SignFacts.mul_opp_r, SignFacts.div_opp_l.
Qed.

Lemma spring_force_action_reaction_witness :
  spring_force 1 1 1 0 0.5 = (- spring_force 1 1 1 0.5 0)%float.
Proof.
  exact (proj2 (spring_force_action_reaction 1 1 1 0.5 0 eq_refl)).
Defined.

(** * The configuration: [read_config_matrices] and [main] *)

Module ConfigFacts.
Import Np NpFacts Config.

Lemma first_channel_Some ny nx (img : image) :
  is_image ny nx img →
  ∃ g, first_channel img = Some g
       ∧ has_shape ny nx g
       ∧ ∀ i j, cell g i j = cell img i j ≫= λ px, px !! 0.
Proof.
  intros [[Hlen Hrows] Hpx]. unfold first_channel.
  assert (Hsome : is_Some (mapM (mapM (λ px : list Z, px !! 0)) img)).
  { apply mapM_is_Some. apply Forall_forall. intros r Hr. simpl.
    apply mapM_is_Some. eapply Forall_impl.
    - exact (proj1 (Forall_forall _ _) Hpx r Hr).
    - intros px Hne. simpl. destruct px; [done|]. by eexists. }
  destruct Hsome as [g Hg]. exists g. split; [done|].
  apply mapM_Some in Hg.
  assert (Hrow : ∀ i r, img !! i = Some r →
            ∃ r', g !! i = Some r' ∧ length r' = length r
                  ∧ ∀ j, r' !! j = r !! j ≫= λ px, px !! 0).
  { intros i r Hr.
    destruct (Forall2_lookup_l _ _ _ _ _ Hg Hr) as (r' & Hr' & Hm).
    exists r'. split; [done|]. apply mapM_Some in Hm.
    split; [symmetry; by eapply Forall2_length|].
    intros j. destruct (r !! j) as [px|] eqn:Hj; simpl.
    - destruct (Forall2_lookup_l _ _ _ _ _ Hm Hj) as (v & -> & Hv). done.
    - apply lookup_ge_None. apply lookup_ge_None in Hj.
      rewrite <- (Forall2_length _ _ _ Hm). done. }
  split.
  - split; [by rewrite <- (Forall2_length _ _ _ Hg)|].
    apply Forall_forall. intros r' Hr'.
    apply list_elem_of_lookup in Hr' as [i Hi].
    destruct (Forall2_lookup_r _ _ _ _ _ Hg Hi) as (r & Hr & _).
    destruct (Hrow i r Hr) as (r'' & Hr'' & Hl & _).
    assert (r'' = r') as -> by congruence.
    rewrite Hl. exact (Forall_lookup_1 _ _ _ _ Hrows Hr).
  - intros i j. unfold cell.
    destruct (img !! i) as [r|] eqn:Hr; simpl.
    + destruct (Hrow i r Hr) as (r' & -> & _ & Hc). simpl. apply Hc.
    + apply lookup_ge_None in Hr.
      rewrite (Forall2_length _ _ _ Hg) in Hr.
      apply lookup_ge_None in Hr. by rewrite Hr.
Qed.

Lemma has_shape_map {A B : Type} (f : A → B) ny nx (a : list (list A)) :
  has_shape ny nx a → has_shape ny nx (map (map f) a).
Proof.
  intros [Hl Ha]. split; [by rewrite length_map|].
  apply Forall_forall. intros r Hr.
  apply list_elem_of_fmap in Hr as (r0 & -> & Hr0).
  rewrite length_map. by eapply (proj1 (Forall_forall _ _) Ha).
Qed.

Lemma cell_map {A B : Type} (f : A → B) (a : list (list A)) i j :
  cell (map (map f) a) i j = f <$> cell a i j.
Proof.
  unfold cell. change (map (map f) a) with (map f <$> a).
  rewrite list_lookup_fmap.
  destruct (a !! i) as [r|]; [|done]. simpl.
  change (map f r) with (f <$> r). by rewrite list_lookup_fmap.
Qed.

Lemma floor_255_Some ny nx (img : image) :
  is_image ny nx img →
  ∃ g, floor_255 img = Some g
       ∧ has_shape ny nx g
       ∧ ∀ i j, cell g i j
                = (λ v, v / 255)%Z <$> (cell img i j ≫= λ px, px !! 0).
Proof.
  intros Himg. destruct (first_channel_Some ny nx img Himg) as (g & Hg & Hs & Hc).
  unfold floor_255. rewrite Hg. simpl. eexists. split; [done|].
  split; [by apply has_shape_map|].
  intros i j. by rewrite cell_map, Hc.
Qed.

Lemma unit_scale_Some ny nx (img : image) :
  is_image ny nx img →
  ∃ g, unit_scale img = Some g
       ∧ has_shape ny nx g
       ∧ ∀ i j, cell g i j
                = (λ v, Conv.of_Z v / 255)%float
                    <$> (cell img i j ≫= λ px, px !! 0).
Proof.
  intros Himg. destruct (first_channel_Some ny nx img Himg) as (g & Hg & Hs & Hc).
  unfold unit_scale. rewrite Hg. simpl. eexists. split; [done|].
  split; [by apply has_shape_map|].
  intros i j. by rewrite cell_map, Hc.
Qed.

Lemma unit_scale_checked : forallb unit_scale_check (seq 0 256) = true.
Proof. vm_compute. reflexivity. Qed.

Lemma unit_scale_uint8 (v : Z) :
  (0 ≤ v ≤ 255)%Z →
  let m := (Conv.of_Z v / 255)%float in
  (v = 0%Z → m = 0%float)
  ∧ (v ≠ 0%Z → (0 <? m)%float = true)
  ∧ (m <=? 1)%float = true
  ∧ (v = 255%Z → m = 1%float)
  ∧ (v ≠ 255%Z → (m <? 1)%float = true).
Proof.
  intros Hv m.
  pose proof (proj1 (forallb_forall _ _) unit_scale_checked (Z.to_nat v)) as H.
  assert (Hin : In (Z.to_nat v) (seq 0 256)) by (apply in_seq; lia).
  specialize (H Hin). unfold unit_scale_check in H.
  rewrite Z2Nat.id in H by lia. fold m in H.
  apply andb_prop in H as [H H3]. apply andb_prop in H as [H1 H2].
  split; [|split; [|split; [done|split]]].
  - intros ->. simpl in H1. by apply FloatAxioms.Leibniz.eqb_spec.
  - intros Hnz. destruct (Z.to_nat v) as [|n] eqn:Hn; [lia|done].
  - intros ->. simpl in H3. by apply FloatAxioms.Leibniz.eqb_spec.
  - intros Hne. rewrite decide_False in H3 by lia. done.
Qed.

Lemma floor_255_uint8 (v : Z) :
  (0 ≤ v ≤ 255)%Z → (v / 255)%Z = if decide (v = 255%Z) then 1%Z else 0%Z.
Proof.
  intros Hv. case_decide as H; [by subst|]. apply Z.div_small. lia.
Qed.

Lemma read_config_matrices_Some ny nx (imgs : images) :
  is_image ny nx (dynamic_png imgs) →
  is_image ny nx (mass_png imgs) →
  is_image ny nx (amplitude_png imgs) →
  readable (elastic_constant_png imgs) →
  readable (natural_length_png imgs) →
  ∃ dynamic mass amplitude elastic_constant natural_length,
    read_config_matrices imgs
      = Some (dynamic, mass, amplitude, elastic_constant, natural_length)
    ∧ floor_255 (dynamic_png imgs) = Some dynamic
    ∧ unit_scale (mass_png imgs) = Some mass
    ∧ unit_scale (amplitude_png imgs) = Some amplitude
    ∧ has_shape ny nx dynamic
    ∧ has_shape ny nx mass
    ∧ has_shape ny nx amplitude.
Proof.
  intros Hd Hm Ha (ny1 & nx1 & He) (ny2 & nx2 & Hn).
  destruct (floor_255_Some _ _ _ Hd) as (d & Hd' & Hds & _).
  destruct (unit_scale_Some _ _ _ Hm) as (m & Hm' & Hms & _).
  destruct (unit_scale_Some _ _ _ Ha) as (a & Ha' & Has & _).
  destruct (unit_scale_Some _ _ _ He) as (e & He' & _).
  destruct (unit_scale_Some _ _ _ Hn) as (n & Hn' & _).
  exists d, m, a, e, n. unfold read_config_matrices.
  rewrite Hd', Hm', Ha', He', Hn'. done.
Qed.

(** The sample images are images of 3 x 3 pixels. *)
Lemma sample_is_image (v c : Z) :
  is_image 3 3
    [[Images3.grey v; Images3.grey v; Images3.grey v];
     [Images3.grey v; Images3.grey c; Images3.grey v];
     [Images3.grey v; Images3.grey v; Images3.grey v]].
Proof.
  split; [split; [reflexivity | repeat constructor]|].
  repeat constructor; discriminate.
Qed.

End ConfigFacts.

(** X6. The mask of dynamic particles.  For five readable images, the
    first three of the size of the mesh, [read_config_matrices] returns,
    and the cell of [dynamic] is 1 exactly where the first channel of the
    pixel of [dynamic.png] is 255, and 0 at every other 8-bit value: a
    particle is dynamic only under a fully saturated pixel. *)
Theorem dynamic_mask_is_full_saturation (imgs : Config.images) (ny nx : nat) :
  Config.is_image ny nx (Config.dynamic_png imgs) →
  Config.is_image ny nx (Config.mass_png imgs) →
  Config.is_image ny nx (Config.amplitude_png imgs) →
  Config.readable (Config.elastic_constant_png imgs) →
  Config.readable (Config.natural_length_png imgs) →
  ∃ dynamic mass amplitude elastic_constant natural_length,
    Config.read_config_matrices imgs
      = Some (dynamic, mass, amplitude, elastic_constant, natural_length)
    ∧ Np.has_shape ny nx dynamic
    ∧ ∀ i j px v,
        Np.cell (Config.dynamic_png imgs) i j = Some px →
        px !! 0 = Some v → (0 ≤ v ≤ 255)%Z →
        Np.cell dynamic i j = Some (if decide (v = 255%Z) then 1%Z else 0%Z).
Proof.
  intros Hd Hm Ha He Hn.
  destruct (ConfigFacts.read_config_matrices_Some ny nx imgs Hd Hm Ha He Hn)
    as (d & m & a & e & n & Hread & Hd' & _ & _ & Hds & _).
  exists d, m, a, e, n. split; [done|]. split; [done|].
  intros i j px v Hpx Hv Hrange.
  destruct (ConfigFacts.floor_255_Some ny nx _ Hd) as (d' & Hd'' & _ & Hc).
  assert (d' = d) as -> by congruence.
  rewrite Hc, Hpx. simpl. rewrite Hv. simpl.
  by rewrite ConfigFacts.floor_255_uint8.
Qed.

Lemma dynamic_mask_is_full_saturation_witness :
  ∃ dynamic mass amplitude elastic_constant natural_length,
    Config.read_config_matrices Images3.pngs
      = Some (dynamic, mass, amplitude, elastic_constant, natural_length)
    ∧ Np.cell dynamic 1 1 = Some 1%Z
    ∧ Np.cell dynamic 0 1 = Some 0%Z.
Proof.
  destruct (dynamic_mask_is_full_saturation Images3.pngs 3 3
              (ConfigFacts.sample_is_image 0 255)
              (ConfigFacts.sample_is_image 255 255)
              (ConfigFacts.sample_is_image 0 128)
              (ex_intro _ 3 (ex_intro _ 3 (ConfigFacts.sample_is_image 255 255)))
              (ex_intro _ 3 (ex_intro _ 3 (ConfigFacts.sample_is_image 255 255))))
    as (d & m & a & e & n & Hread & _ & Hcells).
  exists d, m, a, e, n. split; [exact Hread|]. split.
  - exact (Hcells 1 1 (Images3.grey 255) 255%Z eq_refl eq_refl ltac:(lia)).
  - exact (Hcells 0 1 (Images3.grey 0) 0%Z eq_refl eq_refl ltac:(lia)).
Defined.

(** X7. Masses and amplitudes.  [img[:, :, 0] / 255] on an image of 8-bit
    pixels succeeds, keeps the size of the image, and maps the first
    channel [v] of a pixel to a binary64 number that is 0 exactly when
    [v = 0], positive otherwise, at most 1, and 1 exactly when
    [v = 255]: a black pixel of [mass.png] is a mass of exactly 0. *)
Theorem unit_scale_of_pixels (img : Config.image) (ny nx : nat) :
  Config.is_image ny nx img →
  ∃ g,
    Config.unit_scale img = Some g
    ∧ Np.has_shape ny nx g
    ∧ ∀ i j px v,
        Np.cell img i j = Some px → px !! 0 = Some v → (0 ≤ v ≤ 255)%Z →
        ∃ m,
          Np.cell g i j = Some m
          ∧ (v = 0%Z → m = 0%float)
          ∧ (v ≠ 0%Z → (0 <? m)%float = true)
          ∧ (m <=? 1)%float = true
          ∧ (v = 255%Z → m = 1%float)
          ∧ (v ≠ 255%Z → (m <? 1)%float = true).
Proof.
  intros Himg.
  destruct (ConfigFacts.unit_scale_Some ny nx img Himg) as (g & Hg & Hs & Hc).
  exists g. split; [done|]. split; [done|].
  intros i j px v Hpx Hv Hrange. eexists. split.
  - rewrite Hc, Hpx. simpl. rewrite Hv. done.
  - by apply ConfigFacts.unit_scale_uint8.
Qed.


Lemma unit_scale_of_pixels_witness :
  ∃ g m,
    Config.unit_scale Images3.amplitude_png = Some g
    ∧ Np.cell g 1 1 = Some m
    ∧ (0 <? m)%float = true
    ∧ (m <? 1)%float = true.
Proof.
  destruct (unit_scale_of_pixels Images3.amplitude_png 3 3
              (ConfigFacts.sample_is_image 0 128)) as (g & Hg & _ & Hcells).
  destruct (Hcells 1 1 (Images3.grey 128) 128%Z eq_refl eq_refl ltac:(lia))
    as (m & Hm & _ & Hpos & _ & _ & Hlt).
  exists g, m. split; [exact Hg|]. split; [exact Hm|].
  split; [apply Hpos; lia | apply Hlt; lia].
Defined.



(** X9. The images of spring properties are read and not used.  Replacing
    [elastic_constant.png] and [natural_length.png] by any other readable
    images changes nothing of what [main] returns: the simulation takes
    both properties from the scalars of the physics file. *)
Theorem main_ignores_the_spring_images
    (FPS : float) (round_dec : float → float)
    (dynamic_png mass_png amplitude_png : Config.image)
    (elastic_constant_png natural_length_png : Config.image)
    (elastic_constant_png' natural_length_png' : Config.image)
    (phys : Config.physics) :
  Config.readable elastic_constant_png →
  Config.readable natural_length_png →
  Config.readable elastic_constant_png' →
  Config.readable natural_length_png' →
  Config.main FPS round_dec
    (Config.Images dynamic_png mass_png amplitude_png
       elastic_constant_png natural_length_png) phys
  = Config.main FPS round_dec
      (Config.Images dynamic_png mass_png amplitude_png
         elastic_constant_png' natural_length_png') phys.
Proof.
  intros (? & ? & He) (? & ? & Hn) (? & ? & He') (? & ? & Hn').
  destruct (ConfigFacts.unit_scale_Some _ _ _ He) as (e & Hes & _).
  destruct (ConfigFacts.unit_scale_Some _ _ _ Hn) as (n & Hns & _).
  destruct (ConfigFacts.unit_scale_Some _ _ _ He') as (e' & Hes' & _).
  destruct (ConfigFacts.unit_scale_Some _ _ _ Hn') as (n' & Hns' & _).
  unfold Config.main, Config.read_config_matrices. simpl.
  rewrite Hes, Hns, Hes', Hns'.
  destruct (Config.floor_255 dynamic_png) as [d|]; [|done].
  destruct (Config.unit_scale mass_png) as [m|]; [|done].
  destruct (Config.unit_scale amplitude_png) as [a|]; done.
Qed.

Lemma main_ignores_the_spring_images_witness :
  Config.main 4 (Round.np_round 3)
    (Config.Images Images3.dynamic_png Images3.mass_png Images3.amplitude_png
       Images3.mass_png Images3.mass_png) Images3.constants
  = Config.main 4 (Round.np_round 3)
      (Config.Images Images3.dynamic_png Images3.mass_png Images3.amplitude_png
         Images3.black_png Images3.amplitude_png) Images3.constants.
Proof.
  apply (main_ignores_the_spring_images 4 (Round.np_round 3)
           Images3.dynamic_png Images3.mass_png Images3.amplitude_png
           Images3.mass_png Images3.mass_png
           Images3.black_png Images3.amplitude_png Images3.constants).
  - exists 3, 3. exact (ConfigFacts.sample_is_image 255 255).
  - exists 3, 3. exact (ConfigFacts.sample_is_image 255 255).
  - exists 3, 3. exact (ConfigFacts.sample_is_image 0 0).
  - exists 3, 3. exact (ConfigFacts.sample_is_image 0 128).
Defined.

(** * The viewer: widgets and sprites *)

(** ** Facts on the viewer *)

Module ResultFacts.

Lemma bind_Ok {A B : Type} (m : result A) (f : A → result B) (b : B) :
  m ≫= f = Ok b ↔ ∃ a, m = Ok a ∧ f a = Ok b.
Proof.
  destruct m as [a|e]; simpl.
  - split; [by eauto|]. by intros (? & [= ->] & ?).
  - split; [done|]. by intros (? & ? & _).
Qed.

Lemma or_raise_Ok {A : Type} (e : exn) (o : option A) (a : A) :
  or_raise e o = Ok a ↔ o = Some a.
Proof. destruct o; simpl; split; by intros [= ->]. Qed.

Lemma for_each_app {A B : Type} (f : B → A → result B) (l1 l2 : list A) (b : B) :
  for_each f (l1 ++ l2) b = for_each f l1 b ≫= for_each f l2.
Proof.
  revert b. induction l1 as [|x l1 IH]; intros b; simpl; [done|].
  destruct (f b x) as [b'|e]; simpl; [apply IH|done].
Qed.

(** An invariant of the body is an invariant of the loop. *)
Lemma for_each_invariant {A B : Type} (P : B → Prop) (f : B → A → result B)
    (l : list A) (b b' : B) :
  (∀ b x b', P b → f b x = Ok b' → P b') →
  P b → for_each f l b = Ok b' → P b'.
Proof.
  intros Hstep. revert b. induction l as [|x l IH]; intros b Hb; simpl.
  - by intros [= <-].
  - destruct (f b x) as [b1|e] eqn:Hf; simpl; [|done].
    apply IH. by eapply Hstep.
Qed.

End ResultFacts.

Module TextFacts.
Import Text ResultFacts.

Lemma cached_init loc value color anchor self :
  __init__ loc value color anchor = Ok self →
  cached color self
  ∧ __active self = true
  ∧ __value self = value
  ∧ (__surf self = None ↔ value = "").
Proof.
  unfold __init__, set_anchor. simpl. case_decide as Ha; [|done].
  simpl. intros [= <-]. unfold set_value. simpl.
  case_decide as Hv; simpl.
  - split; [done|]. split; [done|]. split; [done|]. split; [done|].
    intros Heq. by rewrite Heq in Hv.
  - subst value. done.
Qed.

Lemma cached_do color self c self' :
  cached color self → text_do self c = Ok self' →
  cached color self'
  ∧ (__surf self = None →
     match c with
     | Set_value v => __surf self' = None ↔ v = ""
     | _ => __surf self' = None
     end)
  ∧ (__surf self ≠ None → __surf self' ≠ None).
Proof.
  intros (Hc & Ha & Hs). destruct c as [loc|anchor|value|active]; simpl.
  - intros [= <-]. done.
  - unfold set_anchor. case_decide; [|done]. intros [= <-]. done.
  - intros [= <-]. unfold set_value. case_decide as Hv; simpl.
    + split; [by rewrite Hc|]. split; [|done]. intros Hn.
      rewrite Hn in Hs. split; [done|]. intros ->. by rewrite Hs in Hv.
    + subst value. split; [done|]. split; [|done].
      intros Hn. rewrite Hn in Hs. by rewrite Hn.
  - intros [= <-]. done.
Qed.

Lemma draw_cached color self :
  cached color self →
  draw self =
    if __active self then
      match __surf self with
      | Some surf => Ok [Blit surf (__anchor self) (__loc self)]
      | None => Raise AttributeError
      end
    else Ok [].
Proof.
  intros (_ & Ha & _). unfold draw, get_anchor, get_loc.
  destruct (__active self); [|done].
  unfold ANCHORS in Ha.
  repeat (apply elem_of_cons in Ha as [->|Ha];
          [by destruct (__surf self)|]).
  by apply elem_of_nil in Ha.
Qed.

End TextFacts.

(** X10. The surface of a text box is never stale.  After the constructor
    and any sequence of setter calls that raise nothing, the attribute
    [__surf] is missing exactly when the constructor's value and every
    value set since are the empty string ([set_value] renders on a change
    of value only, and [__value] starts empty); [draw] on an active text box then raises [AttributeError], and
    otherwise blits once, at the anchor of the text box, the rendering of
    its current value in its colour; an inactive text box draws
    nothing. *)
Theorem text_draws_its_current_value
    (loc : float * float) (value color anchor : string)
    (calls : list text_call) (self : Text.t) :
  Text.__init__ loc value color anchor ≫= for_each text_do calls = Ok self →
  (Text.__surf self = None ↔ Forall (λ v, v = "") (value :: values_set calls))
  ∧ Text.draw self =
      if Text.get_active self then
        if decide (Forall (λ v, v = "") (value :: values_set calls))
        then Raise AttributeError
        else Ok [Text.Blit (Text.Surface (Text.get_value self) color)
                   (Text.get_anchor self) (Text.get_loc self)]
      else Ok [].
Proof.
  intros Hrun. apply ResultFacts.bind_Ok in Hrun as (self0 & Hinit & Hcalls).
  apply TextFacts.cached_init in Hinit as (Hc0 & _ & _ & Hs0).
  assert (Hall : Text.cached color self
            ∧ (Text.__surf self = None
               ↔ Text.__surf self0 = None
                 ∧ Forall (λ v, v = "") (values_set calls))).
  { clear Hs0. revert self0 Hc0 Hcalls.
    induction calls as [|c calls IH]; intros self0 Hc0; simpl.
    - intros [= <-]. split; [done|]. split; [by intros ?|by intros [? _]].
    - destruct (text_do self0 c) as [self1|] eqn:Hdo; simpl; [|done].
      intros Hcalls.
      destruct (TextFacts.cached_do _ _ _ _ Hc0 Hdo) as (Hc1 & Hnone & Hsome).
      destruct (IH self1 Hc1 Hcalls) as (Hc & Hiff).
      split; [done|]. rewrite Hiff. unfold values_set. simpl.
      fold (values_set calls).
      destruct (Text.__surf self0) as [s0|] eqn:Hs0.
      + split; [|by intros [? _]]. intros [Hs1 _].
        by destruct (Hsome ltac:(done)).
      + specialize (Hnone eq_refl).
        destruct c as [?|?|v|?]; simpl;
          try (rewrite Hnone; split; intros [? ?]; done).
        rewrite Hnone, Forall_cons. split; intros [? ?]; done. }
  destruct Hall as (Hc & Hiff).
  assert (Hnone : Text.__surf self = None
                  ↔ Forall (λ v, v = "") (value :: values_set calls)).
  { rewrite Hiff, Hs0, Forall_cons. done. }
  split; [done|].
  rewrite (TextFacts.draw_cached color self Hc).
  unfold Text.get_active, Text.get_value, Text.get_anchor, Text.get_loc.
  destruct (Text.__active self); [|done].
  destruct Hc as (_ & _ & Hs).
  destruct (Text.__surf self) as [surf|].
  - rewrite decide_False; [by rewrite Hs|]. intros H. by apply Hnone in H.
  - rewrite decide_True; [done|]. by apply Hnone.
Qed.

Lemma text_draws_its_current_value_witness :
  ∃ self,
    Text.__init__ (10, 20)%float "" "white" "topright"
      ≫= for_each text_do [Set_active false; Set_value "Paused"; Set_active true]
    = Ok self
    ∧ Text.draw self
      = Ok [Text.Blit (Text.Surface "Paused" "white") "topright" (10, 20)%float].
Proof.
  eexists. split; [reflexivity|].
  exact (proj2 (text_draws_its_current_value (10, 20)%float "" "white" "topright"
                  [Set_active false; Set_value "Paused"; Set_active true]
                  _ eq_refl)).
Defined.

Module SpriteFacts.
Import ResultFacts.

Section WithColours.

Variable COLOR_MAP : float → list float.

Lemma cell_update_same (value : float) (self : cell) :
  (cell_value self =? value)%float = true →
  cell_update COLOR_MAP value self = Ok self.
Proof. unfold cell_update. by intros ->. Qed.

Lemma cell_update_Ok (value : float) (self self' : cell) :
  cell_update COLOR_MAP value self = Ok self' →
  cell_loc self' = cell_loc self
  ∧ cell_width self' = cell_width self
  ∧ cell_height self' = cell_height self
  ∧ (cell_value self' = value ∨ (cell_value self' =? value)%float = true)
  ∧ ((cell_value self =? value)%float = true → self' = self)
  ∧ ((cell_value self =? value)%float = false →
     cell_value self' = value
     ∧ ∃ color,
         mapM (λ i, Py.int (255 * i)%float) (COLOR_MAP value) = Ok color
         ∧ cell_color self' = Some color
         ∧ cell_fill self' = Some color).
Proof.
  unfold cell_update.
  destruct (cell_value self =? value)%float eqn:Heq; simpl.
  - intros [= <-]. repeat (split; [done|]). split; [by right|]. done.
  - intros Hc. apply bind_Ok in Hc as (color & Hcolor & [= <-]). simpl.
    repeat (split; [done|]). split; [by left|]. split; [done|].
    intros _. split; [done|]. by exists color.
Qed.

(** [Cell.update] can raise on the conversion of a colour only. *)
Lemma int_raises (x : float) (e : exn) :
  Py.int x = Raise e → e = ValueError ∨ e = OverflowError.
Proof.
  unfold Py.int. destruct (Conv.trunc x); [done|].
  destruct (PrimFloat.is_nan x); intros [= <-]; by eauto.
Qed.

Lemma mapM_int_raises (l : list float) (e : exn) :
  mapM (λ i, Py.int (255 * i)%float) l = Raise e →
  e = ValueError ∨ e = OverflowError.
Proof.
  induction l as [|x l IH]; [done|].
  cbn [mapM]. pose proof (int_raises (255 * x) e) as Hx.
  destruct (Py.int (255 * x)) as [z|e']; simpl;
    [|by intros [= ->]; apply Hx].
  destruct (mapM _ l) as [zs|e']; simpl; [done|by auto].
Qed.

Lemma cell_update_raises (value : float) (self : cell) (e : exn) :
  cell_update COLOR_MAP value self = Raise e →
  e = ValueError ∨ e = OverflowError.
Proof.
  unfold cell_update. destruct (negb _); [|done].
  pose proof (mapM_int_raises (COLOR_MAP value) e) as H.
  destruct (mapM _ (COLOR_MAP value)) as [c|e']; simpl;
    [done|by intros [= ->]; apply H].
Qed.

Lemma mesh_update_from_Ok (i : nat) (values : list float)
    (sprites sprites' : list cell) :
  mesh_update_from COLOR_MAP i values sprites = Ok sprites' →
  length sprites' = length sprites
  ∧ ∀ k c, sprites !! k = Some c →
      ∃ c' v,
        sprites' !! k = Some c'
        ∧ values !! (i + k) = Some v
        ∧ cell_update COLOR_MAP v c = Ok c'.
Proof.
  revert i sprites'. induction sprites as [|s sprites IH]; intros i sprites'.
  - simpl. intros [= <-]. split; [done|]. intros k c. by rewrite lookup_nil.
  - cbn [mesh_update_from]. intros H.
    apply bind_Ok in H as (v & Hv & H). apply or_raise_Ok in Hv.
    apply bind_Ok in H as (s' & Hs' & H).
    apply bind_Ok in H as (rest' & Hrest & [= <-]).
    destruct (IH _ _ Hrest) as (Hlen & Hat).
    split; [simpl; by rewrite Hlen|].
    intros [|k] c; simpl.
    + intros [= <-]. exists s', v. rewrite Nat.add_0_r.
      done.
    + intros Hk. destruct (Hat k c Hk) as (c' & v' & ? & ? & ?).
      exists c', v'. split; [done|]. split; [|done].
      by replace (i + S k) with (S i + k) by lia.
Qed.

(** [Mesh.update] raises [IndexError] on too few values only. *)
Lemma mesh_update_from_raises (i : nat) (values : list float)
    (sprites : list cell) (e : exn) :
  i + length sprites ≤ length values →
  mesh_update_from COLOR_MAP i values sprites = Raise e →
  e = ValueError ∨ e = OverflowError.
Proof.
  revert i. induction sprites as [|s sprites IH]; intros i Hlen; [done|].
  cbn [mesh_update_from]. simpl in Hlen.
  destruct (lookup_lt_is_Some_2 values i ltac:(lia)) as [v ->]. simpl.
  pose proof (cell_update_raises v s e) as Hs.
  destruct (cell_update COLOR_MAP v s) as [s'|e']; simpl;
    [|by intros [= ->]; apply Hs].
  pose proof (IH (S i) ltac:(lia)) as Hrest.
  destruct (mesh_update_from COLOR_MAP (S i) values sprites) as [r|e']; simpl;
    [done|by auto].
Qed.

(** The sprite of column [i] and row [j]. *)
Lemma cell_init_one (loc : float * float) (width height : float) :
  cell_init COLOR_MAP loc width height 1
  = Ok (Cell width height loc 1 None None).
Proof. reflexivity. Qed.

Lemma create_column (rows : list nat) (x0 y0 bw : float) (i : nat)
    (mesh : list cell) :
  for_each
    (λ mesh j,
       sprite ← cell_init COLOR_MAP
         (x0 + Conv.of_nat i * bw, y0 + Conv.of_nat j * bw)%float
         (bw + 1)%float (bw + 1)%float 1;
       Ok (mesh ++ [sprite]))
    rows mesh
  = Ok (mesh ++ map (λ j, new_sprite x0 y0 bw i j) rows).
Proof.
  revert mesh. induction rows as [|j rows IH]; intros mesh; simpl.
  - by rewrite app_nil_r.
  - rewrite IH. by rewrite <- app_assoc.
Qed.

Lemma create_columns (columns : list nat) (ny : nat) (x0 y0 bw : float)
    (mesh : list cell) :
  for_each
    (λ mesh i,
       for_each
         (λ mesh j,
            sprite ← cell_init COLOR_MAP
              (x0 + Conv.of_nat i * bw, y0 + Conv.of_nat j * bw)%float
              (bw + 1)%float (bw + 1)%float 1;
            Ok (mesh ++ [sprite]))
         (seq 0 ny) mesh)
    columns mesh
  = Ok (mesh ++ concat (map (λ i, map (λ j, new_sprite x0 y0 bw i j) (seq 0 ny))
                          columns)).
Proof.
  revert mesh. induction columns as [|i columns IH]; intros mesh.
  - simpl. by rewrite app_nil_r.
  - cbn [for_each]. rewrite create_column. simpl. rewrite IH.
    by rewrite <- app_assoc.
Qed.

Lemma create_sprites_eq (nx ny : nat) (x0 y0 bw : float) :
  Viewer.create_sprites COLOR_MAP nx ny x0 y0 bw
  = Ok (concat (map (λ i, map (λ j, new_sprite x0 y0 bw i j) (seq 0 ny))
                  (seq 0 nx))).
Proof. unfold Viewer.create_sprites. by rewrite create_columns. Qed.

End WithColours.

(** Rows of one length, put end to end. *)
Lemma concat_lookup_uniform {A : Type} (rows : list (list A)) (n i j : nat) :
  Forall (λ r, length r = n) rows → j < n →
  concat rows !! (i * n + j) = rows !! i ≫= λ r, r !! j.
Proof.
  intros Hrows Hj. revert i.
  induction Hrows as [|r rows Hr _ IH]; intros i; [done|].
  destruct i as [|i]; simpl.
  - rewrite lookup_app_l by lia. done.
  - rewrite lookup_app_r by lia. rewrite Hr.
    replace (n + i * n + j - n) with (i * n + j) by lia. apply IH.
Qed.

Lemma column_length (a : Np.grid) (ny nx i : nat) :
  Np.has_shape ny nx a → i < nx →
  length (omap (λ r : list float, r !! i) a) = ny.
Proof.
  intros [Hlen Hrows] Hi. rewrite <- Hlen. clear Hlen.
  induction Hrows as [|r a Hr _ IH]; [done|]. simpl.
  destruct (lookup_lt_is_Some_2 r i ltac:(lia)) as [x ->]. simpl.
  f_equal. exact IH.
Qed.

Lemma column_lookup (a : Np.grid) (ny nx i j : nat) :
  Np.has_shape ny nx a → i < nx →
  omap (λ r : list float, r !! i) a !! j = Np.cell a j i.
Proof.
  intros [_ Hrows] Hi. unfold Np.cell. revert j.
  induction Hrows as [|r a Hr _ IH]; intros j; [done|]. simpl.
  destruct (lookup_lt_is_Some_2 r i ltac:(lia)) as [x Hx]. rewrite Hx.
  destruct j as [|j]; simpl; [done|]. apply IH.
Qed.

Lemma shape_of_has_shape {A : Type} (a : list (list A)) (ny nx : nat) :
  Np.has_shape ny nx a → a ≠ [] → Np.shape a = (ny, nx).
Proof.
  intros [Hlen Hrows] Ha. unfold Np.shape. rewrite Hlen.
  destruct a as [|r a]; [done|].
  apply Forall_cons in Hrows as [Hr _]. by rewrite Hr.
Qed.

Lemma transpose_has_shape (a : Np.grid) (ny nx : nat) :
  Np.has_shape ny nx a → a ≠ [] → Np.has_shape nx ny (Viewer.transpose a).
Proof.
  intros Ha Hne. unfold Viewer.transpose.
  rewrite (shape_of_has_shape a ny nx Ha Hne).
  split; [by rewrite length_map, length_seq|].
  apply Forall_forall. intros col Hcol.
  apply list_elem_of_fmap in Hcol as (i & -> & Hi).
  apply elem_of_seq in Hi. apply (column_length a ny nx); [done|lia].
Qed.

Lemma length_concat_uniform {A : Type} (rows : list (list A)) (m n : nat) :
  Np.has_shape m n rows → length (concat rows) = m * n.
Proof.
  intros [Hlen Hrows]. subst m.
  induction Hrows as [|r rows Hr _ IH]; [done|].
  simpl. rewrite length_app, IH, Hr. lia.
Qed.

(** [a.T.flatten()]: the entry of column [i] and row [j]. *)
Lemma flatten_transpose_lookup (a : Np.grid) (ny nx i j : nat) :
  Np.has_shape ny nx a → i < nx → j < ny →
  Viewer.flatten (Viewer.transpose a) !! (i * ny + j) = Np.cell a j i.
Proof.
  intros Ha Hi Hj.
  assert (Hne : a ≠ []).
  { destruct Ha as [Hlen _]. intros ->. simpl in Hlen. lia. }
  unfold Viewer.flatten.
  rewrite (concat_lookup_uniform _ ny)
    by (by apply (transpose_has_shape a ny nx) || done).
  unfold Viewer.transpose. rewrite (shape_of_has_shape a ny nx Ha Hne).
  change (map ?f ?l) with (f <$> l). rewrite list_lookup_fmap.
  rewrite lookup_seq_lt by done. simpl.
  by apply (column_lookup a ny nx).
Qed.

Lemma length_flatten_transpose (a : Np.grid) (ny nx : nat) :
  Np.has_shape ny nx a → a ≠ [] →
  length (Viewer.flatten (Viewer.transpose a)) = nx * ny.
Proof.
  intros Ha Hne. unfold Viewer.flatten.
  apply length_concat_uniform. by apply transpose_has_shape.
Qed.

Lemma sprites_has_shape (nx ny : nat) (x0 y0 bw : float) :
  Np.has_shape nx ny
    (map (λ i, map (λ j, new_sprite x0 y0 bw i j) (seq 0 ny)) (seq 0 nx)).
Proof.
  split; [by rewrite length_map, length_seq|].
  apply Forall_forall. intros col Hcol.
  apply list_elem_of_fmap in Hcol as (i & -> & _).
  by rewrite length_map, length_seq.
Qed.

End SpriteFacts.

(** X11. A fresh cell is not painted.  The constructor of [Cell] stores
    the value before it calls [update], which repaints on a change of
    value only: for a value other than [nan] the constructor, and every
    later [update] with an equal value, leave the colour unset and the
    image unfilled, and never call the colour map. *)
Theorem fresh_cell_is_not_painted
    (COLOR_MAP : float → list float) (loc : float * float)
    (width height value : float) (values : list float) :
  PrimFloat.is_nan value = false →
  Forall (λ v, (value =? v)%float = true) values →
  cell_init COLOR_MAP loc width height value
    ≫= for_each (λ self v, cell_update COLOR_MAP v self) values
  = Ok (Cell width height loc value None None).
Proof.
  intros Hnan Hall. unfold cell_init.
  rewrite SpriteFacts.cell_update_same
    by (unfold PrimFloat.is_nan in Hnan; simpl; by destruct (value =? value)%float).
  simpl. induction Hall as [|v values Hv _ IH]; [done|].
  cbn [for_each]. rewrite SpriteFacts.cell_update_same by done. exact IH.
Qed.

Lemma fresh_cell_is_not_painted_witness :
  cell_init two_tones (0, 0)%float 11 11 1
    ≫= for_each (λ self v, cell_update two_tones v self) [1; 1]%float
  = Ok (Cell 11 11 (0, 0)%float 1 None None).
Proof.
  apply (fresh_cell_is_not_painted two_tones (0, 0)%float 11 11 1 [1; 1]%float).
  - reflexivity.
  - repeat constructor.
Defined.

(** X12. The colour of a painted cell.  After the constructor and any
    sequence of [update] calls that raise nothing, the location of the
    cell is the constructor's, the fill of its image is its colour, a
    filled image holds the colour of the colour map at the stored value,
    each component times 255 and truncated, and the stored value equals
    the last value passed to [update] (as numbers, or the very value). *)
Theorem painted_cell_shows_its_value
    (COLOR_MAP : float → list float) (loc : float * float)
    (width height value : float) (values : list float) (self : cell) :
  cell_init COLOR_MAP loc width height value
    ≫= for_each (λ self v, cell_update COLOR_MAP v self) values
  = Ok self →
  cell_loc self = loc
  ∧ cell_color self = cell_fill self
  ∧ (∀ color, cell_fill self = Some color →
       mapM (λ i, Py.int (255 * i)%float) (COLOR_MAP (cell_value self))
       = Ok color)
  ∧ (∀ v, last values = Some v →
       cell_value self = v ∨ (cell_value self =? v)%float = true).
Proof.
  intros Hrun. apply ResultFacts.bind_Ok in Hrun as (self0 & Hinit & Hrun).
  set (painted := λ c : cell,
         cell_loc c = loc
         ∧ cell_color c = cell_fill c
         ∧ ∀ color, cell_fill c = Some color →
             mapM (λ i, Py.int (255 * i)%float) (COLOR_MAP (cell_value c))
             = Ok color).
  assert (Hstep : ∀ c v c', painted c → cell_update COLOR_MAP v c = Ok c' →
                            painted c').
  { intros c v c' (Hl & Hcf & Hp) Hup.
    destruct (SpriteFacts.cell_update_Ok _ _ _ _ Hup)
      as (Hl' & _ & _ & _ & Hsame & Hdiff).
    destruct (cell_value c =? v)%float eqn:Heq.
    - by rewrite (Hsame eq_refl).
    - destruct (Hdiff eq_refl) as (Hv & color & Hcolor & Hc & Hf).
      split; [congruence|]. split; [congruence|].
      intros color'. rewrite Hf, Hv. by intros [= <-]. }
  assert (H0 : painted self0).
  { unfold cell_init in Hinit. refine (Hstep _ _ _ _ Hinit).
    unfold painted. simpl. done. }
  assert (Hend : painted self).
  { refine (ResultFacts.for_each_invariant painted _ _ _ _ _ H0 Hrun).
    intros c v c' Hc Hup. exact (Hstep _ _ _ Hc Hup). }
  destruct Hend as (Hl & Hcf & Hp).
  split; [done|]. split; [done|]. split; [done|].
  intros v Hlast.
  destruct values as [|v0 values _] using rev_ind; [done|].
  rewrite last_snoc in Hlast. injection Hlast as ->.
  rewrite ResultFacts.for_each_app in Hrun.
  apply ResultFacts.bind_Ok in Hrun as (self1 & _ & Hlast).
  simpl in Hlast. apply ResultFacts.bind_Ok in Hlast as (self2 & Hup & [= ->]).
  by destruct (SpriteFacts.cell_update_Ok _ _ _ _ Hup) as (_ & _ & _ & Hv & _).
Qed.

Lemma painted_cell_shows_its_value_witness :
  ∃ self,
    cell_init two_tones (0, 0)%float 11 11 1
      ≫= for_each (λ self v, cell_update two_tones v self) [1; 0.25]%float
    = Ok self
    ∧ cell_fill self = Some [0; 0; 255; 255]%Z.
Proof.
  eexists. split; [reflexivity|].
  destruct (painted_cell_shows_its_value two_tones (0, 0)%float 11 11 1
              [1; 0.25]%float _ eq_refl) as (_ & Hsame & _).
  rewrite <- Hsame. reflexivity.
Defined.

(** X13. The sprite of a particle.  [Animation.__init__] creates the
    sprites column by column, and [Mesh.update] hands the values of
    [snapshot.T.flatten()] to the sprites in that order.  For a snapshot of
    [ny] rows and [nx] columns there are [nx * ny] sprites, [Mesh.update]
    raises no [IndexError], and when it returns, the sprite number
    [i * ny + j], located at [(x0 + i * box_width, y0 + j * box_width)],
    holds the value [snapshot[j, i]] of row [j] and column [i]. *)
Theorem sprite_shows_its_own_particle
    (COLOR_MAP : float → list float) (snapshot : Np.grid) (ny nx : nat)
    (x0 y0 box_width : float) :
  Np.has_shape ny nx snapshot →
  ∃ sprites,
    Viewer.create_sprites COLOR_MAP nx ny x0 y0 box_width = Ok sprites
    ∧ length sprites = nx * ny
    ∧ mesh_update COLOR_MAP (Viewer.flatten (Viewer.transpose snapshot)) sprites
      ≠ Raise IndexError
    ∧ ∀ sprites',
        mesh_update COLOR_MAP (Viewer.flatten (Viewer.transpose snapshot))
          sprites = Ok sprites' →
        ∀ i j, i < nx → j < ny →
          ∃ sprite value,
            sprites' !! (i * ny + j) = Some sprite
            ∧ cell_loc sprite
              = (x0 + Conv.of_nat i * box_width,
                 y0 + Conv.of_nat j * box_width)%float
            ∧ Np.cell snapshot j i = Some value
            ∧ (cell_value sprite = value
               ∨ (cell_value sprite =? value)%float = true).
Proof.
  intros Hshape. eexists. split; [apply SpriteFacts.create_sprites_eq|].
  pose proof (SpriteFacts.sprites_has_shape nx ny x0 y0 box_width) as Hs.
  pose proof (SpriteFacts.length_concat_uniform _ _ _ Hs) as Hlen.
  split; [done|]. split.
  { destruct (decide (snapshot = [])) as [->|Hne].
    - destruct Hshape as [<- _]. rewrite Nat.mul_0_r in Hlen.
      apply nil_length_inv in Hlen. rewrite Hlen. done.
    - intros Hraise.
      apply SpriteFacts.mesh_update_from_raises in Hraise as [|]; [done|done|].
      rewrite Hlen, (SpriteFacts.length_flatten_transpose _ ny nx) by done.
      lia. }
  intros sprites' Hup i j Hi Hj.
  apply SpriteFacts.mesh_update_from_Ok in Hup as (_ & Hat).
  destruct (Hat (i * ny + j) (new_sprite x0 y0 box_width i j))
    as (sprite & value & Hsprite & Hvalue & Hcell).
  { rewrite (SpriteFacts.concat_lookup_uniform _ ny) by (apply Hs || done).
    change (map ?f ?l) with (f <$> l). rewrite list_lookup_fmap.
    rewrite lookup_seq_lt by done. simpl.
    rewrite list_lookup_fmap, lookup_seq_lt by done. done. }
  exists sprite, value. split; [done|].
  destruct (SpriteFacts.cell_update_Ok _ _ _ _ Hcell) as (-> & _ & _ & Hv & _).
  split; [done|]. split; [|done].
  simpl in Hvalue. rewrite <- Hvalue.
  symmetry. by apply (SpriteFacts.flatten_transpose_lookup _ ny nx).
Qed.

Lemma sprite_shows_its_own_particle_witness :
  ∃ sprites,
    Viewer.create_sprites two_tones 3 2 0 0 10 = Ok sprites
    ∧ length sprites = 6.
Proof.
  destruct (sprite_shows_its_own_particle two_tones
              [[0; 0.25; 0.5]; [0.75; 1; 0]]%float 2 3 0 0 10)
    as (sprites & Hsprites & Hlen & _).
  { split; [reflexivity|]. repeat constructor. }
  exists sprites. split; [exact Hsprites | exact Hlen].
Defined.

(** * The viewer: the normalisation of the data *)

Module NormFacts.
Import Viewer.

Lemma eqb_zero_iff (x : float) :
  (x =? 0)%float = true ↔ ∃ s, Prim2SF x = S754_zero s.
Proof.
  rewrite FloatAxioms.eqb_spec. change (Prim2SF 0) with (S754_zero false).
  destruct (Prim2SF x) as [s|s| |s m e]; unfold SFeqb; simpl.
  - split; [by eauto|done].
  - split; [by destruct s|]. by intros [? ?].
  - split; [done|]. by intros [? ?].
  - split; [by destruct s|]. by intros [? ?].
Qed.

Lemma nan_eq (x : float) : Prim2SF x = S754_nan → x = nan.
Proof. intros Hx. by apply Prim2SF_inj. Qed.

Lemma maximum_zeros (a b : float) :
  (a =? 0)%float = true → (b =? 0)%float = true → maximum a b = a.
Proof.
  rewrite !eqb_zero_iff. intros [sa Ha] [sb Hb]. unfold maximum.
  rewrite FloatAxioms.leb_spec, Ha, Hb. done.
Qed.

Lemma minimum_zeros (a b : float) :
  (a =? 0)%float = true → (b =? 0)%float = true → minimum a b = a.
Proof.
  rewrite !eqb_zero_iff. intros [sa Ha] [sb Hb]. unfold minimum.
  rewrite FloatAxioms.leb_spec, Ha, Hb. done.
Qed.

Lemma foldl_zeros (op : float → float → float) (x : float) (l : list float) :
  (∀ a b, (a =? 0)%float = true → (b =? 0)%float = true → op a b = a) →
  (x =? 0)%float = true → Forall (λ y, (y =? 0)%float = true) l →
  foldl op x l = x.
Proof.
  intros Hop Hx Hl. induction Hl as [|y l Hy _ IH]; [done|].
  simpl. by rewrite Hop.
Qed.

Lemma abs_zero (x : float) : (x =? 0)%float = true → PrimFloat.abs x = 0%float.
Proof.
  rewrite eqb_zero_iff. intros [s Hx]. apply Prim2SF_inj.
  by rewrite FloatAxioms.abs_spec, Hx.
Qed.

(** Around a target of 0, a displacement of 0 is normalised to [nan]. *)
Lemma normalized_zero (x : float) :
  (x =? 0)%float = true → normalized 0 x = nan.
Proof.
  rewrite eqb_zero_iff. intros [s Hx]. unfold normalized.
  assert ((x + 0)%float = 0%float) as ->.
  { apply Prim2SF_inj. rewrite FloatAxioms.add_spec, Hx. by destruct s. }
  reflexivity.
Qed.

Lemma target_zero (data : list Np.grid) :
  flatten3 data ≠ [] →
  Forall (λ x, (x =? 0)%float = true) (flatten3 data) →
  normalization_target data = Ok 0%float.
Proof.
  intros Hne Hall. unfold normalization_target.
  destruct (flatten3 data) as [|x l]; [done|].
  apply Forall_cons in Hall as [Hx Hl]. simpl.
  rewrite (foldl_zeros maximum) by (done || apply maximum_zeros).
  rewrite (foldl_zeros minimum) by (done || apply minimum_zeros).
  by rewrite (abs_zero x Hx).
Qed.

End NormFacts.

(** X14. A trajectory without motion.  When every displacement of a
    trajectory with at least one entry is 0 (or [-0.0]), the normalisation
    of [Animation.__init__] raises nothing and turns every entry into
    [nan]: the target is 0 and every entry becomes [0 / 0]. *)
Theorem motionless_trajectory_is_normalized_to_nan (data : list Np.grid) :
  Viewer.flatten3 data ≠ [] →
  Forall (Forall (Forall (λ x, (x =? 0)%float = true))) data →
  ∃ data',
    Viewer.normalize data = Ok data'
    ∧ Forall2 (Forall2 (Forall2 (λ _ x', x' = nan))) data data'.
Proof.
  intros Hne Hall. unfold Viewer.normalize.
  rewrite NormFacts.target_zero; [|done|].
  - simpl. eexists. split; [done|].
    apply Forall2_fmap_r, Forall_Forall2_diag.
    eapply Forall_impl; [exact Hall|]. intros g Hg. simpl.
    apply Forall2_fmap_r, Forall_Forall2_diag.
    eapply Forall_impl; [exact Hg|]. intros r Hr. simpl.
    apply Forall2_fmap_r, Forall_Forall2_diag.
    eapply Forall_impl; [exact Hr|]. intros x Hx. simpl.
    by apply NormFacts.normalized_zero.
  - unfold Viewer.flatten3. apply Forall_concat, Forall_concat.
    exact Hall.
Qed.

Lemma motionless_trajectory_is_normalized_to_nan_witness :
  ∃ data',
    Viewer.normalize [[[0; 0]; [0; -0]]; [[0; 0]; [0; 0]]]%float = Ok data'
    ∧ Forall2 (Forall2 (Forall2 (λ _ x', x' = nan)))
        [[[0; 0]; [0; -0]]; [[0; 0]; [0; 0]]]%float data'.
Proof.
  apply (motionless_trajectory_is_normalized_to_nan
           [[[0; 0]; [0; -0]]; [[0; 0]; [0; 0]]]%float).
  - discriminate.
  - repeat constructor.
Defined.

(** * The viewer: the loop of [run] *)

Module BarFacts.
Import ResultFacts IndicatorBar.

Lemma set_value_raises (v : float) (self : t) (e : exn) :
  set_value v self = Raise e → e = ValueError ∨ e = OverflowError.
Proof.
  unfold set_value. cbv zeta.
  set (v' := if ((if (1 <? v)%float then 1%float else v) <? -1)%float
             then (-1)%float else if (1 <? v)%float then 1%float else v).
  cbn [__fill_direction __value __width __height __rect __left __top].
  case_decide as Hh.
  - pose proof (SpriteFacts.int_raises (v' * Conv.of_Z (__width self)) e) as Hw.
    destruct (Py.int _) as [w|e']; simpl; [|by intros [= ->]; apply Hw].
    rewrite Hh. simpl. done.
  - simpl. case_decide as Hv; [|done].
    pose proof (SpriteFacts.int_raises (v' * Conv.of_Z (__height self)) e) as Hw.
    destruct (Py.int _) as [w|e']; simpl; [|by intros [= ->]; apply Hw].
    done.
Qed.

End BarFacts.

Module AnimationFacts.
Import ResultFacts Viewer.

Lemma for_each_raises {A B : Type} (P : B → Prop) (Q : A → exn → Prop)
    (f : B → A → result B) (l : list A) (b : B) (e : exn) :
  (∀ b x b', P b → f b x = Ok b' → P b') →
  (∀ b x e, P b → f b x = Raise e → Q x e) →
  P b → for_each f l b = Raise e → Exists (λ x, Q x e) l.
Proof.
  intros Hok Hraise. revert b. induction l as [|x l IH]; intros b Hb; [done|].
  simpl. destruct (f b x) as [b'|e'] eqn:Hf; simpl.
  - intros H. apply Exists_cons_tl. by eapply IH; [eapply Hok|].
  - intros [= ->]. apply Exists_cons_hd. by eapply Hraise.
Qed.

Section Control.

Variables (r0 : bool) (color : string) (ny nx n : nat).

Lemma switch_pause_consistent (self : animation) :
  consistent r0 color ny nx n self →
  consistent r0 color ny nx n (_switch_pause self).
Proof.
  intros [Hl [Hc [Ha Hs]] Hsurf Htt Hd Ht Hsh Hm Hi Hn Hr].
  constructor; simpl; try done.
  unfold Text.get_active. rewrite Hl. by destruct r0, (running self).
Qed.

Lemma rewind_consistent (self : animation) :
  consistent r0 color ny nx n self →
  consistent r0 color ny nx n
    (with_control (running self) (debugging self) 0 (pause_text self) self).
Proof. intros []. constructor; simpl; try done. lia. Qed.

Lemma reset_animation_consistent (self : animation) :
  consistent r0 color ny nx n self →
  consistent r0 color ny nx n (_reset_animation self).
Proof.
  intros Hc. unfold _reset_animation. cbn [running with_control].
  destruct (running self) eqn:Hr.
  - apply switch_pause_consistent. rewrite <- Hr. by apply rewind_consistent.
  - rewrite <- Hr. by apply rewind_consistent.
Qed.

Lemma handle_event_consistent (self : animation) (e : event) (self' : animation) :
  consistent r0 color ny nx n self →
  handle_event self e = Ok self' →
  consistent r0 color ny nx n self'.
Proof.
  intros Hc. destruct e as [|[| | | |]|]; simpl; try done; intros [= <-];
    try done.
  - by apply switch_pause_consistent.
  - by apply reset_animation_consistent.
  - destruct Hc. by constructor.
Qed.

Lemma handle_event_raises (self : animation) (e : event) (x : exn) :
  handle_event self e = Raise x → x = SystemExit ∧ is_quit e.
Proof.
  unfold is_quit.
  destruct e as [|[| | | |]|]; simpl; try done; intros [= <-]; by auto.
Qed.

Lemma check_events_consistent (events : list event) (self self' : animation) :
  consistent r0 color ny nx n self →
  _check_events events self = Ok self' →
  consistent r0 color ny nx n self'.
Proof.
  intros Hc. apply for_each_invariant; [|done].
  intros ????. by apply handle_event_consistent.
Qed.

Lemma check_events_raises (events : list event) (self : animation) (x : exn) :
  _check_events events self = Raise x → x = SystemExit ∧ Exists is_quit events.
Proof.
  intros H.
  pose proof (for_each_raises (λ _, True) (λ e x, x = SystemExit ∧ is_quit e)
                handle_event events self x
                ltac:(done) ltac:(intros ??? _; apply handle_event_raises)
                I H) as Hex.
  split.
  - apply Exists_exists in Hex as (? & _ & ? & _). done.
  - eapply Exists_impl; [exact Hex|]. by intros ? [_ ?].
Qed.

End Control.

Section Frames.

Variable COLOR_MAP : float → list float.
Variable fmt1 : float → string.
Variables (r0 : bool) (color : string) (ny nx n : nat).

Lemma frame_Ok (self : animation) (events : list event) (self' : animation) :
  frame COLOR_MAP fmt1 self events = Ok self' →
  ∃ s1 snapshot mesh' now bar',
    _check_events events self = Ok s1
    ∧ data (rewound s1) !! idx (rewound s1) = Some snapshot
    ∧ mesh_update COLOR_MAP (flatten (transpose snapshot)) (mesh (rewound s1))
      = Ok mesh'
    ∧ time (rewound s1) !! idx (rewound s1) = Some now
    ∧ IndicatorBar.set_value (now / max_time (rewound s1))
        (time_bar (rewound s1)) = Ok bar'
    ∧ self' = advanced
        (with_widgets mesh' bar'
           (Text.set_value ("Time: " +:+ fmt1 now +:+ " s")
              (time_text (rewound s1)))
           (rewound s1)).
Proof.
  unfold frame. intros H.
  apply bind_Ok in H as (s1 & Hs1 & H). fold (rewound s1) in H.
  apply bind_Ok in H as (snapshot & Hsnap & H). apply or_raise_Ok in Hsnap.
  apply bind_Ok in H as (mesh' & Hmesh & H).
  apply bind_Ok in H as (now & Hnow & H). apply or_raise_Ok in Hnow.
  apply bind_Ok in H as (bar' & Hbar & H).
  apply bind_Ok in H as (? & _ & H).
  apply bind_Ok in H as (? & _ & H).
  injection H as <-.
  by exists s1, snapshot, mesh', now, bar'.
Qed.

Lemma rewound_consistent (self : animation) :
  consistent r0 color ny nx n self →
  consistent r0 color ny nx n (rewound self) ∧ idx (rewound self) < n.
Proof.
  intros Hc. unfold rewound. case_decide as Hi.
  - split; [by apply reset_animation_consistent|].
    destruct Hc. unfold _reset_animation. cbn [running with_control].
    by destruct (running self).
  - split; [done|]. destruct Hc as [_ _ _ _ Hd _ _ _ _ _ _]. lia.
Qed.

Lemma frame_consistent (self : animation) (events : list event)
    (self' : animation) :
  consistent r0 color ny nx n self →
  frame COLOR_MAP fmt1 self events = Ok self' →
  consistent r0 color ny nx n self'.
Proof.
  intros Hc H.
  apply frame_Ok in H as (s1 & snapshot & mesh' & now & bar' & Hs1 & _ & Hmesh
                          & _ & _ & ->).
  pose proof (check_events_consistent _ _ _ _ _ _ _ _ Hc Hs1) as Hc1.
  apply rewound_consistent in Hc1 as [Hs2 Hidx].
  set (s2 := rewound s1) in *.
  apply SpriteFacts.mesh_update_from_Ok in Hmesh as [Hlen _].
  destruct Hs2 as [Hl Hp Hsurf [Hcol [Hanch Htt]] Hd Ht Hsh Hm Hi Hn Hr].
  assert (Htext : Text.cached color
            (Text.set_value ("Time: " +:+ fmt1 now +:+ " s") (time_text s2))).
  { unfold Text.set_value. case_decide; [|done]. split; [done|].
    split; [done|]. simpl. by rewrite Hcol. }
  unfold advanced. cbn [running with_widgets].
  destruct (running s2) eqn:Hrun; constructor; simpl; try done;
    try congruence; try lia.
  by rewrite Hrun.
Qed.

Lemma frame_raises (self : animation) (events : list event) (e : exn) :
  consistent r0 color ny nx n self →
  frame COLOR_MAP fmt1 self events = Raise e →
  e = ValueError ∨ e = OverflowError
  ∨ (e = SystemExit ∧ Exists is_quit events).
Proof.
  intros Hc. unfold frame.
  destruct (_check_events events self) as [s1|e'] eqn:Hs1; simpl.
  2: { intros [= ->]. right. right. by eapply check_events_raises. }
  fold (rewound s1).
  pose proof (check_events_consistent _ _ _ _ _ _ _ _ Hc Hs1) as Hc1.
  apply rewound_consistent in Hc1 as [Hs2 Hidx].
  set (s2 := rewound s1) in *.
  destruct Hs2 as [Hl Hp Hsurf [Hcol [Hanch Htt]] Hd Ht Hsh Hm Hi Hn Hr].
  destruct (lookup_lt_is_Some_2 (data s2) (idx s2) ltac:(lia))
    as [snapshot Hsnap].
  rewrite Hsnap. simpl.
  assert (Hshape : Np.has_shape ny nx snapshot)
    by exact (Forall_lookup_1 _ _ _ _ Hsh Hsnap).
  assert (Hne : snapshot ≠ []).
  { destruct Hshape as [Hlen _]. intros ->. simpl in Hlen. lia. }
  destruct (mesh_update COLOR_MAP _ (mesh s2)) as [mesh'|e'] eqn:Hmesh; simpl.
  2: { intros [= ->].
       apply SpriteFacts.mesh_update_from_raises in Hmesh as [|]; [by auto..|].
       rewrite Hm, (SpriteFacts.length_flatten_transpose _ ny nx) by done.
       lia. }
  destruct (lookup_lt_is_Some_2 (time s2) (idx s2) ltac:(lia)) as [now Hnow].
  rewrite Hnow. simpl.
  destruct (IndicatorBar.set_value _ (time_bar s2)) as [bar'|e'] eqn:Hbar;
    simpl.
  2: { intros [= ->]. apply BarFacts.set_value_raises in Hbar as [|]; by auto. }
  assert (Htext : Text.cached color
            (Text.set_value ("Time: " +:+ fmt1 now +:+ " s") (time_text s2))).
  { unfold Text.set_value. case_decide; [|done]. split; [done|].
    split; [done|]. simpl. by rewrite Hcol. }
  rewrite (TextFacts.draw_cached color _ Htext).
  assert (Hts : Text.__surf
            (Text.set_value ("Time: " +:+ fmt1 now +:+ " s") (time_text s2))
            ≠ None).
  { unfold Text.set_value. case_decide as Hv; [done|].
    destruct (Text.__surf (time_text s2)); [done|].
    rewrite Htt in Hv. done. }
  destruct (Text.__surf (Text.set_value _ _)) as [surf|]; [|done].
  destruct (Text.__active (Text.set_value _ _)); simpl;
    rewrite (TextFacts.draw_cached color) by done;
    destruct (Text.__surf (pause_text s2)); try done;
    by destruct (Text.__active (pause_text s2)).
Qed.

End Frames.

End AnimationFacts.

Module InitFacts.
Import ResultFacts Viewer AnimationFacts.

Lemma normalize_Ok (data data' : list Np.grid) :
  normalize data = Ok data' →
  flatten3 data ≠ []
  ∧ ∃ target, data' = map (Np.maps (normalized target)) data.
Proof.
  unfold normalize, normalization_target. intros H.
  apply bind_Ok in H as (target & Ht & [= <-]).
  split; [|by eauto]. intros Hnil. rewrite Hnil in Ht. done.
Qed.

Lemma normalize_raises (data : list Np.grid) (e : exn) :
  normalize data = Raise e → e = ValueError.
Proof.
  unfold normalize, normalization_target.
  destruct (flatten3 data) as [|x l]; simpl; [by intros [= <-]|done].
Qed.

Lemma shaped_rows (data : list Np.grid) (ny nx : nat) :
  Forall (Np.has_shape ny nx) data → flatten3 data ≠ [] →
  0 < ny ∧ data ≠ [].
Proof.
  intros Hsh Hne. split.
  - destruct ny as [|ny]; [|lia]. exfalso. apply Hne. unfold flatten3.
    induction Hsh as [|g data [Hg _] _ IH]; [done|].
    apply nil_length_inv in Hg. subst g. simpl. apply IH.
    intros Hnil. apply Hne. unfold flatten3. simpl. done.
  - by intros ->.
Qed.

Lemma last_item_is_Some {A : Type} (l : list A) :
  l ≠ [] → is_Some (Np.item l (-1)).
Proof.
  intros Hl. unfold Np.item, Np.index.
  assert (0 < length l) by (destruct l; [done|simpl; lia]).
  rewrite decide_False by lia. rewrite decide_True by lia. simpl.
  apply lookup_lt_is_Some_2. lia.
Qed.

Section Init.

Variables (RUN DEBUG : bool) (SW SH TBH : Z) (B TSF : float) (COLOR : string).
Variable COLOR_MAP : float → list float.
Variable fmt2 : float → string.

Lemma init_Ok (data : list Np.grid) (time : list float) (a : animation) :
  __init__ RUN DEBUG SW SH TBH B TSF COLOR COLOR_MAP fmt2 data time = Ok a →
  ∃ data' frame0 sprites time0,
    Np.item time (-1) = Some (max_time a)
    ∧ normalize data = Ok data'
    ∧ data' !! 0 = Some frame0
    ∧ (Viewer.ny a, Viewer.nx a) = Np.shape frame0
    ∧ create_sprites COLOR_MAP (Viewer.nx a) (Viewer.ny a)
        (x0 a) (y0 a) (box_width a) = Ok sprites
    ∧ mesh_update COLOR_MAP (flatten (transpose frame0)) sprites = Ok (mesh a)
    ∧ IndicatorBar.__init__ 0 (SH - TBH) SW TBH COLOR "horizontal"
      = Ok (time_bar a)
    ∧ time !! 0 = Some time0
    ∧ Text.__init__
        (TSF * Conv.of_Z SW, Conv.of_Z SH - 1 * (TSF * Conv.of_Z SW))%float
        (fmt2 time0) COLOR "bottomleft" = Ok (time_text a)
    ∧ Text.__init__
        (Conv.of_Z SW - one_twentieth * Conv.of_Z SH,
         one_twentieth * Conv.of_Z SH)%float
        "Paused" COLOR "topright" = Ok (pause_text a)
    ∧ running a = RUN
    ∧ debugging a = DEBUG
    ∧ idx a = 0
    ∧ Viewer.data a = data'
    ∧ Viewer.time a = time.
Proof.
  unfold __init__. intros H.
  apply bind_Ok in H as (mt & Hmt & H). apply or_raise_Ok in Hmt.
  apply bind_Ok in H as (data' & Hdata & H).
  apply bind_Ok in H as (frame0 & Hframe & H). apply or_raise_Ok in Hframe.
  destruct (Np.shape frame0) as [ny nx] eqn:Hshape.
  apply bind_Ok in H as (sprites & Hsprites & H).
  apply bind_Ok in H as (mesh & Hmesh & H).
  apply bind_Ok in H as (bar & Hbar & H).
  apply bind_Ok in H as (time0 & Htime0 & H). apply or_raise_Ok in Htime0.
  apply bind_Ok in H as (tt & Htt & H).
  apply bind_Ok in H as (pt & Hpt & H).
  injection H as <-. simpl.
  exists data', frame0, sprites, time0. by rewrite Hshape.
Qed.

Lemma init_consistent (data : list Np.grid) (time : list float)
    (ny nx : nat) (a : animation) :
  Forall (Np.has_shape ny nx) data → length time = length data →
  __init__ RUN DEBUG SW SH TBH B TSF COLOR COLOR_MAP fmt2 data time = Ok a →
  consistent RUN COLOR ny nx (length data) a.
Proof.
  intros Hsh Hlen Hinit.
  apply init_Ok in Hinit
    as (data' & frame0 & sprites & time0 & Hmt & Hdata & Hframe & Hshape
        & Hsprites & Hmesh & Hbar & Htime0 & Htt & Hpt & Hrun & _ & Hidx
        & Hd & Ht).
  apply normalize_Ok in Hdata as (Hne & target & ->).
  destruct (shaped_rows data ny nx Hsh Hne) as [Hny Hdne].
  assert (Hsh' : Forall (Np.has_shape ny nx)
                   (map (Np.maps (normalized target)) data)).
  { apply Forall_fmap. eapply Forall_impl; [exact Hsh|].
    intros g Hg. by apply GridFacts.has_shape_maps. }
  assert (Hf0 : Np.has_shape ny nx frame0)
    by exact (Forall_lookup_1 _ _ _ _ Hsh' Hframe).
  rewrite (SpriteFacts.shape_of_has_shape frame0 ny nx Hf0) in Hshape.
  2: { destruct Hf0 as [Hl _]. intros ->. simpl in Hl. lia. }
  injection Hshape as Hny' Hnx'.
  rewrite Hny', Hnx', SpriteFacts.create_sprites_eq in Hsprites.
  injection Hsprites as <-.
  apply SpriteFacts.mesh_update_from_Ok in Hmesh as [Hml _].
  rewrite (SpriteFacts.length_concat_uniform _ _ _
             (SpriteFacts.sprites_has_shape nx ny _ _ _)) in Hml.
  apply TextFacts.cached_init in Htt as (Hctt & _).
  apply TextFacts.cached_init in Hpt as (Hcpt & Hact & _ & Hsurf).
  constructor; try done.
  - rewrite Hact, Hrun. by destruct RUN.
  - intros Hn. by apply Hsurf in Hn.
  - by rewrite Hd, length_map.
  - by rewrite Ht.
  - by rewrite Hd.
  - lia.
  - destruct data; [done|simpl; lia].
Qed.

Lemma init_raises (data : list Np.grid) (time : list float)
    (ny nx : nat) (e : exn) :
  Forall (Np.has_shape ny nx) data → length time = length data → data ≠ [] →
  __init__ RUN DEBUG SW SH TBH B TSF COLOR COLOR_MAP fmt2 data time = Raise e →
  e = ValueError ∨ e = OverflowError.
Proof.
  intros Hsh Hlen Hdne. unfold __init__.
  assert (Htne : time ≠ []).
  { intros ->. destruct data; [done|simpl in Hlen; lia]. }
  destruct (last_item_is_Some time Htne) as [mt ->]. cbn -[Np.shape].
  destruct (normalize data) as [data'|e'] eqn:Hdata; cbn -[Np.shape].
  2: { intros [= ->]. left. by eapply normalize_raises. }
  apply normalize_Ok in Hdata as (Hne & target & ->).
  destruct (shaped_rows data ny nx Hsh Hne) as [Hny _].
  assert (Hsh' : Forall (Np.has_shape ny nx)
                   (map (Np.maps (normalized target)) data)).
  { apply Forall_fmap. eapply Forall_impl; [exact Hsh|].
    intros g Hg. by apply GridFacts.has_shape_maps. }
  destruct (lookup_lt_is_Some_2 (map (Np.maps (normalized target)) data) 0)
    as [frame0 Hframe].
  { rewrite length_map. destruct data; [done|simpl; lia]. }
  rewrite Hframe. cbn -[Np.shape].
  assert (Hf0 : Np.has_shape ny nx frame0)
    by exact (Forall_lookup_1 _ _ _ _ Hsh' Hframe).
  assert (Hf0ne : frame0 ≠ []).
  { destruct Hf0 as [Hl _]. intros ->. simpl in Hl. lia. }
  rewrite (SpriteFacts.shape_of_has_shape frame0 ny nx Hf0 Hf0ne).
  rewrite SpriteFacts.create_sprites_eq. simpl.
  destruct (mesh_update COLOR_MAP _ _) as [mesh|e'] eqn:Hmesh; simpl.
  2: { intros [= ->].
       apply SpriteFacts.mesh_update_from_raises in Hmesh; [done|].
       rewrite (SpriteFacts.length_concat_uniform _ _ _
                  (SpriteFacts.sprites_has_shape nx ny _ _ _)).
       rewrite (SpriteFacts.length_flatten_transpose _ ny nx) by done. lia. }
  destruct (IndicatorBar.__init__ _ _ _ _ _ _) as [bar|e'] eqn:Hbar; simpl.
  2: { intros [= ->]. unfold IndicatorBar.__init__ in Hbar. simpl in Hbar.
       by apply BarFacts.set_value_raises in Hbar. }
  destruct (lookup_lt_is_Some_2 time 0) as [time0 ->].
  { destruct time; [done|simpl; lia]. }
  simpl. done.
Qed.

End Init.

End InitFacts.

Module RunFacts.
Import ResultFacts Viewer AnimationFacts.

Section Run.

Variable COLOR_MAP : float → list float.
Variable fmt1 : float → string.

Lemma run_consistent (r0 : bool) (color : string) (ny nx n : nat)
    (batches : list (list event)) (self self' : animation) :
  consistent r0 color ny nx n self →
  run COLOR_MAP fmt1 batches self = Ok self' →
  consistent r0 color ny nx n self'.
Proof.
  intros Hc. apply for_each_invariant; [|done].
  apply frame_consistent.
Qed.

Lemma run_raises (r0 : bool) (color : string) (ny nx n : nat)
    (batches : list (list event)) (self : animation) (e : exn) :
  consistent r0 color ny nx n self →
  run COLOR_MAP fmt1 batches self = Raise e →
  e = ValueError ∨ e = OverflowError
  ∨ (e = SystemExit ∧ Exists (Exists is_quit) batches).
Proof.
  intros Hc H.
  pose proof (for_each_raises (consistent r0 color ny nx n)
                (λ events e, e = ValueError ∨ e = OverflowError
                             ∨ (e = SystemExit ∧ Exists is_quit events))
                (frame COLOR_MAP fmt1) batches self e
                (frame_consistent COLOR_MAP fmt1 r0 color ny nx n)
                (frame_raises COLOR_MAP fmt1 r0 color ny nx n)
                Hc H) as Hex.
  apply Exists_exists in Hex as (events & Hin & [?|[?|[? Hq]]]); [by auto..|].
  right. right. split; [done|]. apply Exists_exists. by exists events.
Qed.

Lemma reset_animation_same (self : animation) :
  same_trajectory self (_reset_animation self)
  ∧ idx (_reset_animation self) = 0
  ∧ running (_reset_animation self) = false.
Proof.
  unfold _reset_animation. cbn [running with_control].
  by destruct (running self) eqn:Hr.
Qed.

Lemma handle_event_same (self : animation) (e : event) (self' : animation) :
  handle_event self e = Ok self' →
  same_trajectory self self' ∧ (idx self = 0 → idx self' = 0).
Proof.
  destruct e as [|[| | | |]|]; simpl; try done; intros [= <-]; try done.
  destruct (reset_animation_same self) as (? & ? & _). done.
Qed.

Lemma check_events_same (events : list event) (self self' : animation) :
  _check_events events self = Ok self' →
  same_trajectory self self' ∧ (idx self = 0 → idx self' = 0).
Proof.
  apply (for_each_invariant
           (λ s, same_trajectory self s ∧ (idx self = 0 → idx s = 0))).
  - intros s e s' [(Hd & Ht & Hm & Hb) Hi] He.
    apply handle_event_same in He as [(Hd' & Ht' & Hm' & Hb') Hi'].
    split; [|by auto]. unfold same_trajectory. by rewrite Hd', Ht', Hm', Hb'.
  - done.
Qed.

Lemma rewound_same (self : animation) :
  same_trajectory self (rewound self)
  ∧ (idx self = 0 → idx (rewound self) = 0).
Proof.
  unfold rewound. case_decide; [|done].
  destruct (reset_animation_same self) as (? & ? & _). done.
Qed.

(** A turn of the loop without events. *)
Lemma frame_idle (self self' : animation) :
  frame COLOR_MAP fmt1 self [] = Ok self' →
  data self' = data self
  ∧ (length (data self) ≤ idx self → running self' = false ∧ idx self' = 0)
  ∧ (idx self < length (data self) →
     running self' = running self
     ∧ idx self' = if running self then S (idx self) else idx self).
Proof.
  intros H.
  apply frame_Ok in H as (s1 & snapshot & mesh' & now & bar' & Hs1 & _ & _
                          & _ & _ & ->).
  unfold _check_events in Hs1. simpl in Hs1. injection Hs1 as Hs1. subst s1.
  unfold advanced, rewound. cbn [running with_widgets].
  case_decide as Hi.
  - destruct (reset_animation_same self) as ((Hd & _) & Hidx & Hrun).
    rewrite Hrun. simpl. split; [done|]. split; [done|]. lia.
  - split; [by destruct (running self)|]. split; [lia|].
    intros _. destruct (running self) eqn:Hr; simpl; by rewrite ?Hr.
Qed.

End Run.

End RunFacts.

(** X15. What can end the viewer.  On a trajectory of at least one
    snapshot, all snapshots of one shape, with as many times as
    snapshots, whatever the events: [Animation.__init__] followed by any
    number of turns of the loop of [run] raises neither [IndexError] nor
    [AttributeError]; what it can raise is a [ValueError] or an
    [OverflowError] of a conversion to an integer, or [SystemExit], and
    that only on a [QUIT] event or the escape key. *)
Theorem viewer_stays_inside_the_trajectory
    (ANIMATION_STARTUP_RUN_STATE ANIMATION_STARTUP_DEBUG_STATE : bool)
    (SCREEN_WIDTH SCREEN_HEIGHT TIME_BAR_HEIGHT : Z)
    (BORDER_SPACE_FRAC TEXT_START_FRAC : float) (INDICATORS_COLOR : string)
    (COLOR_MAP : float → list float) (fmt2 fmt1 : float → string)
    (data : list Np.grid) (time : list float) (ny nx : nat)
    (batches : list (list Viewer.event)) (e : exn) :
  Forall (Np.has_shape ny nx) data →
  length time = length data →
  data ≠ [] →
  Viewer.main ANIMATION_STARTUP_RUN_STATE ANIMATION_STARTUP_DEBUG_STATE
    SCREEN_WIDTH SCREEN_HEIGHT TIME_BAR_HEIGHT BORDER_SPACE_FRAC
    TEXT_START_FRAC INDICATORS_COLOR COLOR_MAP fmt2 fmt1 data time batches
  = Raise e →
  e = ValueError ∨ e = OverflowError
  ∨ (e = SystemExit ∧ Exists (Exists is_quit) batches).
Proof.
  intros Hsh Hlen Hne. unfold Viewer.main.
  destruct (Viewer.__init__ _ _ _ _ _ _ _ _ _ _ data time) as [a0|e0] eqn:Hinit;
    simpl.
  - apply (InitFacts.init_consistent _ _ _ _ _ _ _ _ _ _ _ _ ny nx) in Hinit;
      [|done..].
    by apply (RunFacts.run_raises _ _ ANIMATION_STARTUP_RUN_STATE
                INDICATORS_COLOR ny nx (length data)).
  - intros [= ->].
    apply (InitFacts.init_raises _ _ _ _ _ _ _ _ _ _ _ _ ny nx) in Hinit
      as [|]; by auto.
Qed.

Lemma viewer_stays_inside_the_trajectory_witness :
  Sample.main true Sample.data Sample.time
    [[Viewer.KEYDOWN Viewer.K_p]; [Viewer.KEYDOWN Viewer.K_ESCAPE]]
  = Raise SystemExit
  ∧ (SystemExit = ValueError ∨ SystemExit = OverflowError
     ∨ (SystemExit = SystemExit
        ∧ Exists (Exists is_quit)
            [[Viewer.KEYDOWN Viewer.K_p]; [Viewer.KEYDOWN Viewer.K_ESCAPE]])).
Proof.
  split; [reflexivity|].
  apply (viewer_stays_inside_the_trajectory true false 800 600 10 0.125 0.03125
           "white" two_tones no_digits no_digits Sample.data Sample.time 2 2
           [[Viewer.KEYDOWN Viewer.K_p]; [Viewer.KEYDOWN Viewer.K_ESCAPE]]).
  - repeat constructor.
  - reflexivity.
  - discriminate.
  - reflexivity.
Defined.

Module LabelFacts.
Import ResultFacts Viewer AnimationFacts RunFacts.

Lemma switch_pause_labelled (r0 : bool) (self : animation) :
  labelled r0 self → labelled r0 (_switch_pause self).
Proof.
  unfold labelled, _switch_pause, Text.get_active. simpl. intros ->.
  by destruct r0, (running self).
Qed.

Lemma reset_animation_labelled (r0 : bool) (self : animation) :
  labelled r0 self → labelled r0 (_reset_animation self).
Proof.
  intros Hl. unfold _reset_animation. cbn [running with_control].
  destruct (running self) eqn:Hr; [|by rewrite <- Hr].
  apply switch_pause_labelled. by rewrite <- Hr.
Qed.

Lemma handle_event_labelled (r0 : bool) (self : animation) (e : event)
    (self' : animation) :
  labelled r0 self → handle_event self e = Ok self' → labelled r0 self'.
Proof.
  intros Hl. destruct e as [|[| | | |]|]; simpl; try done; intros [= <-];
    try done.
  - by apply switch_pause_labelled.
  - by apply reset_animation_labelled.
Qed.

Lemma frame_labelled (COLOR_MAP : float → list float) (fmt1 : float → string)
    (r0 : bool) (self : animation) (events : list event) (self' : animation) :
  labelled r0 self → frame COLOR_MAP fmt1 self events = Ok self' →
  labelled r0 self'.
Proof.
  intros Hl H.
  apply frame_Ok in H as (s1 & snapshot & mesh' & now & bar' & Hs1 & _ & _
                          & _ & _ & ->).
  assert (H1 : labelled r0 s1).
  { revert Hs1. apply for_each_invariant; [|done].
    intros ????. by apply handle_event_labelled. }
  assert (H2 : labelled r0 (rewound s1)).
  { unfold rewound. case_decide; [|done]. by apply reset_animation_labelled. }
  unfold advanced, labelled in *. cbn [running with_widgets].
  destruct (running (rewound s1)) eqn:Hr; simpl; by rewrite ?Hr.
Qed.

End LabelFacts.

(** X16. The label of the pause.  In every state the viewer reaches, the
    text box [pause_text] is active exactly when the run state equals the
    run state of the start: [_switch_pause] flips both, and the text box
    starts active.  A viewer that starts paused shows the label while
    paused; a viewer that starts running shows it while running. *)
Theorem pause_label_follows_the_startup_state
    (ANIMATION_STARTUP_RUN_STATE ANIMATION_STARTUP_DEBUG_STATE : bool)
    (SCREEN_WIDTH SCREEN_HEIGHT TIME_BAR_HEIGHT : Z)
    (BORDER_SPACE_FRAC TEXT_START_FRAC : float) (INDICATORS_COLOR : string)
    (COLOR_MAP : float → list float) (fmt2 fmt1 : float → string)
    (data : list Np.grid) (time : list float)
    (batches : list (list Viewer.event)) (self : Viewer.animation) :
  Viewer.main ANIMATION_STARTUP_RUN_STATE ANIMATION_STARTUP_DEBUG_STATE
    SCREEN_WIDTH SCREEN_HEIGHT TIME_BAR_HEIGHT BORDER_SPACE_FRAC
    TEXT_START_FRAC INDICATORS_COLOR COLOR_MAP fmt2 fmt1 data time batches
  = Ok self →
  Text.get_active (Viewer.pause_text self)
  = (if ANIMATION_STARTUP_RUN_STATE then Viewer.running self
     else negb (Viewer.running self)).
Proof.
  unfold Viewer.main. intros H.
  apply ResultFacts.bind_Ok in H as (a0 & Hinit & Hrun).
  apply InitFacts.init_Ok in Hinit
    as (data' & frame0 & sprites & time0 & _ & _ & _ & _ & _ & _ & _ & _ & _
        & Hpt & Hr & _).
  apply TextFacts.cached_init in Hpt as (_ & Hact & _).
  assert (H0 : labelled ANIMATION_STARTUP_RUN_STATE a0).
  { unfold labelled, Text.get_active. rewrite Hact, Hr.
    by destruct ANIMATION_STARTUP_RUN_STATE. }
  revert Hrun. apply (ResultFacts.for_each_invariant
                        (labelled ANIMATION_STARTUP_RUN_STATE)); [|done].
  intros ????. by apply LabelFacts.frame_labelled.
Qed.

Lemma pause_label_follows_the_startup_state_witness :
  ∃ self,
    Sample.main true Sample.data Sample.time [[Viewer.KEYDOWN Viewer.K_p]]
    = Ok self
    ∧ Text.get_active (Viewer.pause_text self) = Viewer.running self.
Proof.
  assert (H : ∃ self,
            Sample.main true Sample.data Sample.time
              [[Viewer.KEYDOWN Viewer.K_p]] = Ok self)
    by (eexists; vm_compute; reflexivity).
  destruct H as [self H]. exists self. split; [exact H|].
  exact (pause_label_follows_the_startup_state true false 800 600 10
           0.125 0.03125 "white" two_tones no_digits no_digits
           Sample.data Sample.time [[Viewer.KEYDOWN Viewer.K_p]] self H).
Defined.

(** X17. Playing to the end.  Without events, a viewer that starts running
    shows one snapshot per turn of the loop, and in the turn after the
    last snapshot it rewinds to snapshot 0 and pauses, for good; a viewer
    that starts paused stays at snapshot 0. *)
Theorem playback_stops_at_the_first_snapshot
    (ANIMATION_STARTUP_RUN_STATE ANIMATION_STARTUP_DEBUG_STATE : bool)
    (SCREEN_WIDTH SCREEN_HEIGHT TIME_BAR_HEIGHT : Z)
    (BORDER_SPACE_FRAC TEXT_START_FRAC : float) (INDICATORS_COLOR : string)
    (COLOR_MAP : float → list float) (fmt2 fmt1 : float → string)
    (data : list Np.grid) (time : list float)
    (turns : nat) (self : Viewer.animation) :
  Viewer.main ANIMATION_STARTUP_RUN_STATE ANIMATION_STARTUP_DEBUG_STATE
    SCREEN_WIDTH SCREEN_HEIGHT TIME_BAR_HEIGHT BORDER_SPACE_FRAC
    TEXT_START_FRAC INDICATORS_COLOR COLOR_MAP fmt2 fmt1 data time
    (replicate turns [])
  = Ok self →
  if ANIMATION_STARTUP_RUN_STATE then
    (turns ≤ length data →
     Viewer.idx self = turns ∧ Viewer.running self = true)
    ∧ (length data < turns →
       Viewer.idx self = 0 ∧ Viewer.running self = false)
  else Viewer.idx self = 0 ∧ Viewer.running self = false.
Proof.
  unfold Viewer.main. intros H.
  apply ResultFacts.bind_Ok in H as (a0 & Hinit & Hrun).
  apply InitFacts.init_Ok in Hinit
    as (data' & frame0 & sprites & time0 & _ & Hdata & _ & _ & _ & _ & _ & _
        & _ & _ & Hr & _ & Hidx & Hd & _).
  apply InitFacts.normalize_Ok in Hdata as (_ & target & ->).
  assert (Hlen : length (Viewer.data a0) = length data)
    by (by rewrite Hd, length_map).
  clear Hd. set (n := length data) in *.
  set (r0 := ANIMATION_STARTUP_RUN_STATE) in *.
  assert (Hgoal : length (Viewer.data self) = n
    ∧ if r0 then
        (turns ≤ n → Viewer.idx self = turns ∧ Viewer.running self = true)
        ∧ (n < turns → Viewer.idx self = 0 ∧ Viewer.running self = false)
      else Viewer.idx self = 0 ∧ Viewer.running self = false);
    [|by destruct Hgoal].
  revert self Hrun. induction turns as [|turns IH]; intros self.
  - simpl. intros [= <-]. split; [done|]. rewrite Hr, Hidx.
    destruct r0; [|done]. split; [done|lia].
  - rewrite replicate_S_end. unfold Viewer.run in *.
    rewrite ResultFacts.for_each_app. intros H.
    apply ResultFacts.bind_Ok in H as (s & Hs & H).
    destruct (IH s Hs) as (Hn & Hstate). simpl in H.
    apply ResultFacts.bind_Ok in H as (s' & Hframe & [= ->]).
    apply RunFacts.frame_idle in Hframe as (Hd & Hwrap & Hplay).
    rewrite Hn in Hwrap, Hplay. split; [congruence|].
    destruct r0.
    + destruct Hstate as [Hin Hout]. split.
      * intros Hle. destruct (Hin ltac:(lia)) as [Hi Hrun].
        destruct (Hplay ltac:(lia)) as [-> ->]. by rewrite Hrun, Hi.
      * intros Hlt. destruct (decide (turns = n)) as [->|Hne].
        -- destruct (Hin ltac:(lia)) as [Hi _]. destruct (Hwrap ltac:(lia)).
           done.
        -- destruct (Hout ltac:(lia)) as [Hi Hrun].
           destruct (decide (n ≤ Viewer.idx s)) as [Hle|Hgt].
           ++ by destruct (Hwrap Hle).
           ++ destruct (Hplay ltac:(lia)) as [-> ->]. by rewrite Hrun.
    + destruct Hstate as [Hi Hrun].
      destruct (decide (n ≤ Viewer.idx s)) as [Hle|Hgt].
      * by destruct (Hwrap Hle).
      * destruct (Hplay ltac:(lia)) as [-> ->]. by rewrite Hrun.
Qed.

Lemma playback_stops_at_the_first_snapshot_witness :
  ∃ self,
    Sample.main true Sample.data Sample.time (replicate 3 []) = Ok self
    ∧ Viewer.idx self = 0
    ∧ Viewer.running self = false.
Proof.
  assert (H : ∃ self,
            Sample.main true Sample.data Sample.time (replicate 3 []) = Ok self)
    by (eexists; vm_compute; reflexivity).
  destruct H as [self H]. exists self. split; [exact H|].
  exact (proj2 (playback_stops_at_the_first_snapshot true false 800 600 10
                  0.125 0.03125 "white" two_tones no_digits no_digits
                  Sample.data Sample.time 3 self H) ltac:(simpl; lia)).
Defined.

Module TimeBarFacts.
Import ResultFacts IndicatorBar.

Lemma nan_mul (x : float) : (nan * x)%float = nan.
Proof. apply Prim2SF_inj. by rewrite FloatAxioms.mul_spec. Qed.

(** [0 / 0] *)
Lemma div_zeros (a b : float) :
  (a =? 0)%float = true → (b =? 0)%float = true → (a / b)%float = nan.
Proof.
  intros Ha Hb. apply NormFacts.eqb_zero_iff in Ha as [sa Ha].
  apply NormFacts.eqb_zero_iff in Hb as [sb Hb].
  apply Prim2SF_inj. by rewrite FloatAxioms.div_spec, Ha, Hb.
Qed.

Lemma set_value_nan (self : t) :
  __fill_direction self ∈ ["vertical"; "horizontal"] →
  set_value nan self = Raise ValueError.
Proof.
  intros Hd. unfold set_value.
  change (1 <? nan)%float with false. cbv iota.
  change (nan <? -1)%float with false. cbv iota zeta.
  cbn [__fill_direction __value __width __height __rect __left __top].
  apply elem_of_cons in Hd as [Hd|Hd].
  - rewrite Hd. simpl. by rewrite nan_mul.
  - apply elem_of_cons in Hd as [Hd|Hd]; [|by apply elem_of_nil in Hd].
    rewrite Hd. simpl. by rewrite nan_mul.
Qed.

Lemma set_value_direction (v : float) (self self' : t) :
  set_value v self = Ok self' →
  __fill_direction self' = __fill_direction self.
Proof.
  unfold set_value. cbv zeta.
  cbn [__fill_direction __value __width __height __rect __left __top].
  intros H. apply bind_Ok in H as (s1 & H1 & H).
  apply bind_Ok in H as (s2 & H2 & [= <-]).
  assert (E1 : __fill_direction s1 = __fill_direction self).
  { destruct (decide (__fill_direction self = "horizontal"));
      [|by injection H1 as <-].
    apply bind_Ok in H1 as (w & _ & [= <-]). done. }
  assert (E2 : __fill_direction s2 = __fill_direction s1).
  { destruct (decide (__fill_direction s1 = "vertical"));
      [|by injection H2 as <-].
    apply bind_Ok in H2 as (w & _ & [= <-]). done. }
  destruct (__value s2 <? 0)%float; simpl; congruence.
Qed.

Lemma init_direction (left top width height : Z) (color direction : string)
    (self : t) :
  __init__ left top width height color direction = Ok self →
  __fill_direction self = direction
  ∧ direction ∈ ["vertical"; "horizontal"].
Proof.
  unfold __init__, set_fill_direction. cbv zeta. case_decide as Hd; [|done].
  simpl. intros H. apply set_value_direction in H. done.
Qed.

End TimeBarFacts.

Lemma item_last {A : Type} (l : list A) : Np.item l (-1) = last l.
Proof.
  unfold Np.item, Np.index.
  destruct l as [|x l _] using rev_ind; [done|].
  rewrite last_snoc, length_app. simpl.
  rewrite decide_True by lia. simpl.
  replace (Z.to_nat (-1 + Z.of_nat (length l + 1))) with (length l) by lia.
  by rewrite lookup_app_r, Nat.sub_diag by lia.
Qed.

(** X18. An export without rows cannot be played.  A single-step
    simulation, for a finite [FPS] and a rounding that keeps 0, returns an
    empty time series and an empty array of snapshots, and the viewer on
    them raises [IndexError] in [Animation.__init__], at
    [self.time[-1]], whatever the settings and the events. *)
Theorem single_step_export_cannot_be_played
    (ANIMATION_STARTUP_RUN_STATE ANIMATION_STARTUP_DEBUG_STATE : bool)
    (SCREEN_WIDTH SCREEN_HEIGHT TIME_BAR_HEIGHT : Z)
    (BORDER_SPACE_FRAC TEXT_START_FRAC : float) (INDICATORS_COLOR : string)
    (COLOR_MAP : float → list float) (fmt2 fmt1 : float → string)
    (FPS : float) (round_dec : float → float)
    (masses initial_pos : Np.grid) (particle_types : list (list Z))
    (k L0 d dt : float) (batches : list (list Viewer.event)) :
  Conv.is_finite FPS = true →
  round_dec 0%float = 0%float →
  ∃ ts ps,
    simulate FPS round_dec masses initial_pos particle_types k L0 d dt 1
    = Some (ts, ps)
    ∧ Viewer.main ANIMATION_STARTUP_RUN_STATE ANIMATION_STARTUP_DEBUG_STATE
        SCREEN_WIDTH SCREEN_HEIGHT TIME_BAR_HEIGHT BORDER_SPACE_FRAC
        TEXT_START_FRAC INDICATORS_COLOR COLOR_MAP fmt2 fmt1 ps ts batches
      = Raise IndexError.
Proof.
  intros Hfps Hround. exists [], []. split; [|reflexivity].
  unfold simulate, integrate, initial_history.
  destruct (Np.shape initial_pos) as [ny nx]. simpl.
  apply export_no_rows. unfold row_count. simpl. rewrite Hround.
  unfold Conv.py_int.
  destruct (FloatFacts.mul_zero_r FPS Hfps) as [s Hs].
  by apply (FloatFacts.trunc_zero _ s).
Qed.

Lemma single_step_export_cannot_be_played_witness :
  ∃ ts ps,
    simulate 60 (Round.np_round 3)
      Mesh3.masses Mesh3.initial_pos Mesh3.particle_types 1 1 1 0.5 1
    = Some (ts, ps)
    ∧ Sample.main true ps ts [[]] = Raise IndexError.
Proof.
  exact (single_step_export_cannot_be_played true false 800 600 10
           0.125 0.03125 "white" two_tones no_digits no_digits
           60 (Round.np_round 3)
           Mesh3.masses Mesh3.initial_pos Mesh3.particle_types 1 1 1 0.5 [[]]
           eq_refl eq_refl).
Defined.

(** X19. A time axis that ends at 0.  When the first and the last exported
    time are 0, as in an export of a single row, no turn of the loop of
    [run] completes: the time bar is given [0 / 0], and
    [IndicatorBar.set_value] converts [nan * width] to an integer. *)
Theorem time_axis_ending_at_zero_stops_the_viewer
    (ANIMATION_STARTUP_RUN_STATE ANIMATION_STARTUP_DEBUG_STATE : bool)
    (SCREEN_WIDTH SCREEN_HEIGHT TIME_BAR_HEIGHT : Z)
    (BORDER_SPACE_FRAC TEXT_START_FRAC : float) (INDICATORS_COLOR : string)
    (COLOR_MAP : float → list float) (fmt2 fmt1 : float → string)
    (data : list Np.grid) (time : list float) (first final : float)
    (batches : list (list Viewer.event)) (self : Viewer.animation) :
  time !! 0 = Some first → (first =? 0)%float = true →
  last time = Some final → (final =? 0)%float = true →
  batches ≠ [] →
  Viewer.main ANIMATION_STARTUP_RUN_STATE ANIMATION_STARTUP_DEBUG_STATE
    SCREEN_WIDTH SCREEN_HEIGHT TIME_BAR_HEIGHT BORDER_SPACE_FRAC
    TEXT_START_FRAC INDICATORS_COLOR COLOR_MAP fmt2 fmt1 data time batches
  ≠ Ok self.
Proof.
  intros Hfirst Hfz Hlast Hlz Hne Hmain. unfold Viewer.main in Hmain.
  apply ResultFacts.bind_Ok in Hmain as (a0 & Hinit & Hrun).
  apply InitFacts.init_Ok in Hinit
    as (data' & frame0 & sprites & time0 & Hmt & _ & _ & _ & _ & _ & Hbar & _
        & _ & _ & _ & _ & Hidx & _ & Ht).
  rewrite item_last, Hlast in Hmt. injection Hmt as Hmt.
  apply TimeBarFacts.init_direction in Hbar as [Hdir Hvalid].
  destruct batches as [|events batches]; [done|].
  unfold Viewer.run in Hrun. simpl in Hrun.
  apply ResultFacts.bind_Ok in Hrun as (s & Hframe & _).
  apply AnimationFacts.frame_Ok in Hframe
    as (s1 & snapshot & mesh' & now & bar' & Hs1 & _ & _ & Hnow & Hset & _).
  apply RunFacts.check_events_same in Hs1 as [(_ & Ht1 & Hm1 & Hb1) Hi1].
  destruct (RunFacts.rewound_same s1) as [(_ & Ht2 & Hm2 & Hb2) Hi2].
  rewrite Ht2, Ht1, Ht, (Hi2 (Hi1 Hidx)), Hfirst in Hnow.
  injection Hnow as <-.
  rewrite Hm2, Hm1, Hb2, Hb1, <- Hmt in Hset.
  rewrite (TimeBarFacts.div_zeros first final Hfz Hlz) in Hset.
  rewrite TimeBarFacts.set_value_nan in Hset; [done|]. by rewrite Hdir.
Qed.

Lemma time_axis_ending_at_zero_stops_the_viewer_witness :
  Sample.main true Sample.data [0%float] [[]] = Raise ValueError.
Proof.
  destruct (Sample.main true Sample.data [0%float] [[]]) as [self|e] eqn:H.
  - destruct (time_axis_ending_at_zero_stops_the_viewer true false 800 600 10
                0.125 0.03125 "white" two_tones no_digits no_digits
                Sample.data [0%float] 0 0 [[]] self
                eq_refl eq_refl eq_refl eq_refl ltac:(discriminate) H).
  - vm_compute in H. exact (eq_sym H).
Defined.
